(** * Tetris core: pieces, board and controller

    A shallow embedding of [src/tetris.h] and [src/tetris.cpp]: the [Piece],
    [Board] and [Tetris] classes become records, their member functions
    become functions on those records, and the properties of the
    specification are stated and proved (or refuted) about them.

    Conventions.
    - [int] is [Z]; the quantities that appear (rows, columns, indices, the
      move counter) stay far away from the limits of a 32-bit integer.  The
      score and the level are the exception, the level being a parameter of
      [restart]: what is stated about the score carries the bound under
      which the sum of the code is the sum on [Z].
    - [double] is Rocq's primitive binary64 [float], so that sums, quotients
      and comparisons of timers evaluate exactly as IEEE 754 prescribes.
    - [std::vector<T>] is [list T], indexed by [Z].  [operator[]] outside
      the vector is undefined behaviour in C++: the checked accessors [vat]
      and [vset] return [None] there.  Where the source guards or bounds the
      index itself, the total accessors [vget] and [vput] are used and the
      bound is proved separately. *)

From Stdlib Require Import ZArith List Bool Lia PrimFloat Permutation.
Import ListNotations.
Local Open Scope Z_scope.
Local Open Scope float_scope.
Local Open Scope Z_scope.
Set Warnings "-inexact-float".

(** ** Vectors and counted loops *)

Definition vat {A : Type} (v : list A) (i : Z) : option A :=
  if i <? 0 then None else nth_error v (Z.to_nat i).

Fixpoint upd {A : Type} (v : list A) (n : nat) (x : A) : list A :=
  match v, n with
  | [], _ => []
  | _ :: v', O => x :: v'
  | y :: v', S n' => y :: upd v' n' x
  end.

Definition vset {A : Type} (v : list A) (i : Z) (x : A) : option (list A) :=
  if (0 <=? i) && (i <? Z.of_nat (length v)) then Some (upd v (Z.to_nat i) x)
  else None.

Definition vget {A : Type} (d : A) (v : list A) (i : Z) : A :=
  match vat v i with Some x => x | None => d end.

Definition vput {A : Type} (v : list A) (i : Z) (x : A) : list A :=
  match vset v i x with Some v' => v' | None => v end.

(** [for_up n i body] runs [body i], [body (i+1)], ... [n] times:
    [for (k = i; k < i + n; ++k)]. *)
Fixpoint for_up {S : Type} (n : nat) (i : Z) (body : Z -> S -> S) (s : S) : S :=
  match n with
  | O => s
  | Datatypes.S n' => for_up n' (i + 1) body (body i s)
  end.

(** [for_down n i body] runs [body i], [body (i-1)], ... [n] times:
    [for (k = i; k > i - n; --k)]. *)
Fixpoint for_down {S : Type} (n : nat) (i : Z) (body : Z -> S -> S) (s : S) : S :=
  match n with
  | O => s
  | Datatypes.S n' => for_down n' (i - 1) body (body i s)
  end.

(** [for (k = lo; k < hi; ++k)] and [for (k = hi; k >= lo; --k)]. *)
Definition for_range {S : Type} (lo hi : Z) (body : Z -> S -> S) (s : S) : S :=
  for_up (Z.to_nat (hi - lo)) lo body s.

Definition for_range_down {S : Type} (hi lo : Z) (body : Z -> S -> S) (s : S) : S :=
  for_down (Z.to_nat (hi - lo + 1)) hi body s.

(** ** Enumerations of tetris.h *)

Definition kNumPieces : Z := 7.

Inductive TileColor : Type :=
  kEmpty | kCyan | kBlue | kOrange | kYellow | kGreen | kPurple | kRed.

Inductive PieceKind : Type :=
  kNone | kPieceI | kPieceJ | kPieceL | kPieceO | kPieceS | kPieceT | kPieceZ.

(** The scoped enumerations [enum class Rotation] and [enum class Motion]. *)
Module Rotation.
Inductive t : Type := kRight | kLeft.
End Rotation.

Module Motion.
Inductive t : Type := kNone | kRight | kLeft.

Definition eqb (a b : t) : bool :=
  match a, b with
  | kNone, kNone | kRight, kRight | kLeft, kLeft => true
  | _, _ => false
  end.
End Motion.

(** The enumerators' integer values: [kEmpty = -1, kCyan = 0, ...] and
    [kNone = -1, kPieceI = 0, ...]. *)
Definition TileColor_value (c : TileColor) : Z :=
  match c with
  | kEmpty => -1 | kCyan => 0 | kBlue => 1 | kOrange => 2
  | kYellow => 3 | kGreen => 4 | kPurple => 5 | kRed => 6
  end.

Definition PieceKind_value (k : PieceKind) : Z :=
  match k with
  | kNone => -1 | kPieceI => 0 | kPieceJ => 1 | kPieceL => 2
  | kPieceO => 3 | kPieceS => 4 | kPieceT => 5 | kPieceZ => 6
  end.

Definition TileColor_eqb (a b : TileColor) : bool :=
  TileColor_value a =? TileColor_value b.

Definition PieceKind_eqb (a b : PieceKind) : bool :=
  PieceKind_value a =? PieceKind_value b.

(** [static_cast<TileColor>(kind)]: the colour with the kind's value. *)
Definition TileColor_of_kind (k : PieceKind) : TileColor :=
  match k with
  | kNone => kEmpty | kPieceI => kCyan | kPieceJ => kBlue | kPieceL => kOrange
  | kPieceO => kYellow | kPieceS => kGreen | kPieceT => kPurple | kPieceZ => kRed
  end.

(** ** Piece *)

Module Piece.

Record t : Type := mk {
  kind_ : PieceKind;
  color_ : TileColor;
  nRows_ : Z;
  nCols_ : Z;
  initialShape_ : list TileColor;
  bBoxSide_ : Z;
  shape_ : list TileColor;
  state_ : Z;
  kicksRight_ : list (list (Z * Z));
  kicksLeft_ : list (list (Z * Z))
}.

Definition kNumStates_ : Z := 4.

Definition kKicksIRight_ : list (list (Z * Z)) :=
  [ [(0, 0); (0, -2); (0, 1); (1, -2); (-2, 1)];
    [(0, 0); (0, -1); (0, 2); (-2, -1); (1, 2)];
    [(0, 0); (0, 2); (0, -1); (-1, 2); (2, -1)];
    [(0, 0); (0, 1); (0, -2); (2, 1); (-1, -2)] ].

Definition kKicksILeft_ : list (list (Z * Z)) :=
  [ [(0, 0); (0, -1); (0, 2); (-2, -1); (1, 2)];
    [(0, 0); (0, 2); (0, -1); (-1, 2); (2, -1)];
    [(0, 0); (0, 1); (0, -2); (2, 1); (-1, -2)];
    [(0, 0); (0, -2); (0, 1); (1, -2); (-2, 1)] ].

Definition kKicksOtherRight_ : list (list (Z * Z)) :=
  [ [(0, 0); (0, 1); (-1, -1); (2, 0); (2, -1)];
    [(0, 0); (0, 1); (1, 1); (-2, 0); (-2, 1)];
    [(0, 0); (0, 1); (-1, 1); (2, 0); (2, 1)];
    [(0, 0); (0, -1); (1, -1); (-2, 0); (-2, -1)] ].

Definition kicksOtherLeft_ : list (list (Z * Z)) :=
  [ [(0, 0); (0, 1); (-1, 1); (2, 0); (2, 1)];
    [(0, 0); (0, -1); (1, 1); (-2, 0); (-2, 1)];
    [(0, 0); (0, -1); (-1, -1); (2, 0); (2, -1)];
    [(0, 0); (0, -1); (1, -1); (-2, 0); (-2, -1)] ].

(** [Piece::Piece(PieceKind kind)]. *)
Definition Piece (kind : PieceKind) : t :=
  let e := kEmpty in
  let c := TileColor_of_kind kind in
  let kr := match kind with
            | kPieceO | kNone => []
            | kPieceI => kKicksIRight_
            | _ => kKicksOtherRight_
            end in
  let kl := match kind with
            | kPieceO | kNone => []
            | kPieceI => kKicksILeft_
            | _ => kicksOtherLeft_
            end in
  match kind with
  | kNone => mk kind c 0 0 [] 0 [] 0 kr kl
  | kPieceI =>
      mk kind c 1 4 [c; c; c; c] 4
         [e; e; e; e; c; c; c; c; e; e; e; e; e; e; e; e] 0 kr kl
  | kPieceJ =>
      mk kind c 2 3 [c; e; e; c; c; c] 3 [c; e; e; c; c; c; e; e; e] 0 kr kl
  | kPieceL =>
      mk kind c 2 3 [e; e; c; c; c; c] 3 [e; e; c; c; c; c; e; e; e] 0 kr kl
  | kPieceO =>
      mk kind c 2 2 [c; c; c; c] 2 [c; c; c; c] 0 kr kl
  | kPieceS =>
      mk kind c 2 3 [e; c; c; c; c; e] 3 [e; c; c; c; c; e; e; e; e] 0 kr kl
  | kPieceT =>
      mk kind c 2 3 [e; c; e; c; c; c] 3 [e; c; e; c; c; c; e; e; e] 0 kr kl
  | kPieceZ =>
      mk kind c 2 3 [c; c; e; e; c; c] 3 [c; c; e; e; c; c; e; e; e] 0 kr kl
  end.

Definition set_shape_state (shape : list TileColor) (state : Z) (p : t) : t :=
  mk (kind_ p) (color_ p) (nRows_ p) (nCols_ p) (initialShape_ p) (bBoxSide_ p)
     shape state (kicksRight_ p) (kicksLeft_ p).

(** The two copy loops of [Piece::rotate]; the loop state is
    [(newShape, index)].  [newShape] starts as [shape_.size()]
    value-initialised colours, that is [kCyan]. *)
Definition rotate_right_loop (b : Z) (shape : list TileColor) : list TileColor :=
  fst (for_range_down (b - 1) 0 (fun col =>
         for_range 0 b (fun row '(newShape, index) =>
           (vput newShape (row * b + col) (vget kCyan shape index), index + 1)))
       (repeat kCyan (length shape), 0)).

Definition rotate_left_loop (b : Z) (shape : list TileColor) : list TileColor :=
  fst (for_range 0 b (fun col =>
         for_range_down (b - 1) 0 (fun i '(newShape, index) =>
           (vput newShape (i * b + col) (vget kCyan shape index), index + 1)))
       (repeat kCyan (length shape), 0)).

(** [void Piece::rotate(Rotation rotation)]. *)
Definition rotate (rotation : Rotation.t) (p : t) : t :=
  if PieceKind_eqb (kind_ p) kPieceO then p
  else
    let b := bBoxSide_ p in
    let '(state, newShape) :=
      match rotation with
      | Rotation.kRight => (state_ p + 1, rotate_right_loop b (shape_ p))
      | Rotation.kLeft => (state_ p - 1, rotate_left_loop b (shape_ p))
      end in
    let state :=
      if state =? -1 then kNumStates_ - 1
      else if state =? kNumStates_ then 0
      else state in
    set_shape_state newShape state p.

(** [Piece::kicks]: [kicksRight_[state_]] or [kicksLeft_[state_]].  The O
    piece and the none piece have empty tables and must not be asked for
    kicks; [Board::rotate], the only caller, returns before it would.  For
    every other well-formed piece the state indexes a table of four rows
    (lemma [kicks_defined]). *)
Definition kicks (rotation : Rotation.t) (p : t) : list (Z * Z) :=
  match rotation with
  | Rotation.kRight => vget [] (kicksRight_ p) (state_ p)
  | Rotation.kLeft => vget [] (kicksLeft_ p) (state_ p)
  end.

(** A piece is well formed when it is a constructed piece rotated some number
    of times: these are the only values of the class the program builds. *)
Inductive wf : t -> Prop :=
| wf_new kind : wf (Piece kind)
| wf_rotate rotation p : wf p -> wf (rotate rotation p).

End Piece.

(** ** Board *)

Module Board.

Record t : Type := mk {
  nRows : Z;
  nCols : Z;
  tiles_ : list TileColor;
  piece_ : Piece.t;
  row_ : Z;
  col_ : Z;
  ghostRow_ : Z;
  tilesAfterClear_ : list TileColor;
  linesToClear_ : list Z
}.

Definition kRowsAbove_ : Z := 2.

(** [Board::Board(int nRows, int nCols)]; the members without an initialiser
    in the constructor take their in-class defaults. *)
Definition Board (nRows nCols : Z) : t :=
  mk nRows nCols (repeat kEmpty (Z.to_nat ((nRows + kRowsAbove_) * nCols)))
     (Piece.Piece kNone) 0 0 0 [] [].

Definition set_tiles (v : list TileColor) (b : t) : t :=
  mk (nRows b) (nCols b) v (piece_ b) (row_ b) (col_ b) (ghostRow_ b)
     (tilesAfterClear_ b) (linesToClear_ b).

Definition set_piece (p : Piece.t) (b : t) : t :=
  mk (nRows b) (nCols b) (tiles_ b) p (row_ b) (col_ b) (ghostRow_ b)
     (tilesAfterClear_ b) (linesToClear_ b).

Definition set_row (r : Z) (b : t) : t :=
  mk (nRows b) (nCols b) (tiles_ b) (piece_ b) r (col_ b) (ghostRow_ b)
     (tilesAfterClear_ b) (linesToClear_ b).

Definition set_col (c : Z) (b : t) : t :=
  mk (nRows b) (nCols b) (tiles_ b) (piece_ b) (row_ b) c (ghostRow_ b)
     (tilesAfterClear_ b) (linesToClear_ b).

Definition set_ghostRow (g : Z) (b : t) : t :=
  mk (nRows b) (nCols b) (tiles_ b) (piece_ b) (row_ b) (col_ b) g
     (tilesAfterClear_ b) (linesToClear_ b).

Definition set_tilesAfterClear (v : list TileColor) (b : t) : t :=
  mk (nRows b) (nCols b) (tiles_ b) (piece_ b) (row_ b) (col_ b) (ghostRow_ b)
     v (linesToClear_ b).

Definition set_linesToClear (l : list Z) (b : t) : t :=
  mk (nRows b) (nCols b) (tiles_ b) (piece_ b) (row_ b) (col_ b) (ghostRow_ b)
     (tilesAfterClear_ b) l.

(** [void Board::clear()]: [std::fill] over the whole grid. *)
Definition clear (b : t) : t :=
  set_tiles (repeat kEmpty (length (tiles_ b))) b.

(** The flat index of a game cell: [(row + kRowsAbove_) * nCols + col]. *)
Definition cell (b : t) (row col : Z) : Z := (row + kRowsAbove_) * nCols b + col.

(** [TileColor Board::tileAt(int row, int col) const]. *)
Definition tileAt (b : t) (row col : Z) : TileColor :=
  vget kEmpty (tiles_ b) (cell b row col).

(** [void Board::setTile(int row, int col, TileColor color)]: a write
    through [operator[]], undefined outside the grid. *)
Definition setTile (row col : Z) (color : TileColor) (b : t) : option t :=
  match vset (tiles_ b) (cell b row col) color with
  | Some v => Some (set_tiles v b)
  | None => None
  end.

(** [bool Board::isTileFilled(int row, int col) const]. *)
Definition isTileFilled (b : t) (row col : Z) : bool :=
  if (col <? 0) || (col >=? nCols b) || (row <? - kRowsAbove_) || (row >=? nRows b)
  then true
  else negb (TileColor_eqb (tileAt b row col) kEmpty).

(** [bool Board::isPositionPossible(int row, int col, const Piece& piece)].
    The loop state is [(index, possible)]; the source returns [false] at the
    first colliding cell, here the flag falls to [false] and stays there, the
    remaining iterations only reading. *)
Definition isPositionPossible (b : t) (row col : Z) (piece : Piece.t) : bool :=
  if PieceKind_eqb (Piece.kind_ piece) kNone then false
  else
    let shape := Piece.shape_ piece in
    snd (for_range 0 (Piece.bBoxSide_ piece) (fun pieceRow =>
           for_range 0 (Piece.bBoxSide_ piece) (fun pieceCol '(index, possible) =>
             (index + 1,
              possible &&
              negb (negb (TileColor_eqb (vget kEmpty shape index) kEmpty) &&
                    isTileFilled b (row + pieceRow) (col + pieceCol)))))
         (0, true)).

(** The [while] loop of [Board::updateGhostRow], with a bound on the number
    of iterations. *)
Fixpoint ghost_loop (fuel : nat) (b : t) (ghostRow : Z) : Z :=
  match fuel with
  | O => ghostRow
  | S fuel' =>
      if isPositionPossible b (ghostRow + 1) (col_ b) (piece_ b)
      then ghost_loop fuel' b (ghostRow + 1)
      else ghostRow
  end.

(** [void Board::updateGhostRow()].  A position below the floor collides for
    every piece that has a cell, so the loop stops before [nRows - row_]
    steps: lemma [ghost_loop_stops] shows that the bound is never what ends
    the loop of a well-formed piece. *)
Definition updateGhostRow (b : t) : t :=
  set_ghostRow (ghost_loop (Z.to_nat (nRows b - row_ b)) b (row_ b)) b.

(** [void Board::findLinesToClear()].  The state of the sweep is
    [(linesToClear_, tilesAfterClear_, linesCleared, index)]. *)
Definition fullRow (b : t) (row : Z) : bool :=
  for_range 0 (nCols b) (fun col full => full && isTileFilled b row col) true.

Definition copy_row (b : t) (indexShift : Z)
    (st : list TileColor * Z) : list TileColor * Z :=
  for_range 0 (nCols b) (fun _ '(after, index) =>
    (vput after (index + indexShift) (vget kEmpty (tiles_ b) index), index - 1)) st.

Definition sweep_row (b : t) (row : Z)
    (st : list Z * list TileColor * Z * Z) : list Z * list TileColor * Z * Z :=
  let '(lines, after, linesCleared, index) := st in
  if fullRow b row then
    (lines ++ [row], after, linesCleared + 1, index - nCols b)
  else if linesCleared >? 0 then
    let '(after', index') := copy_row b (linesCleared * nCols b) (after, index) in
    (lines, after', linesCleared, index')
  else
    (lines, after, linesCleared, index - nCols b).

(** [std::fill(v.begin(), v.begin() + n, kEmpty)]. *)
Definition fill_front (n : Z) (v : list TileColor) : list TileColor :=
  repeat kEmpty (Z.to_nat n) ++ skipn (Z.to_nat n) v.

Definition findLinesToClear (b : t) : t :=
  let '(lines, after, linesCleared, _) :=
    for_range_down (nRows b - 1) (- kRowsAbove_) (sweep_row b)
      ([], tiles_ b, 0, Z.of_nat (length (tiles_ b)) - 1) in
  set_tilesAfterClear (fill_front (linesCleared * nCols b) after)
    (set_linesToClear lines b).

(** [bool Board::frozePiece()].  The loop state is
    [(index, belowSkyline, board)], the board being [None] once a write has
    left the grid. *)
Definition frozePiece (b : t) : option (bool * t) :=
  let shape := Piece.shape_ (piece_ b) in
  let side := Piece.bBoxSide_ (piece_ b) in
  let '(_, belowSkyline, ob) :=
    for_range (row_ b) (row_ b + side) (fun row =>
      for_range (col_ b) (col_ b + side) (fun col '(index, belowSkyline, ob) =>
        if negb (TileColor_eqb (vget kEmpty shape index) kEmpty) then
          (index + 1,
           (if row >=? 0 then true else belowSkyline),
           match ob with
           | Some b' => setTile row col (vget kEmpty shape index) b'
           | None => None
           end)
        else (index + 1, belowSkyline, ob)))
      (0, false, Some b) in
  match ob with
  | Some b' => Some (belowSkyline, set_piece (Piece.Piece kNone) (findLinesToClear b'))
  | None => None
  end.

(** [bool Board::spawnPiece(PieceKind kind)].  The slide-down loop has state
    [(row_, stopped)], [stopped] standing for the [break]. *)
Definition spawnPiece (kind : PieceKind) (b : t) : bool * t :=
  let b := set_piece (Piece.Piece kind) b in
  let b := set_row (-2) b in
  let b := set_col (Z.quot (nCols b - Piece.bBoxSide_ (piece_ b)) 2) b in
  if negb (isPositionPossible b (row_ b) (col_ b) (piece_ b)) then (false, b)
  else
    let maxMoveDown := if PieceKind_eqb kind kPieceI then 1 else 2 in
    let '(row, _) :=
      for_range (S := Z * bool) 0 maxMoveDown (fun _ '(row, stopped) =>
        if stopped then (row, true)
        else if negb (isPositionPossible b (row + 1) (col_ b) (piece_ b))
             then (row, true)
             else (row + 1, false))
        (row_ b, false) in
    (true, updateGhostRow (set_row row b)).

(** [bool Board::moveHorizontal(int dCol)]. *)
Definition moveHorizontal (dCol : Z) (b : t) : bool * t :=
  if isPositionPossible b (row_ b) (col_ b + dCol) (piece_ b)
  then (true, updateGhostRow (set_col (col_ b + dCol) b))
  else (false, b).

(** [bool Board::moveVertical(int dRow)]. *)
Definition moveVertical (dRow : Z) (b : t) : bool * t :=
  if isPositionPossible b (row_ b + dRow) (col_ b) (piece_ b)
  then (true, set_row (row_ b + dRow) b)
  else (false, b).

(** The kick loop of [Board::rotate]: the first kick whose position is
    possible for the rotated piece is applied. *)
Fixpoint try_kicks (testPiece : Piece.t) (kicks : list (Z * Z)) (b : t) : bool * t :=
  match kicks with
  | [] => (false, b)
  | (dRow, dCol) :: rest =>
      if isPositionPossible b (row_ b + dRow) (col_ b + dCol) testPiece
      then (true, updateGhostRow
                    (set_col (col_ b + dCol)
                       (set_row (row_ b + dRow) (set_piece testPiece b))))
      else try_kicks testPiece rest b
  end.

(** [bool Board::rotate(Rotation rotation)]. *)
Definition rotate (rotation : Rotation.t) (b : t) : bool * t :=
  if PieceKind_eqb (Piece.kind_ (piece_ b)) kPieceO
     || PieceKind_eqb (Piece.kind_ (piece_ b)) kNone
  then (false, b)
  else
    let testPiece := Piece.rotate rotation (piece_ b) in
    try_kicks testPiece (Piece.kicks rotation (piece_ b)) b.

(** [int Board::hardDrop()]. *)
Definition hardDrop (b : t) : Z * t :=
  (ghostRow_ b - row_ b, set_row (ghostRow_ b) b).

(** [bool Board::isOnGround() const]. *)
Definition isOnGround (b : t) : bool :=
  negb (isPositionPossible b (row_ b + 1) (col_ b) (piece_ b)).

(** [int Board::numLinesToClear() const]. *)
Definition numLinesToClear (b : t) : Z := Z.of_nat (length (linesToClear_ b)).

(** [void Board::clearLines()]. *)
Definition clearLines (b : t) : t :=
  match linesToClear_ b with
  | [] => b
  | _ :: _ => set_tiles (tilesAfterClear_ b) (set_linesToClear [] b)
  end.

End Board.

(** ** Tetris (the controller) *)

Module Tetris.

Definition kMoveDelay_ : float := 0.05.
Definition kMoveRepeatDelay_ : float := 0.15.
Definition kSoftDropSpeedFactor_ : float := 20.
Definition kLockDownTimeLimit_ : float := 0.4.
Definition kLockDownMovesLimit_ : Z := 15.
Definition kPauseAfterLineClear_ : float := 0.3.

(** [a >= b] and [a < b] on [double]. *)
Definition fge (a b : float) : bool := PrimFloat.leb b a.
Definition flt (a b : float) : bool := PrimFloat.ltb a b.

(** The conversion of an [int] to [double]; exact, an [int] has at most 31
    significant bits. *)
Fixpoint float_of_pos (p : positive) : float :=
  match p with
  | xH => 1
  | xO p' => 2 * float_of_pos p'
  | xI p' => 2 * float_of_pos p' + 1
  end.

Definition float_of_int (z : Z) : float :=
  match z with
  | Z0 => 0
  | Zpos p => float_of_pos p
  | Zneg p => - float_of_pos p
  end.

Section Controller.

(** The two library routines the controller calls are parameters of the
    model: [std::shuffle] driven by the [std::default_random_engine] member
    (its engine state is [Rng]; a call permutes a range and advances the
    engine), and [std::pow]. *)
Context {Rng : Type}.
Variable shuffle : Rng -> list PieceKind -> list PieceKind * Rng.
Variable pow : float -> float -> float.

(** The members of [class Tetris].  [board_] is a reference in the source:
    the controller is the only writer of the board it refers to, so the
    board is carried in the controller's state. *)
Record t : Type := mk {
  board_ : Board.t;
  gameOver_ : bool;
  timeStep_ : float;
  rng_ : Rng;
  bag_ : list PieceKind;
  nextPiece_ : Z;
  level_ : Z;
  linesCleared_ : Z;
  score_ : Z;
  secondsPerLine_ : float;
  moveDownTimer_ : float;
  motion_ : Motion.t;
  moveLeftPrev_ : bool;
  moveRightPrev_ : bool;
  moveRepeatDelayTimer_ : float;
  moveRepeatTimer_ : float;
  isOnGround_ : bool;
  lockingTimer_ : float;
  nMovesWhileLocking_ : Z;
  pausedForLinesClear_ : bool;
  linesClearTimer_ : float
}.

Definition set_board (v : Board.t) (s : t) : t :=
  mk v (gameOver_ s) (timeStep_ s) (rng_ s) (bag_ s) (nextPiece_ s) (level_ s)
     (linesCleared_ s) (score_ s) (secondsPerLine_ s) (moveDownTimer_ s)
     (motion_ s) (moveLeftPrev_ s) (moveRightPrev_ s) (moveRepeatDelayTimer_
     s) (moveRepeatTimer_ s) (isOnGround_ s) (lockingTimer_ s)
     (nMovesWhileLocking_ s) (pausedForLinesClear_ s) (linesClearTimer_ s).

Definition set_gameOver (v : bool) (s : t) : t :=
  mk (board_ s) v (timeStep_ s) (rng_ s) (bag_ s) (nextPiece_ s) (level_ s)
     (linesCleared_ s) (score_ s) (secondsPerLine_ s) (moveDownTimer_ s)
     (motion_ s) (moveLeftPrev_ s) (moveRightPrev_ s) (moveRepeatDelayTimer_
     s) (moveRepeatTimer_ s) (isOnGround_ s) (lockingTimer_ s)
     (nMovesWhileLocking_ s) (pausedForLinesClear_ s) (linesClearTimer_ s).

Definition set_rng (v : Rng) (s : t) : t :=
  mk (board_ s) (gameOver_ s) (timeStep_ s) v (bag_ s) (nextPiece_ s) (level_
     s) (linesCleared_ s) (score_ s) (secondsPerLine_ s) (moveDownTimer_ s)
     (motion_ s) (moveLeftPrev_ s) (moveRightPrev_ s) (moveRepeatDelayTimer_
     s) (moveRepeatTimer_ s) (isOnGround_ s) (lockingTimer_ s)
     (nMovesWhileLocking_ s) (pausedForLinesClear_ s) (linesClearTimer_ s).

Definition set_bag (v : list PieceKind) (s : t) : t :=
  mk (board_ s) (gameOver_ s) (timeStep_ s) (rng_ s) v (nextPiece_ s) (level_
     s) (linesCleared_ s) (score_ s) (secondsPerLine_ s) (moveDownTimer_ s)
     (motion_ s) (moveLeftPrev_ s) (moveRightPrev_ s) (moveRepeatDelayTimer_
     s) (moveRepeatTimer_ s) (isOnGround_ s) (lockingTimer_ s)
     (nMovesWhileLocking_ s) (pausedForLinesClear_ s) (linesClearTimer_ s).

Definition set_nextPiece (v : Z) (s : t) : t :=
  mk (board_ s) (gameOver_ s) (timeStep_ s) (rng_ s) (bag_ s) v (level_ s)
     (linesCleared_ s) (score_ s) (secondsPerLine_ s) (moveDownTimer_ s)
     (motion_ s) (moveLeftPrev_ s) (moveRightPrev_ s) (moveRepeatDelayTimer_
     s) (moveRepeatTimer_ s) (isOnGround_ s) (lockingTimer_ s)
     (nMovesWhileLocking_ s) (pausedForLinesClear_ s) (linesClearTimer_ s).

Definition set_level (v : Z) (s : t) : t :=
  mk (board_ s) (gameOver_ s) (timeStep_ s) (rng_ s) (bag_ s) (nextPiece_ s) v
     (linesCleared_ s) (score_ s) (secondsPerLine_ s) (moveDownTimer_ s)
     (motion_ s) (moveLeftPrev_ s) (moveRightPrev_ s) (moveRepeatDelayTimer_
     s) (moveRepeatTimer_ s) (isOnGround_ s) (lockingTimer_ s)
     (nMovesWhileLocking_ s) (pausedForLinesClear_ s) (linesClearTimer_ s).

Definition set_linesCleared (v : Z) (s : t) : t :=
  mk (board_ s) (gameOver_ s) (timeStep_ s) (rng_ s) (bag_ s) (nextPiece_ s)
     (level_ s) v (score_ s) (secondsPerLine_ s) (moveDownTimer_ s) (motion_
     s) (moveLeftPrev_ s) (moveRightPrev_ s) (moveRepeatDelayTimer_ s)
     (moveRepeatTimer_ s) (isOnGround_ s) (lockingTimer_ s)
     (nMovesWhileLocking_ s) (pausedForLinesClear_ s) (linesClearTimer_ s).

Definition set_score (v : Z) (s : t) : t :=
  mk (board_ s) (gameOver_ s) (timeStep_ s) (rng_ s) (bag_ s) (nextPiece_ s)
     (level_ s) (linesCleared_ s) v (secondsPerLine_ s) (moveDownTimer_ s)
     (motion_ s) (moveLeftPrev_ s) (moveRightPrev_ s) (moveRepeatDelayTimer_
     s) (moveRepeatTimer_ s) (isOnGround_ s) (lockingTimer_ s)
     (nMovesWhileLocking_ s) (pausedForLinesClear_ s) (linesClearTimer_ s).

Definition set_secondsPerLine (v : float) (s : t) : t :=
  mk (board_ s) (gameOver_ s) (timeStep_ s) (rng_ s) (bag_ s) (nextPiece_ s)
     (level_ s) (linesCleared_ s) (score_ s) v (moveDownTimer_ s) (motion_ s)
     (moveLeftPrev_ s) (moveRightPrev_ s) (moveRepeatDelayTimer_ s)
     (moveRepeatTimer_ s) (isOnGround_ s) (lockingTimer_ s)
     (nMovesWhileLocking_ s) (pausedForLinesClear_ s) (linesClearTimer_ s).

Definition set_moveDownTimer (v : float) (s : t) : t :=
  mk (board_ s) (gameOver_ s) (timeStep_ s) (rng_ s) (bag_ s) (nextPiece_ s)
     (level_ s) (linesCleared_ s) (score_ s) (secondsPerLine_ s) v (motion_ s)
     (moveLeftPrev_ s) (moveRightPrev_ s) (moveRepeatDelayTimer_ s)
     (moveRepeatTimer_ s) (isOnGround_ s) (lockingTimer_ s)
     (nMovesWhileLocking_ s) (pausedForLinesClear_ s) (linesClearTimer_ s).

Definition set_motion (v : Motion.t) (s : t) : t :=
  mk (board_ s) (gameOver_ s) (timeStep_ s) (rng_ s) (bag_ s) (nextPiece_ s)
     (level_ s) (linesCleared_ s) (score_ s) (secondsPerLine_ s)
     (moveDownTimer_ s) v (moveLeftPrev_ s) (moveRightPrev_ s)
     (moveRepeatDelayTimer_ s) (moveRepeatTimer_ s) (isOnGround_ s)
     (lockingTimer_ s) (nMovesWhileLocking_ s) (pausedForLinesClear_ s)
     (linesClearTimer_ s).

Definition set_moveLeftPrev (v : bool) (s : t) : t :=
  mk (board_ s) (gameOver_ s) (timeStep_ s) (rng_ s) (bag_ s) (nextPiece_ s)
     (level_ s) (linesCleared_ s) (score_ s) (secondsPerLine_ s)
     (moveDownTimer_ s) (motion_ s) v (moveRightPrev_ s)
     (moveRepeatDelayTimer_ s) (moveRepeatTimer_ s) (isOnGround_ s)
     (lockingTimer_ s) (nMovesWhileLocking_ s) (pausedForLinesClear_ s)
     (linesClearTimer_ s).

Definition set_moveRightPrev (v : bool) (s : t) : t :=
  mk (board_ s) (gameOver_ s) (timeStep_ s) (rng_ s) (bag_ s) (nextPiece_ s)
     (level_ s) (linesCleared_ s) (score_ s) (secondsPerLine_ s)
     (moveDownTimer_ s) (motion_ s) (moveLeftPrev_ s) v (moveRepeatDelayTimer_
     s) (moveRepeatTimer_ s) (isOnGround_ s) (lockingTimer_ s)
     (nMovesWhileLocking_ s) (pausedForLinesClear_ s) (linesClearTimer_ s).

Definition set_moveRepeatDelayTimer (v : float) (s : t) : t :=
  mk (board_ s) (gameOver_ s) (timeStep_ s) (rng_ s) (bag_ s) (nextPiece_ s)
     (level_ s) (linesCleared_ s) (score_ s) (secondsPerLine_ s)
     (moveDownTimer_ s) (motion_ s) (moveLeftPrev_ s) (moveRightPrev_ s) v
     (moveRepeatTimer_ s) (isOnGround_ s) (lockingTimer_ s)
     (nMovesWhileLocking_ s) (pausedForLinesClear_ s) (linesClearTimer_ s).

Definition set_moveRepeatTimer (v : float) (s : t) : t :=
  mk (board_ s) (gameOver_ s) (timeStep_ s) (rng_ s) (bag_ s) (nextPiece_ s)
     (level_ s) (linesCleared_ s) (score_ s) (secondsPerLine_ s)
     (moveDownTimer_ s) (motion_ s) (moveLeftPrev_ s) (moveRightPrev_ s)
     (moveRepeatDelayTimer_ s) v (isOnGround_ s) (lockingTimer_ s)
     (nMovesWhileLocking_ s) (pausedForLinesClear_ s) (linesClearTimer_ s).

Definition set_isOnGround (v : bool) (s : t) : t :=
  mk (board_ s) (gameOver_ s) (timeStep_ s) (rng_ s) (bag_ s) (nextPiece_ s)
     (level_ s) (linesCleared_ s) (score_ s) (secondsPerLine_ s)
     (moveDownTimer_ s) (motion_ s) (moveLeftPrev_ s) (moveRightPrev_ s)
     (moveRepeatDelayTimer_ s) (moveRepeatTimer_ s) v (lockingTimer_ s)
     (nMovesWhileLocking_ s) (pausedForLinesClear_ s) (linesClearTimer_ s).

Definition set_lockingTimer (v : float) (s : t) : t :=
  mk (board_ s) (gameOver_ s) (timeStep_ s) (rng_ s) (bag_ s) (nextPiece_ s)
     (level_ s) (linesCleared_ s) (score_ s) (secondsPerLine_ s)
     (moveDownTimer_ s) (motion_ s) (moveLeftPrev_ s) (moveRightPrev_ s)
     (moveRepeatDelayTimer_ s) (moveRepeatTimer_ s) (isOnGround_ s) v
     (nMovesWhileLocking_ s) (pausedForLinesClear_ s) (linesClearTimer_ s).

Definition set_nMovesWhileLocking (v : Z) (s : t) : t :=
  mk (board_ s) (gameOver_ s) (timeStep_ s) (rng_ s) (bag_ s) (nextPiece_ s)
     (level_ s) (linesCleared_ s) (score_ s) (secondsPerLine_ s)
     (moveDownTimer_ s) (motion_ s) (moveLeftPrev_ s) (moveRightPrev_ s)
     (moveRepeatDelayTimer_ s) (moveRepeatTimer_ s) (isOnGround_ s)
     (lockingTimer_ s) v (pausedForLinesClear_ s) (linesClearTimer_ s).

Definition set_pausedForLinesClear (v : bool) (s : t) : t :=
  mk (board_ s) (gameOver_ s) (timeStep_ s) (rng_ s) (bag_ s) (nextPiece_ s)
     (level_ s) (linesCleared_ s) (score_ s) (secondsPerLine_ s)
     (moveDownTimer_ s) (motion_ s) (moveLeftPrev_ s) (moveRightPrev_ s)
     (moveRepeatDelayTimer_ s) (moveRepeatTimer_ s) (isOnGround_ s)
     (lockingTimer_ s) (nMovesWhileLocking_ s) v (linesClearTimer_ s).

Definition set_linesClearTimer (v : float) (s : t) : t :=
  mk (board_ s) (gameOver_ s) (timeStep_ s) (rng_ s) (bag_ s) (nextPiece_ s)
     (level_ s) (linesCleared_ s) (score_ s) (secondsPerLine_ s)
     (moveDownTimer_ s) (motion_ s) (moveLeftPrev_ s) (moveRightPrev_ s)
     (moveRepeatDelayTimer_ s) (moveRepeatTimer_ s) (isOnGround_ s)
     (lockingTimer_ s) (nMovesWhileLocking_ s) (pausedForLinesClear_ s) v.

(** [static double secondsPerLineForLevel(int level)]. *)
Definition secondsPerLineForLevel (level : Z) : float :=
  pow (0.8 - float_of_int (level - 1) * 0.007) (float_of_int (level - 1)).

(** [std::shuffle(bag_.begin(), bag_.begin() + kNumPieces, rng_)] and
    [std::shuffle(bag_.begin() + kNumPieces, bag_.end(), rng_)]. *)
Definition shuffle_front (s : t) : t :=
  let n := Z.to_nat kNumPieces in
  let '(front, g) := shuffle (rng_ s) (firstn n (bag_ s)) in
  set_rng g (set_bag (front ++ skipn n (bag_ s)) s).

Definition shuffle_back (s : t) : t :=
  let n := Z.to_nat kNumPieces in
  let '(back, g) := shuffle (rng_ s) (skipn n (bag_ s)) in
  set_rng g (set_bag (firstn n (bag_ s) ++ back) s).

(** [std::copy(bag_.begin() + kNumPieces, bag_.end(), bag_.begin())]. *)
Definition copy_back_to_front (s : t) : t :=
  let back := skipn (Z.to_nat kNumPieces) (bag_ s) in
  set_bag (back ++ skipn (length back) (bag_ s)) s.

(** [void Tetris::spawnPiece()].  [bag_[nextPiece_]] is read with
    [nextPiece_] in [0, 7) (lemma [bag_invariant]). *)
Definition spawnPiece (s : t) : t :=
  let '(spawned, b) :=
    Board.spawnPiece (vget kNone (bag_ s) (nextPiece_ s)) (board_ s) in
  let s := set_gameOver (negb spawned) (set_board b s) in
  let s := set_nextPiece (nextPiece_ s + 1) s in
  let s :=
    if nextPiece_ s =? kNumPieces
    then set_nextPiece 0 (shuffle_back (copy_back_to_front s))
    else s in
  set_nMovesWhileLocking 0 s.

(** [void Tetris::restart(int level)]. *)
Definition restart (level : Z) (s : t) : t :=
  let s := set_board (Board.clear (board_ s)) s in
  let s := set_gameOver false s in
  let s := set_level level s in
  let s := set_secondsPerLine (secondsPerLineForLevel level) s in
  let s := set_linesCleared 0 s in
  let s := set_score 0 s in
  let s := set_motion Motion.kNone s in
  let s := set_moveLeftPrev false s in
  let s := set_moveRightPrev false s in
  let s := set_moveDownTimer 0 s in
  let s := set_moveRepeatTimer 0 s in
  let s := set_moveRepeatDelayTimer 0 s in
  let s := set_isOnGround false s in
  let s := set_lockingTimer 0 s in
  let s := set_pausedForLinesClear false s in
  let s := set_linesClearTimer 0 s in
  let s := shuffle_front s in
  let s := shuffle_back s in
  spawnPiece s.

(** [Tetris::Tetris(Board& board, double timeStep, unsigned int randomSeed)];
    [rng] is the engine seeded with [randomSeed].  The constructor sets the
    board, the time step, the engine, the bag and the draw index, [gameOver_]
    has an in-class initialiser, and [restart(1)] assigns every other member
    before anything reads it, so what stands for them here is never seen. *)
Definition Tetris (board : Board.t) (timeStep : float) (rng : Rng) : t :=
  let bag := [kPieceI; kPieceJ; kPieceL; kPieceO; kPieceS; kPieceT; kPieceZ] in
  restart 1
    (mk board false timeStep rng (bag ++ bag) 0
        0 0 0 0%float 0%float Motion.kNone false false 0%float 0%float
        false 0%float 0 false 0%float).

(** [void Tetris::lock()]. *)
Definition lock (s : t) : option t :=
  let s := set_lockingTimer 0 s in
  let s := set_isOnGround false s in
  match Board.frozePiece (board_ s) with
  | None => None
  | Some (belowSkyline, b) =>
      let s := set_board b s in
      if negb belowSkyline then Some (set_gameOver true s)
      else if Board.numLinesToClear (board_ s) =? 0 then Some (spawnPiece s)
      else Some (set_linesClearTimer 0 (set_pausedForLinesClear true s))
  end.

(** [void Tetris::checkLock()]. *)
Definition checkLock (s : t) : option t :=
  if negb (Board.isOnGround (board_ s)) then Some (set_isOnGround false s)
  else
    let s := set_isOnGround true s in
    if fge (lockingTimer_ s) kLockDownTimeLimit_
       || (nMovesWhileLocking_ s >=? kLockDownMovesLimit_)
    then lock s
    else Some s.

(** The two statements [lockingTimer_ = 0; nMovesWhileLocking_ += 1;] that
    [Tetris::moveHorizontal] and [Tetris::rotate] both execute after a
    successful move of a grounded piece. *)
Definition countMoveWhileLocking (s : t) : t :=
  set_nMovesWhileLocking (nMovesWhileLocking_ s + 1) (set_lockingTimer 0 s).

(** [void Tetris::moveHorizontal(int dCol)]. *)
Definition moveHorizontal (dCol : Z) (s : t) : t :=
  let '(moved, b) := Board.moveHorizontal dCol (board_ s) in
  let s := set_board b s in
  if moved && isOnGround_ s then countMoveWhileLocking s else s.

(** [void Tetris::rotate(Rotation rotation)]. *)
Definition rotate (rotation : Rotation.t) (s : t) : option t :=
  let '(rotated, b) := Board.rotate rotation (board_ s) in
  let s := set_board b s in
  let s := if rotated && isOnGround_ s then countMoveWhileLocking s else s in
  checkLock s.

(** [void Tetris::hardDrop()].  [score_] and [level_] are [int]s: the sum
    below is the one of the code as long as it and the products on the way
    to it stay in the range of [int]. *)
Definition hardDrop (s : t) : option t :=
  if PieceKind_eqb (Piece.kind_ (Board.piece_ (board_ s))) kNone then Some s
  else
    let '(rowsPassed, b) := Board.hardDrop (board_ s) in
    let s := set_board b s in
    let s := set_score (score_ s + 2 * level_ s * rowsPassed) s in
    lock s.

(** The part of [Tetris::update] after the line-clear pause: timers, the
    arbitration of the two direction keys, the horizontal move, gravity and
    the lock check. *)
Definition update_running (softDrop moveRight moveLeft : bool) (s : t) : option t :=
  let s := set_moveDownTimer (moveDownTimer_ s + timeStep_ s) s in
  let s := set_moveRepeatTimer (moveRepeatTimer_ s + timeStep_ s) s in
  let s := set_moveRepeatDelayTimer (moveRepeatDelayTimer_ s + timeStep_ s) s in
  let s :=
    if isOnGround_ s then set_lockingTimer (lockingTimer_ s + timeStep_ s) s
    else set_lockingTimer 0 s in
  let moveLeftInput := moveLeft in
  let moveRightInput := moveRight in
  let '(moveRight, moveLeft) :=
    if moveLeft && moveRight then
      if negb (moveRightPrev_ s) then (moveRight, false)
      else if negb (moveLeftPrev_ s) then (false, moveLeft)
      else if Motion.eqb (motion_ s) Motion.kLeft then (false, moveLeft)
      else (moveRight, false)
    else (moveRight, moveLeft) in
  let s :=
    if moveRight then
      let s :=
        if negb (Motion.eqb (motion_ s) Motion.kRight) then
          moveHorizontal 1 (set_moveRepeatTimer 0 (set_moveRepeatDelayTimer 0 s))
        else if fge (moveRepeatDelayTimer_ s) kMoveRepeatDelay_
                && fge (moveRepeatTimer_ s) kMoveDelay_ then
          moveHorizontal 1 (set_moveRepeatTimer 0 s)
        else s in
      set_motion Motion.kRight s
    else if moveLeft then
      let s :=
        if negb (Motion.eqb (motion_ s) Motion.kLeft) then
          moveHorizontal (-1) (set_moveRepeatTimer 0 (set_moveRepeatDelayTimer 0 s))
        else if fge (moveRepeatDelayTimer_ s) kMoveRepeatDelay_
                && fge (moveRepeatTimer_ s) kMoveDelay_ then
          moveHorizontal (-1) (set_moveRepeatTimer 0 s)
        else s in
      set_motion Motion.kLeft s
    else set_motion Motion.kNone s in
  let s := set_moveLeftPrev moveLeftInput s in
  let s := set_moveRightPrev moveRightInput s in
  let speedFactor_ := if softDrop then kSoftDropSpeedFactor_ else 1%float in
  let s :=
    if fge (moveDownTimer_ s) (secondsPerLine_ s / speedFactor_) then
      let '(_, b) := Board.moveVertical 1 (board_ s) in
      set_moveDownTimer 0 (set_board b s)
    else s in
  checkLock s.

(** [void Tetris::update(bool softDrop, bool moveRight, bool moveLeft)]. *)
Definition update (softDrop moveRight moveLeft : bool) (s : t) : option t :=
  if pausedForLinesClear_ s then
    let s := set_linesClearTimer (linesClearTimer_ s + timeStep_ s) s in
    if flt (linesClearTimer_ s) kPauseAfterLineClear_ then Some s
    else
      let s := set_board (Board.clearLines (board_ s)) s in
      let s := spawnPiece s in
      let s := set_pausedForLinesClear false s in
      update_running softDrop moveRight moveLeft s
  else update_running softDrop moveRight moveLeft s.

(** The read-only queries. *)
Definition isGameOver (s : t) : bool := gameOver_ s.
Definition lockPercent (s : t) : float := lockingTimer_ s / kLockDownTimeLimit_.
Definition isPausedForLinesClear (s : t) : bool := pausedForLinesClear_ s.
Definition linesClearPausePercent (s : t) : float :=
  linesClearTimer_ s / kPauseAfterLineClear_.
Definition level (s : t) : Z := level_ s.
Definition linesCleared (s : t) : Z := linesCleared_ s.
Definition nextPiece (s : t) : Piece.t := Piece.Piece (vget kNone (bag_ s) (nextPiece_ s)).

(** The public command surface, and the controller states it reaches from a
    freshly constructed controller. *)
Inductive Command : Type :=
| Restart (level : Z)
| Update (softDrop moveRight moveLeft : bool)
| Rotate (rotation : Rotation.t)
| HardDrop.

Definition step (c : Command) (s : t) : option t :=
  match c with
  | Restart level => Some (restart level s)
  | Update softDrop moveRight moveLeft => update softDrop moveRight moveLeft s
  | Rotate rotation => rotate rotation s
  | HardDrop => hardDrop s
  end.

Fixpoint run (cs : list Command) (s : t) : option t :=
  match cs with
  | [] => Some s
  | c :: cs' =>
      match step c s with
      | Some s' => run cs' s'
      | None => None
      end
  end.

Inductive reachable : t -> Prop :=
| reachable_new board timeStep rng : reachable (Tetris board timeStep rng)
| reachable_step c s s' : reachable s -> step c s = Some s' -> reachable s'.

End Controller.

Arguments t Rng : clear implicits.

End Tetris.

(** * Properties *)

(** ** Enumerations, vectors and loops *)

Lemma TileColor_eqb_eq (a b : TileColor) : TileColor_eqb a b = true <-> a = b.
Proof.
  unfold TileColor_eqb; rewrite Z.eqb_eq; split; [|now intros ->].
  destruct a, b; simpl; intros H; try reflexivity; discriminate H.
Qed.

Lemma PieceKind_eqb_eq (a b : PieceKind) : PieceKind_eqb a b = true <-> a = b.
Proof.
  unfold PieceKind_eqb; rewrite Z.eqb_eq; split; [|now intros ->].
  destruct a, b; simpl; intros H; try reflexivity; discriminate H.
Qed.

Lemma PieceKind_eqb_neq (a b : PieceKind) : PieceKind_eqb a b = false <-> a <> b.
Proof.
  rewrite <- PieceKind_eqb_eq. destruct (PieceKind_eqb a b); split; congruence.
Qed.

Lemma TileColor_of_kind_value (k : PieceKind) :
  TileColor_value (TileColor_of_kind k) = PieceKind_value k.
Proof. destruct k; reflexivity. Qed.

Lemma PieceKind_eqb_refl (a : PieceKind) : PieceKind_eqb a a = true.
Proof. now apply PieceKind_eqb_eq. Qed.

Lemma TileColor_eqb_neq (a b : TileColor) : TileColor_eqb a b = false <-> a <> b.
Proof.
  rewrite <- TileColor_eqb_eq. destruct (TileColor_eqb a b); split; congruence.
Qed.

(** Projections of updated records. *)
Ltac tetris_simpl :=
  cbn [
    Tetris.board_ Tetris.gameOver_ Tetris.timeStep_ Tetris.rng_
    Tetris.bag_ Tetris.nextPiece_ Tetris.level_ Tetris.linesCleared_
    Tetris.score_ Tetris.secondsPerLine_ Tetris.moveDownTimer_
    Tetris.motion_ Tetris.moveLeftPrev_ Tetris.moveRightPrev_
    Tetris.moveRepeatDelayTimer_ Tetris.moveRepeatTimer_
    Tetris.isOnGround_ Tetris.lockingTimer_ Tetris.nMovesWhileLocking_
    Tetris.pausedForLinesClear_ Tetris.linesClearTimer_ Tetris.set_board
    Tetris.set_gameOver Tetris.set_rng Tetris.set_bag Tetris.set_nextPiece
    Tetris.set_level Tetris.set_linesCleared Tetris.set_score
    Tetris.set_secondsPerLine Tetris.set_moveDownTimer Tetris.set_motion
    Tetris.set_moveLeftPrev Tetris.set_moveRightPrev
    Tetris.set_moveRepeatDelayTimer Tetris.set_moveRepeatTimer
    Tetris.set_isOnGround Tetris.set_lockingTimer
    Tetris.set_nMovesWhileLocking Tetris.set_pausedForLinesClear
    Tetris.set_linesClearTimer ].

Ltac tetris_simpl_in H :=
  cbn [
    Tetris.board_ Tetris.gameOver_ Tetris.timeStep_ Tetris.rng_
    Tetris.bag_ Tetris.nextPiece_ Tetris.level_ Tetris.linesCleared_
    Tetris.score_ Tetris.secondsPerLine_ Tetris.moveDownTimer_
    Tetris.motion_ Tetris.moveLeftPrev_ Tetris.moveRightPrev_
    Tetris.moveRepeatDelayTimer_ Tetris.moveRepeatTimer_
    Tetris.isOnGround_ Tetris.lockingTimer_ Tetris.nMovesWhileLocking_
    Tetris.pausedForLinesClear_ Tetris.linesClearTimer_ Tetris.set_board
    Tetris.set_gameOver Tetris.set_rng Tetris.set_bag Tetris.set_nextPiece
    Tetris.set_level Tetris.set_linesCleared Tetris.set_score
    Tetris.set_secondsPerLine Tetris.set_moveDownTimer Tetris.set_motion
    Tetris.set_moveLeftPrev Tetris.set_moveRightPrev
    Tetris.set_moveRepeatDelayTimer Tetris.set_moveRepeatTimer
    Tetris.set_isOnGround Tetris.set_lockingTimer
    Tetris.set_nMovesWhileLocking Tetris.set_pausedForLinesClear
    Tetris.set_linesClearTimer ] in H.

Ltac board_simpl :=
  cbn [
    Board.nRows Board.nCols Board.tiles_ Board.piece_ Board.row_
    Board.col_ Board.ghostRow_ Board.tilesAfterClear_ Board.linesToClear_
    Board.set_tiles Board.set_piece Board.set_row Board.set_col
    Board.set_ghostRow Board.set_tilesAfterClear Board.set_linesToClear ].

Section Loops.

Context {S : Type}.
Implicit Types (body : Z -> S -> S) (s : S).

(** The invariant rule of the counted loops. *)
Lemma for_up_ind (P : Z -> S -> Prop) body n : forall i s,
  P i s ->
  (forall k s', i <= k < i + Z.of_nat n -> P k s' -> P (k + 1) (body k s')) ->
  P (i + Z.of_nat n) (for_up n i body s).
Proof.
  induction n as [|n IH]; intros i s H0 Hstep; simpl for_up.
  - now replace (i + Z.of_nat 0) with i by lia.
  - replace (i + Z.of_nat (Datatypes.S n)) with ((i + 1) + Z.of_nat n) by lia.
    apply IH.
    + apply Hstep; [lia | exact H0].
    + intros k s' Hk. apply Hstep. lia.
Qed.

Lemma for_down_ind (P : Z -> S -> Prop) body n : forall i s,
  P i s ->
  (forall k s', i - Z.of_nat n < k <= i -> P k s' -> P (k - 1) (body k s')) ->
  P (i - Z.of_nat n) (for_down n i body s).
Proof.
  induction n as [|n IH]; intros i s H0 Hstep; simpl for_down.
  - now replace (i - Z.of_nat 0) with i by lia.
  - replace (i - Z.of_nat (Datatypes.S n)) with ((i - 1) - Z.of_nat n) by lia.
    apply IH.
    + apply Hstep; [lia | exact H0].
    + intros k s' Hk. apply Hstep. lia.
Qed.

Lemma for_range_ind (P : Z -> S -> Prop) body lo hi s :
  lo <= hi ->
  P lo s ->
  (forall k s', lo <= k < hi -> P k s' -> P (k + 1) (body k s')) ->
  P hi (for_range lo hi body s).
Proof.
  intros Hle H0 Hstep. unfold for_range.
  replace hi with (lo + Z.of_nat (Z.to_nat (hi - lo))) at 1 by lia.
  apply for_up_ind; [exact H0|]. intros k s' Hk. apply Hstep. lia.
Qed.

Lemma for_range_down_ind (P : Z -> S -> Prop) body hi lo s :
  lo <= hi + 1 ->
  P hi s ->
  (forall k s', lo <= k <= hi -> P k s' -> P (k - 1) (body k s')) ->
  P (lo - 1) (for_range_down hi lo body s).
Proof.
  intros Hle H0 Hstep. unfold for_range_down.
  replace (lo - 1) with (hi - Z.of_nat (Z.to_nat (hi - lo + 1))) by lia.
  apply for_down_ind; [exact H0|]. intros k s' Hk. apply Hstep. lia.
Qed.

Lemma for_range_empty body lo hi s : hi <= lo -> for_range lo hi body s = s.
Proof.
  intros H. unfold for_range. now replace (Z.to_nat (hi - lo)) with O by lia.
Qed.

Lemma for_range_down_empty body hi lo s :
  hi < lo -> for_range_down hi lo body s = s.
Proof.
  intros H. unfold for_range_down.
  now replace (Z.to_nat (hi - lo + 1)) with O by lia.
Qed.

(** A downward loop splits at any row [mid]: first [hi .. mid+1], then
    [mid .. lo]. *)
Lemma for_down_app body n m : forall i s,
  for_down (n + m) i body s = for_down m (i - Z.of_nat n) body (for_down n i body s).
Proof.
  induction n as [|n IH]; intros i s.
  - simpl. now replace (i - 0) with i by lia.
  - cbn [Nat.add for_down]. rewrite IH. f_equal. lia.
Qed.

Lemma for_range_down_split body hi mid lo s :
  lo - 1 <= mid <= hi ->
  for_range_down hi lo body s =
  for_range_down mid lo body (for_range_down hi (mid + 1) body s).
Proof.
  intros H. unfold for_range_down.
  replace (Z.to_nat (hi - lo + 1))
    with (Z.to_nat (hi - (mid + 1) + 1) + Z.to_nat (mid - lo + 1))%nat by lia.
  rewrite for_down_app. f_equal. lia.
Qed.

Lemma for_range_down_one body k s : for_range_down k k body s = body k s.
Proof.
  unfold for_range_down. now replace (Z.to_nat (k - k + 1)) with 1%nat by lia.
Qed.

End Loops.

Section Vectors.

Context {A : Type}.
Implicit Types (v : list A) (x d : A).

Lemma length_upd v : forall n x, length (upd v n x) = length v.
Proof. induction v as [|y v IH]; intros [|n] x; simpl; auto. Qed.

Lemma nth_upd_same d v : forall n x,
  (n < length v)%nat -> nth n (upd v n x) d = x.
Proof.
  induction v as [|y v IH]; intros [|n] x H; simpl in *; try lia; auto.
  apply IH. lia.
Qed.

Lemma nth_upd_other d v : forall n m x,
  n <> m -> nth m (upd v n x) d = nth m v d.
Proof.
  induction v as [|y v IH]; intros [|n] [|m] x H; simpl; auto; try congruence.
Qed.

Lemma vat_Some v i :
  0 <= i < Z.of_nat (length v) -> exists x, vat v i = Some x.
Proof.
  intros H. unfold vat. destruct (Z.ltb_spec i 0); [lia|].
  destruct (nth_error v (Z.to_nat i)) eqn:E; [eauto|].
  apply nth_error_None in E. lia.
Qed.

Lemma vget_nth d v i : 0 <= i -> vget d v i = nth (Z.to_nat i) v d.
Proof.
  intros H. unfold vget, vat. destruct (Z.ltb_spec i 0); [lia|].
  destruct (nth_error v (Z.to_nat i)) eqn:E.
  - symmetry. now apply nth_error_nth.
  - apply nth_error_None in E. symmetry. now apply nth_overflow.
Qed.

Lemma vget_outside d v i :
  i < 0 \/ Z.of_nat (length v) <= i -> vget d v i = d.
Proof.
  intros H. unfold vget, vat. destruct (Z.ltb_spec i 0); [reflexivity|].
  destruct (nth_error v (Z.to_nat i)) eqn:E; [|reflexivity].
  assert (nth_error v (Z.to_nat i) <> None) as Hn by congruence.
  apply nth_error_Some in Hn. lia.
Qed.

Lemma vset_Some v i x :
  0 <= i < Z.of_nat (length v) -> vset v i x = Some (upd v (Z.to_nat i) x).
Proof.
  intros H. unfold vset.
  destruct (Z.leb_spec 0 i); [|lia]. destruct (Z.ltb_spec i (Z.of_nat (length v))); [|lia].
  reflexivity.
Qed.

Lemma vset_length v i x v' : vset v i x = Some v' -> length v' = length v.
Proof.
  unfold vset. destruct (_ && _); [|discriminate].
  intros [= <-]. apply length_upd.
Qed.

Lemma vput_length v i x : length (vput v i x) = length v.
Proof.
  unfold vput. destruct (vset v i x) eqn:E; [|reflexivity].
  now apply vset_length in E.
Qed.

Lemma vget_vput_same d v i x :
  0 <= i < Z.of_nat (length v) -> vget d (vput v i x) i = x.
Proof.
  intros H. unfold vput. rewrite vset_Some by exact H.
  rewrite vget_nth by lia. apply nth_upd_same. lia.
Qed.

Lemma vget_vput_other d v i j x : i <> j -> vget d (vput v i x) j = vget d v j.
Proof.
  intros H. unfold vput, vset.
  destruct (_ && _) eqn:E; [|reflexivity].
  apply andb_prop in E as [E1 E2]. apply Z.leb_le in E1.
  destruct (Z.ltb_spec j 0) as [Hj|Hj].
  - rewrite !vget_outside by (left; lia). reflexivity.
  - rewrite !vget_nth by lia. apply nth_upd_other. lia.
Qed.

End Vectors.

(** ** Pieces *)

(** The pieces the program builds: a constructed piece turned right [n]
    times.  Every well-formed piece is one of these, with [n < 4]. *)
Definition canon (kind : PieceKind) (n : nat) : Piece.t :=
  Nat.iter n (Piece.rotate Rotation.kRight) (Piece.Piece kind).

Lemma rotate_canon (rotation : Rotation.t) (kind : PieceKind) (n : nat) :
  (n < 4)%nat ->
  exists n', (n' < 4)%nat /\ Piece.rotate rotation (canon kind n) = canon kind n'.
Proof.
  intros Hn.
  exists (match rotation with
          | Rotation.kRight => (n + 1) mod 4
          | Rotation.kLeft => (n + 3) mod 4
          end)%nat.
  split; [destruct rotation; apply Nat.mod_upper_bound; discriminate|].
  destruct n as [|[|[|[|n]]]]; [| | | |lia];
    destruct kind, rotation; vm_compute; reflexivity.
Qed.

Lemma wf_canon (p : Piece.t) :
  Piece.wf p -> exists kind n, (n < 4)%nat /\ p = canon kind n.
Proof.
  induction 1 as [kind|rotation p _ (kind & n & Hn & ->)].
  - exists kind, O. split; [lia|reflexivity].
  - destruct (rotate_canon rotation kind n Hn) as (n' & Hn' & E).
    exists kind, n'. now split.
Qed.

Lemma canon_kind (kind : PieceKind) (n : nat) :
  (n < 4)%nat -> Piece.kind_ (canon kind n) = kind.
Proof.
  intros Hn. destruct n as [|[|[|[|n]]]]; [| | | |lia]; destruct kind; reflexivity.
Qed.

(** Rotating never changes the kind. *)
Lemma rotate_kind (rotation : Rotation.t) (p : Piece.t) :
  Piece.kind_ (Piece.rotate rotation p) = Piece.kind_ p.
Proof.
  unfold Piece.rotate. destruct (PieceKind_eqb _ _); [reflexivity|].
  destruct rotation; reflexivity.
Qed.

(** The index of a bounding-box cell in [shape_], and whether it holds a
    tile. *)
Definition occupied (p : Piece.t) (pieceRow pieceCol : Z) : bool :=
  negb (TileColor_eqb
          (vget kEmpty (Piece.shape_ p) (pieceRow * Piece.bBoxSide_ p + pieceCol))
          kEmpty).

Definition has_cell (p : Piece.t) : Prop :=
  exists pieceRow pieceCol,
    0 <= pieceRow < Piece.bBoxSide_ p /\ 0 <= pieceCol < Piece.bBoxSide_ p /\
    occupied p pieceRow pieceCol = true.

Definition zrange (n : Z) : list Z := map Z.of_nat (seq 0 (Z.to_nat n)).

Lemma in_zrange (n k : Z) : In k (zrange n) <-> 0 <= k < n.
Proof.
  unfold zrange. rewrite in_map_iff. split.
  - intros (i & <- & Hi). apply in_seq in Hi. lia.
  - intros H. exists (Z.to_nat k). split; [lia|]. apply in_seq. lia.
Qed.

Definition has_cell_b (p : Piece.t) : bool :=
  existsb (fun pieceRow => existsb (occupied p pieceRow) (zrange (Piece.bBoxSide_ p)))
          (zrange (Piece.bBoxSide_ p)).

Lemma has_cell_b_sound (p : Piece.t) : has_cell_b p = true -> has_cell p.
Proof.
  unfold has_cell_b. intros H.
  apply existsb_exists in H as (pr & Hpr & H).
  apply existsb_exists in H as (pc & Hpc & H).
  exists pr, pc. now rewrite <- !in_zrange.
Qed.

(** Every well-formed piece other than the none piece has a tile. *)
Lemma wf_has_cell (p : Piece.t) :
  Piece.wf p -> Piece.kind_ p <> kNone -> has_cell p.
Proof.
  intros Hwf Hk. destruct (wf_canon p Hwf) as (kind & n & Hn & ->).
  rewrite canon_kind in Hk by exact Hn.
  apply has_cell_b_sound.
  destruct n as [|[|[|[|n]]]]; [| | | |lia]; destruct kind; try congruence; reflexivity.
Qed.

(** [Piece::kicks] reads inside its table for every well-formed piece that
    [Board::rotate] asks about. *)
Lemma kicks_defined (rotation : Rotation.t) (p : Piece.t) :
  Piece.wf p -> Piece.kind_ p <> kPieceO -> Piece.kind_ p <> kNone ->
  exists l,
    vat (match rotation with
         | Rotation.kRight => Piece.kicksRight_ p
         | Rotation.kLeft => Piece.kicksLeft_ p
         end) (Piece.state_ p) = Some l /\
    Piece.kicks rotation p = l /\ hd_error l = Some (0, 0).
Proof.
  intros Hwf HO HN. destruct (wf_canon p Hwf) as (kind & n & Hn & ->).
  rewrite canon_kind in HO, HN by exact Hn.
  destruct n as [|[|[|[|n]]]]; [| | | |lia];
    destruct kind; try congruence; destruct rotation;
    eexists; vm_compute; repeat split.
Qed.

(** *** Four right rotations *)

(** C9.  For every piece kind other than O and the none sentinel, applying
    [Piece::rotate(kRight)] four times in succession to the freshly
    constructed piece (rotation state 0) gives back the very same piece: the
    shape is the original one cell for cell and the rotation state is 0 again
    (no other member changes). *)
Theorem rotate_right_four_times (kind : PieceKind) :
  kind <> kPieceO -> kind <> kNone ->
  let p := Piece.Piece kind in
  let p4 := Piece.rotate Rotation.kRight (Piece.rotate Rotation.kRight
              (Piece.rotate Rotation.kRight (Piece.rotate Rotation.kRight p))) in
  Piece.state_ p = 0 /\
  Piece.shape_ p4 = Piece.shape_ p /\
  Piece.state_ p4 = 0 /\
  p4 = p.
Proof.
  intros HO HN. destruct kind; try congruence; vm_compute; repeat split.
Qed.

Lemma rotate_right_four_times_witness :
  Piece.shape_ (Piece.rotate Rotation.kRight (Piece.rotate Rotation.kRight
     (Piece.rotate Rotation.kRight (Piece.rotate Rotation.kRight (Piece.Piece kPieceT)))))
  = Piece.shape_ (Piece.Piece kPieceT).
Proof.
  exact (proj1 (proj2 (rotate_right_four_times kPieceT
           ltac:(discriminate) ltac:(discriminate)))).
Defined.

(** ** Board: collision test *)

Section Collision.

Import Board.

Implicit Types (b : Board.t) (p : Piece.t).

(** A cell of the piece's bounding box, translated to [(row, col)], hits a
    filled tile. *)
Definition hits b (row col : Z) p (pieceRow pieceCol : Z) : Prop :=
  occupied p pieceRow pieceCol = true /\
  isTileFilled b (row + pieceRow) (col + pieceCol) = true.

(** [isPositionPossible] holds exactly when the piece is not the none piece
    and no cell of its bounding box hits a filled tile: the running [index]
    of the source is [pieceRow * bBoxSide + pieceCol]. *)
Lemma isPositionPossible_spec b row col p :
  isPositionPossible b row col p = true <->
  Piece.kind_ p <> kNone /\
  forall pieceRow pieceCol,
    0 <= pieceRow < Piece.bBoxSide_ p -> 0 <= pieceCol < Piece.bBoxSide_ p ->
    ~ hits b row col p pieceRow pieceCol.
Proof.
  unfold isPositionPossible.
  destruct (PieceKind_eqb (Piece.kind_ p) kNone) eqn:Ek.
  { apply PieceKind_eqb_eq in Ek. split; [discriminate|]. intros [H _]. congruence. }
  apply PieceKind_eqb_neq in Ek.
  set (side := Piece.bBoxSide_ p).
  destruct (Z.le_gt_cases side 0) as [Hs|Hs].
  { rewrite for_range_empty by lia. simpl. split; [|reflexivity].
    intros _. split; [exact Ek|]. intros; lia. }
  match goal with |- snd (for_range 0 side ?f ?s0) = true <-> _ => set (outer := f) end.
  assert (let r := for_range 0 side outer (0, true) in
          fst r = side * side /\
          (snd r = true <->
           forall pr pc, 0 <= pr < side -> 0 <= pc < side -> ~ hits b row col p pr pc))
    as [_ H].
  { apply (for_range_ind (fun k (st : Z * bool) =>
       fst st = k * side /\
       (snd st = true <->
        forall pr pc, 0 <= pr < k -> 0 <= pc < side -> ~ hits b row col p pr pc)));
      [lia | simpl; split; [lia | split; [intros; lia | reflexivity]] |].
    intros k [index possible] Hk [Hi Hp]. simpl in Hi, Hp. subst index.
    unfold outer.
    match goal with |- context [for_range 0 side ?f ?s0] => set (inner := f) end.
    assert (let r := for_range 0 side inner (k * side, possible) in
            fst r = k * side + side /\
            (snd r = true <->
             (forall pr pc, 0 <= pr < k -> 0 <= pc < side -> ~ hits b row col p pr pc) /\
             (forall pc, 0 <= pc < side -> ~ hits b row col p k pc)))
      as [Hin1 Hin2].
    { apply (for_range_ind (fun c (st : Z * bool) =>
         fst st = k * side + c /\
         (snd st = true <->
          (forall pr pc, 0 <= pr < k -> 0 <= pc < side -> ~ hits b row col p pr pc) /\
          (forall pc, 0 <= pc < c -> ~ hits b row col p k pc)))); [lia | |].
      - simpl. split; [lia|]. rewrite Hp.
        split; [intros H; split; [exact H | intros; lia] | tauto].
      - intros c [index possible'] Hc [Hi Hp']. simpl in Hi, Hp'. subst index.
        unfold inner. simpl. split; [lia|].
        rewrite andb_true_iff, Hp', negb_true_iff, andb_false_iff.
        split.
        + intros [[H1 H2] H3]. split; [exact H1|].
          intros pc Hpc [Ho Hf].
          destruct (Z.eq_dec pc c) as [->|]; [|apply (H2 pc); [lia | now split]].
          unfold occupied in Ho. fold side in Ho. destruct H3; congruence.
        + intros [H1 H2]. split; [split; [exact H1 | intros; apply H2; lia]|].
          destruct (negb _) eqn:Eo; [|now left]. right.
          destruct (isTileFilled _ _ _) eqn:Ef; [|reflexivity].
          exfalso. apply (H2 c); [lia|]. split; [|exact Ef].
          unfold occupied. fold side. exact Eo. }
    split; [rewrite Hin1; lia|].
    rewrite Hin2. split.
    + intros [H1 H2] pr pc Hpr Hpc.
      destruct (Z.eq_dec pr k) as [->|]; [apply H2; lia | apply H1; lia].
    + intros H. split; intros; apply H; lia. }
  rewrite H. tauto.
Qed.

Lemma isPositionPossible_kind b row col p :
  isPositionPossible b row col p = true -> Piece.kind_ p <> kNone.
Proof. intros H. now apply isPositionPossible_spec in H. Qed.

(** The collision test reads the dimensions and the grid only. *)
Lemma isTileFilled_ext b b' row col :
  nRows b' = nRows b -> nCols b' = nCols b -> tiles_ b' = tiles_ b ->
  isTileFilled b' row col = isTileFilled b row col.
Proof.
  intros Hr Hc Ht. unfold isTileFilled, tileAt, cell. now rewrite Hr, Hc, Ht.
Qed.

Lemma isPositionPossible_ext b b' row col p :
  nRows b' = nRows b -> nCols b' = nCols b -> tiles_ b' = tiles_ b ->
  isPositionPossible b' row col p = isPositionPossible b row col p.
Proof.
  intros Hr Hc Ht.
  destruct (isPositionPossible b row col p) eqn:E.
  - apply isPositionPossible_spec in E as [Hk H]. apply isPositionPossible_spec.
    split; [exact Hk|]. intros pr pc Hpr Hpc [Ho Hf]. apply (H pr pc Hpr Hpc).
    split; [exact Ho|]. now rewrite <- (isTileFilled_ext b b').
  - destruct (isPositionPossible b' row col p) eqn:E'; [|reflexivity].
    apply isPositionPossible_spec in E' as [Hk H].
    rewrite <- E. symmetry. apply isPositionPossible_spec.
    split; [exact Hk|]. intros pr pc Hpr Hpc [Ho Hf]. apply (H pr pc Hpr Hpc).
    split; [exact Ho|]. now rewrite (isTileFilled_ext b b').
Qed.

(** A position is impossible once a tile of the piece would be below the
    floor. *)
Lemma isPositionPossible_above_floor b row col p :
  has_cell p -> isPositionPossible b row col p = true -> row < nRows b.
Proof.
  intros (pr & pc & Hpr & Hpc & Ho) H.
  apply isPositionPossible_spec in H as [_ H].
  destruct (Z.lt_ge_cases row (nRows b)) as [|Hge]; [assumption|].
  exfalso. apply (H pr pc Hpr Hpc). split; [exact Ho|].
  unfold isTileFilled.
  replace (row + pr >=? nRows b) with true by (symmetry; apply Z.geb_le; lia).
  now rewrite !orb_true_r.
Qed.

End Collision.

(** ** Board: the ghost row and the moves of a piece in play *)

Section Play.

Import Board.

Implicit Types (b : Board.t) (p : Piece.t).

(** The piece of [b], moved to row [r] on its current column, collides with
    nothing. *)
Definition valid b (r : Z) : bool := isPositionPossible b r (col_ b) (piece_ b).

(** [g] is where the piece lands when it is translated straight down from
    its anchor row: every row on the way is collision-free and the next one
    is not. *)
Definition landing b (g : Z) : Prop :=
  row_ b <= g /\
  (forall r, row_ b <= r <= g -> valid b r = true) /\
  valid b (g + 1) = false.

Lemma landing_unique b g g' : landing b g -> landing b g' -> g = g'.
Proof.
  intros (H1 & H2 & H3) (H1' & H2' & H3').
  destruct (Z.lt_trichotomy g g') as [Hlt|[Heq|Hgt]]; [|exact Heq|].
  - rewrite (H2' (g + 1)) in H3 by lia. discriminate.
  - rewrite (H2 (g' + 1)) in H3' by lia. discriminate.
Qed.

Lemma ghost_loop_valid b fuel : forall g r,
  g < r <= ghost_loop fuel b g -> valid b r = true.
Proof.
  induction fuel as [|fuel IH]; intros g r Hr; simpl in Hr; [lia|].
  destruct (isPositionPossible b (g + 1) (col_ b) (piece_ b)) eqn:E; [|lia].
  destruct (Z.eq_dec r (g + 1)) as [->|]; [exact E|].
  apply (IH (g + 1)). lia.
Qed.

Lemma ghost_loop_ge b fuel : forall g, g <= ghost_loop fuel b g.
Proof.
  induction fuel as [|fuel IH]; intros g; simpl; [lia|].
  destruct (isPositionPossible _ _ _ _); [|lia].
  specialize (IH (g + 1)). lia.
Qed.

(** With [nRows - g] units of fuel the loop always ends on its own test: the
    bound of the model is never reached. *)
Lemma ghost_loop_stops b fuel : forall g,
  has_cell (piece_ b) -> nRows b - g - 1 <= Z.of_nat fuel ->
  valid b (ghost_loop fuel b g + 1) = false.
Proof.
  induction fuel as [|fuel IH]; intros g Hc Hf; simpl.
  - destruct (valid b (g + 1)) eqn:E; [|reflexivity].
    apply isPositionPossible_above_floor in E; [lia | exact Hc].
  - destruct (isPositionPossible b (g + 1) (col_ b) (piece_ b)) eqn:E; [|exact E].
    apply IH; [exact Hc | lia].
Qed.

Lemma updateGhostRow_landing b :
  has_cell (piece_ b) -> valid b (row_ b) = true ->
  landing (updateGhostRow b) (ghostRow_ (updateGhostRow b)).
Proof.
  intros Hc Hv. unfold landing, valid, updateGhostRow. simpl.
  rewrite !(isPositionPossible_ext b (set_ghostRow _ b)) by reflexivity.
  split; [apply ghost_loop_ge|]. split.
  - intros r Hr. rewrite (isPositionPossible_ext b (set_ghostRow _ b)) by reflexivity.
    destruct (Z.eq_dec r (row_ b)) as [->|]; [exact Hv|].
    apply ghost_loop_valid with (fuel := Z.to_nat (nRows b - row_ b)) (g := row_ b). lia.
  - apply ghost_loop_stops; [exact Hc | lia].
Qed.

(** The slide-down loop of [spawnPiece] moves between possible positions. *)
Lemma slide_down_valid b (maxMoveDown : Z) :
  0 <= maxMoveDown ->
  isPositionPossible b (row_ b) (col_ b) (piece_ b) = true ->
  isPositionPossible b
    (fst (for_range (S := Z * bool) 0 maxMoveDown (fun _ '(row, stopped) =>
            if stopped then (row, true)
            else if negb (isPositionPossible b (row + 1) (col_ b) (piece_ b))
                 then (row, true)
                 else (row + 1, false))
            (row_ b, false)))
    (col_ b) (piece_ b) = true.
Proof.
  intros Hm E.
  apply (for_range_ind (fun _ (st : Z * bool) =>
     isPositionPossible b (fst st) (col_ b) (piece_ b) = true)); [exact Hm | exact E |].
  intros k [row stopped] _ H. simpl in H.
  destruct stopped; [exact H|].
  destruct (isPositionPossible b (row + 1) (col_ b) (piece_ b)) eqn:E1; simpl; assumption.
Qed.

(** What a successful [spawnPiece] leaves: the new piece on the centred
    column, at a row from which the ghost row has been computed. *)
Lemma spawnPiece_true kind b b' :
  spawnPiece kind b = (true, b') ->
  exists row,
    let b0 := set_col (Z.quot (nCols b - Piece.bBoxSide_ (Piece.Piece kind)) 2)
                (set_row (-2) (set_piece (Piece.Piece kind) b)) in
    b' = updateGhostRow (set_row row b0) /\ valid (set_row row b0) row = true.
Proof.
  unfold spawnPiece. cbn zeta.
  set (b0 := set_col _ (set_row (-2) (set_piece (Piece.Piece kind) b))).
  destruct (isPositionPossible b0 (row_ b0) (col_ b0) (piece_ b0)) eqn:E; simpl negb; cbv iota;
    [|discriminate].
  pose proof (slide_down_valid b0 (if PieceKind_eqb kind kPieceI then 1 else 2)
                ltac:(destruct (PieceKind_eqb kind kPieceI); lia) E) as Hrow.
  destruct (for_range 0 _ _ _) as [row stopped]. cbn [fst] in Hrow.
  intros [= <-]. exists row. split; [reflexivity|].
  unfold valid. now rewrite (isPositionPossible_ext b0) by reflexivity.
Qed.

(** What a failed [spawnPiece] leaves: the rejected piece at the start
    position, in collision, and nothing else touched. *)
Lemma spawnPiece_false kind b b' :
  spawnPiece kind b = (false, b') ->
  b' = set_col (Z.quot (nCols b - Piece.bBoxSide_ (Piece.Piece kind)) 2)
         (set_row (-2) (set_piece (Piece.Piece kind) b)) /\
  isPositionPossible b' (row_ b') (col_ b') (piece_ b') = false.
Proof.
  unfold spawnPiece. cbn zeta.
  set (b0 := set_col _ (set_row (-2) (set_piece (Piece.Piece kind) b))).
  destruct (isPositionPossible b0 (row_ b0) (col_ b0) (piece_ b0)) eqn:E; simpl negb; cbv iota.
  - destruct (for_range 0 _ _ _). discriminate.
  - intros [= <-]. now split.
Qed.

(** [try_kicks] either applies one kick of the list, landing on a possible
    position, or leaves the board alone. *)
Lemma try_kicks_spec testPiece kicks b :
  (exists dRow dCol,
     In (dRow, dCol) kicks /\
     isPositionPossible b (row_ b + dRow) (col_ b + dCol) testPiece = true /\
     try_kicks testPiece kicks b =
       (true, updateGhostRow (set_col (col_ b + dCol)
                (set_row (row_ b + dRow) (set_piece testPiece b))))) \/
  try_kicks testPiece kicks b = (false, b).
Proof.
  induction kicks as [|[dRow dCol] rest IH]; simpl; [now right|].
  destruct (isPositionPossible b (row_ b + dRow) (col_ b + dCol) testPiece) eqn:E.
  - left. exists dRow, dCol. auto.
  - destruct IH as [(r & c & Hin & Hv & Ht)|Ht]; [left | now right].
    exists r, c. auto.
Qed.

(** The states of a piece in play: a successful spawn on any grid, followed
    by horizontal moves, vertical moves by an amount that [vertical] admits,
    rotations and hard drops. *)
Inductive in_play (vertical : Z -> Prop) : Board.t -> Prop :=
| play_spawn kind b b' :
    spawnPiece kind b = (true, b') -> in_play vertical b'
| play_moveHorizontal dCol b :
    in_play vertical b -> in_play vertical (snd (moveHorizontal dCol b))
| play_moveVertical dRow b :
    vertical dRow -> in_play vertical b -> in_play vertical (snd (moveVertical dRow b))
| play_rotate rotation b :
    in_play vertical b -> in_play vertical (snd (rotate rotation b))
| play_hardDrop b :
    in_play vertical b -> in_play vertical (snd (hardDrop b)).

(** The states the public operations of [Board] reach from a constructed
    board, with any arguments and in any order. *)
Inductive reachable : Board.t -> Prop :=
| reachable_new nRows nCols : reachable (Board nRows nCols)
| reachable_spawnPiece kind b : reachable b -> reachable (snd (spawnPiece kind b))
| reachable_moveHorizontal dCol b : reachable b -> reachable (snd (moveHorizontal dCol b))
| reachable_moveVertical dRow b : reachable b -> reachable (snd (moveVertical dRow b))
| reachable_rotate rotation b : reachable b -> reachable (snd (rotate rotation b))
| reachable_hardDrop b : reachable b -> reachable (snd (hardDrop b))
| reachable_frozePiece b r b' : reachable b -> frozePiece b = Some (r, b') -> reachable b'
| reachable_clearLines b : reachable b -> reachable (clearLines b).

(** The piece of a board in play is well formed. *)
Lemma in_play_wf vertical b : in_play vertical b -> Piece.wf (piece_ b).
Proof.
  induction 1 as [kind b b' Hs|dCol b _ IH|dRow b _ _ IH|rotation b _ IH|b _ IH].
  - apply spawnPiece_true in Hs as (row & -> & _). simpl. constructor.
  - unfold moveHorizontal. destruct (isPositionPossible _ _ _ _); exact IH.
  - unfold moveVertical. destruct (isPositionPossible _ _ _ _); exact IH.
  - unfold rotate. destruct (_ || _); [exact IH|].
    destruct (try_kicks_spec (Piece.rotate rotation (piece_ b))
                (Piece.kicks rotation (piece_ b)) b) as [(r & c & _ & _ & ->)| ->].
    + simpl. now constructor.
    + exact IH.
  - exact IH.
Qed.

(** The anchor and the ghost row of a piece in play are collision-free. *)
Lemma in_play_valid vertical b :
  in_play vertical b -> valid b (row_ b) = true /\ valid b (ghostRow_ b) = true.
Proof.
  intros Hplay. pose proof (in_play_wf _ _ Hplay) as Hwf. revert Hwf.
  assert (Hupd : forall b0, Piece.wf (piece_ b0) -> valid b0 (row_ b0) = true ->
            valid (updateGhostRow b0) (row_ (updateGhostRow b0)) = true /\
            valid (updateGhostRow b0) (ghostRow_ (updateGhostRow b0)) = true).
  { intros b0 Hwf Hv.
    assert (Hc : has_cell (piece_ b0))
      by (apply wf_has_cell; [exact Hwf | now apply isPositionPossible_kind in Hv]).
    destruct (updateGhostRow_landing b0 Hc Hv) as (H1 & H2 & _).
    split; apply H2; simpl in *; lia. }
  induction Hplay as [kind b b' Hs|dCol b _ IH|dRow b _ _ IH|rotation b _ IH|b _ IH].
  - apply spawnPiece_true in Hs as (row & -> & Hv). intros Hwf. apply Hupd; assumption.
  - unfold moveHorizontal.
    destruct (isPositionPossible b (row_ b) (col_ b + dCol) (piece_ b)) eqn:E;
      simpl; [|exact IH].
    intros Hwf. apply Hupd; [exact Hwf|].
    unfold valid. simpl. now rewrite (isPositionPossible_ext b) by reflexivity.
  - unfold moveVertical.
    destruct (isPositionPossible b (row_ b + dRow) (col_ b) (piece_ b)) eqn:E;
      simpl; [|exact IH].
    intros Hwf. destruct (IH Hwf) as [_ Hg]. unfold valid in *. simpl.
    rewrite !(isPositionPossible_ext b (set_row _ b)) by reflexivity. now split.
  - unfold rotate. destruct (_ || _); [exact IH|].
    destruct (try_kicks_spec (Piece.rotate rotation (piece_ b))
                (Piece.kicks rotation (piece_ b)) b) as [(r & c & _ & Hv & ->)| ->];
      simpl; [|exact IH].
    intros Hwf. apply Hupd; [exact Hwf|].
    unfold valid. simpl. now rewrite (isPositionPossible_ext b) by reflexivity.
  - simpl. intros Hwf. destruct (IH Hwf) as [_ Hg]. unfold valid in *. simpl.
    rewrite (isPositionPossible_ext b (set_row _ b)) by reflexivity. now split.
Qed.

End Play.

(** *** The anchor of the active piece *)

(** A board of the game's size on which the start position of the I piece
    is taken: an I piece is spawned, lifted back to the start row and frozen
    there, in the hidden row -1, and a second I piece is spawned. *)
Definition blocked_spawn_board : Board.t :=
  let b := snd (Board.spawnPiece kPieceI (Board.Board 20 10)) in
  let b := snd (Board.moveVertical (-1) b) in
  match Board.frozePiece b with
  | Some (_, b') => snd (Board.spawnPiece kPieceI b')
  | None => b
  end.

(** C1, refuted as stated.  [blocked_spawn_board] is reached through
    [spawnPiece], [moveVertical], [frozePiece] and [spawnPiece]; its last
    [spawnPiece] returned [false], the active piece is the I piece (not the
    none sentinel), its anchor is (-2, 3), and [isPositionPossible] does not
    hold there. *)
Lemma failed_spawn_anchor_invalid :
  reachable blocked_spawn_board /\
  Piece.kind_ (Board.piece_ blocked_spawn_board) = kPieceI /\
  (Board.row_ blocked_spawn_board, Board.col_ blocked_spawn_board) = (-2, 3) /\
  Board.isPositionPossible blocked_spawn_board
    (Board.row_ blocked_spawn_board) (Board.col_ blocked_spawn_board)
    (Board.piece_ blocked_spawn_board) = false.
Proof.
  split; [|vm_compute; auto].
  assert (forall b, reachable b ->
            reachable (match Board.frozePiece b with
                       | Some (_, b') => snd (Board.spawnPiece kPieceI b')
                       | None => b
                       end)) as H.
  { intros b Hb. destruct (Board.frozePiece b) as [[r b']|] eqn:E; [|exact Hb].
    apply reachable_spawnPiece. eapply reachable_frozePiece; [exact Hb | exact E]. }
  apply H.
  apply reachable_moveVertical, reachable_spawnPiece, reachable_new.
Qed.

(** C1, amended.  For every [Board] state reached from a successful
    [spawnPiece] (on any grid) through [moveHorizontal], [moveVertical],
    [rotate] and [hardDrop], with any arguments, an active piece exists and
    its current anchor position is collision-valid:
    [isPositionPossible(row_, col_, piece_)] holds. *)
Theorem anchor_valid_in_play (b : Board.t) :
  in_play (fun _ => True) b ->
  Piece.kind_ (Board.piece_ b) <> kNone /\
  Board.isPositionPossible b (Board.row_ b) (Board.col_ b) (Board.piece_ b) = true.
Proof.
  intros H. destruct (in_play_valid _ _ H) as [Hv _]. split; [|exact Hv].
  now apply isPositionPossible_kind in Hv.
Qed.

Lemma anchor_valid_in_play_witness :
  let b := snd (Board.rotate Rotation.kRight
             (snd (Board.moveVertical 3
                (snd (Board.moveHorizontal (-2)
                   (snd (Board.spawnPiece kPieceT (Board.Board 20 10)))))))) in
  Board.isPositionPossible b (Board.row_ b) (Board.col_ b) (Board.piece_ b) = true.
Proof.
  apply anchor_valid_in_play.
  apply play_rotate, play_moveVertical; [exact I|].
  apply play_moveHorizontal.
  apply play_spawn with (kind := kPieceT) (b := Board.Board 20 10).
  vm_compute. reflexivity.
Defined.

(** *** The ghost row *)

(** An O piece hangs over a cavity: an O piece is dropped on columns 4-5, an
    I piece is dropped on columns 1-4 and comes to rest on it in row 17, and
    a second O piece is spawned and moved to columns 2-3.  Translated
    straight down it stops on the I piece, at anchor row 15; the cavity
    under the I piece would hold it at anchor row 18. *)
Definition place (kind : PieceKind) (dCol : Z) (b : Board.t) : Board.t :=
  let b := snd (Board.spawnPiece kind b) in
  let b := snd (Board.moveHorizontal dCol b) in
  let b := snd (Board.hardDrop b) in
  match Board.frozePiece b with
  | Some (_, b') => b'
  | None => b
  end.

Definition overhang_board : Board.t :=
  let b := place kPieceO 0 (Board.Board 20 10) in
  let b := place kPieceI (-2) b in
  snd (Board.moveHorizontal (-2) (snd (Board.spawnPiece kPieceO b))).

Lemma reachable_place kind dCol b : reachable b -> reachable (place kind dCol b).
Proof.
  intros H. unfold place.
  assert (reachable (snd (Board.hardDrop (snd (Board.moveHorizontal dCol
            (snd (Board.spawnPiece kind b))))))) as H'
    by now apply reachable_hardDrop, reachable_moveHorizontal, reachable_spawnPiece.
  destruct (Board.frozePiece _) as [[r b']|] eqn:E; [|exact H'].
  eapply reachable_frozePiece; [exact H' | exact E].
Qed.

(** C7, refuted as stated.  On [overhang_board], a state of a piece in play
    that the public operations reach, the ghost row is 15, while row 18 is
    at or below the anchor row 0, is collision-valid and has a row 19 under
    it that is not: the ghost row is not the largest such row. *)
Lemma ghostRow_not_largest :
  reachable overhang_board /\
  in_play (fun dRow => dRow = 1) overhang_board /\
  Piece.kind_ (Board.piece_ overhang_board) = kPieceO /\
  Board.row_ overhang_board = 0 /\
  Board.ghostRow_ overhang_board = 15 /\
  valid overhang_board 18 = true /\
  valid overhang_board 19 = false.
Proof.
  split; [|split; [|vm_compute; auto 6]].
  - apply reachable_moveHorizontal, reachable_spawnPiece.
    apply reachable_place, reachable_place, reachable_new.
  - apply play_moveHorizontal.
    apply play_spawn with (kind := kPieceO)
      (b := place kPieceI (-2) (place kPieceO 0 (Board.Board 20 10))).
    vm_compute. reflexivity.
Qed.

(** C7, amended.  For every [Board] state reached from a successful
    [spawnPiece] through [moveHorizontal], [moveVertical] by at most one row,
    [rotate] and [hardDrop], [ghostRow_] is at or below the anchor row, every
    row from the anchor row down to [ghostRow_] is collision-valid on the
    current column and row [ghostRow_ + 1] is not: the ghost row is the
    deepest row reached by pure downward translation, the first row (not the
    largest one) under which the piece collides, and no other row is. *)
Theorem ghostRow_is_landing (b : Board.t) :
  in_play (fun dRow => -1 <= dRow <= 1) b ->
  Board.row_ b <= Board.ghostRow_ b /\
  (forall r, Board.row_ b <= r <= Board.ghostRow_ b ->
     Board.isPositionPossible b r (Board.col_ b) (Board.piece_ b) = true) /\
  Board.isPositionPossible b (Board.ghostRow_ b + 1) (Board.col_ b) (Board.piece_ b)
    = false /\
  (forall g, landing b g -> g = Board.ghostRow_ b).
Proof.
  intros Hplay.
  assert (landing b (Board.ghostRow_ b)) as Hl.
  { pose proof (in_play_wf _ _ Hplay) as Hwf. revert Hwf.
    assert (Hupd : forall b0, Piece.wf (Board.piece_ b0) ->
              valid b0 (Board.row_ b0) = true ->
              landing (Board.updateGhostRow b0)
                (Board.ghostRow_ (Board.updateGhostRow b0))).
    { intros b0 Hwf Hv. apply updateGhostRow_landing; [|exact Hv].
      apply wf_has_cell; [exact Hwf | now apply isPositionPossible_kind in Hv]. }
    induction Hplay as [kind b b' Hs|dCol b _ IH|dRow b Hd _ IH|rotation b _ IH|b _ IH].
    - apply spawnPiece_true in Hs as (row & -> & Hv). intros Hwf. now apply Hupd.
    - unfold Board.moveHorizontal.
      destruct (Board.isPositionPossible b (Board.row_ b) (Board.col_ b + dCol)
                  (Board.piece_ b)) eqn:E; simpl; [|exact IH].
      intros Hwf. apply Hupd; [exact Hwf|].
      unfold valid. simpl. now rewrite (isPositionPossible_ext b) by reflexivity.
    - unfold Board.moveVertical.
      destruct (Board.isPositionPossible b (Board.row_ b + dRow) (Board.col_ b)
                  (Board.piece_ b)) eqn:E; simpl; [|exact IH].
      intros Hwf. destruct (IH Hwf) as (H1 & H2 & H3).
      assert (forall r, valid (Board.set_row (Board.row_ b + dRow) b) r = valid b r)
        as Hsame by (intros r; unfold valid; simpl;
                     now rewrite (isPositionPossible_ext b) by reflexivity).
      assert (Board.row_ b + dRow <= Board.ghostRow_ b) as Hle.
      { destruct (Z.le_gt_cases (Board.row_ b + dRow) (Board.ghostRow_ b)); [assumption|].
        assert (Board.row_ b + dRow = Board.ghostRow_ b + 1) as Heq by lia.
        unfold valid in H3. rewrite <- Heq in H3. congruence. }
      unfold landing. simpl. rewrite !Hsame. split; [exact Hle|]. split; [|exact H3].
      intros r Hr. rewrite Hsame.
      destruct (Z.eq_dec r (Board.row_ b + dRow)) as [->|]; [exact E|].
      apply H2. lia.
    - unfold Board.rotate. destruct (_ || _); [exact IH|].
      destruct (try_kicks_spec (Piece.rotate rotation (Board.piece_ b))
                  (Piece.kicks rotation (Board.piece_ b)) b)
        as [(r & c & _ & Hv & ->)| ->]; simpl; [|exact IH].
      intros Hwf. apply Hupd; [exact Hwf|].
      unfold valid. simpl. now rewrite (isPositionPossible_ext b) by reflexivity.
    - simpl. intros Hwf. destruct (IH Hwf) as (H1 & H2 & H3).
      assert (forall r, valid (Board.set_row (Board.ghostRow_ b) b) r = valid b r)
        as Hsame by (intros r; unfold valid; simpl;
                     now rewrite (isPositionPossible_ext b) by reflexivity).
      unfold landing. simpl. rewrite !Hsame. split; [lia|]. split; [|exact H3].
      intros r Hr. rewrite Hsame. apply H2. lia. }
  destruct Hl as (H1 & H2 & H3). repeat split; try assumption.
  intros g Hg. apply (landing_unique b); [exact Hg | now repeat split].
Qed.

Lemma ghostRow_is_landing_witness :
  Board.row_ overhang_board <= Board.ghostRow_ overhang_board /\
  Board.isPositionPossible overhang_board (Board.ghostRow_ overhang_board + 1)
    (Board.col_ overhang_board) (Board.piece_ overhang_board) = false.
Proof.
  assert (in_play (fun dRow => -1 <= dRow <= 1) overhang_board) as H.
  { apply play_moveHorizontal.
    apply play_spawn with (kind := kPieceO)
      (b := place kPieceI (-2) (place kPieceO 0 (Board.Board 20 10))).
    vm_compute. reflexivity. }
  destruct (ghostRow_is_landing overhang_board H) as (H1 & _ & H3 & _).
  split; assumption.
Defined.

(** ** Board: full rows and their removal *)

Section Lines.

Import Board.

Variable b : Board.t.

(** The grid has [nRows + 2] rows of [nCols] tiles, as the constructor made
    it. *)
Hypothesis tiles_length :
  Z.of_nat (length (tiles_ b)) = (nRows b + kRowsAbove_) * nCols b.

Lemma cell_range (row col : Z) :
  - kRowsAbove_ <= row < nRows b -> 0 <= col < nCols b ->
  0 <= cell b row col < (nRows b + kRowsAbove_) * nCols b.
Proof. unfold cell, kRowsAbove_. intros Hr Hc. nia. Qed.

Lemma cell_inj (row col row' col' : Z) :
  0 <= col < nCols b -> 0 <= col' < nCols b ->
  cell b row col = cell b row' col' -> row = row' /\ col = col'.
Proof.
  unfold cell. intros Hc Hc' E.
  assert (row = row') as ->.
  { destruct (Z.lt_trichotomy row row') as [H|[H|H]]; [exfalso | exact H | exfalso].
    - assert (1 * nCols b <= (row' - row) * nCols b)
        by (apply Z.mul_le_mono_nonneg_r; lia). lia.
    - assert (1 * nCols b <= (row - row') * nCols b)
        by (apply Z.mul_le_mono_nonneg_r; lia). lia. }
  split; [reflexivity | lia].
Qed.

Lemma cell_shift (row col k : Z) :
  cell b row col + k * nCols b = cell b (row + k) col.
Proof. unfold cell. ring. Qed.

(** The guarded read of [isTileFilled] stays inside the grid. *)
Lemma tileAt_in_grid (row col : Z) :
  - kRowsAbove_ <= row < nRows b -> 0 <= col < nCols b ->
  exists c, vat (tiles_ b) (cell b row col) = Some c /\ tileAt b row col = c.
Proof.
  intros Hr Hc. destruct (vat_Some (tiles_ b) (cell b row col)) as [c E].
  { rewrite tiles_length. now apply cell_range. }
  exists c. split; [exact E|]. unfold tileAt, vget. now rewrite E.
Qed.

Lemma isTileFilled_in_grid (row col : Z) :
  - kRowsAbove_ <= row < nRows b -> 0 <= col < nCols b ->
  isTileFilled b row col = negb (TileColor_eqb (tileAt b row col) kEmpty).
Proof.
  intros Hr Hc. unfold isTileFilled.
  destruct (Z.ltb_spec col 0); [lia|]. destruct (Z.geb_spec col (nCols b)); [lia|].
  destruct (Z.ltb_spec row (- kRowsAbove_)); [lia|].
  destruct (Z.geb_spec row (nRows b)); [lia|]. reflexivity.
Qed.

(** A row is full when none of its tiles is empty. *)
Definition row_full (row : Z) : Prop :=
  forall col, 0 <= col < nCols b -> tileAt b row col <> kEmpty.

Lemma fullRow_spec (row : Z) :
  - kRowsAbove_ <= row < nRows b -> (fullRow b row = true <-> row_full row).
Proof.
  intros Hr. unfold fullRow, row_full.
  destruct (Z.le_gt_cases (nCols b) 0) as [Hn|Hn].
  { rewrite for_range_empty by lia. split; [intros _ col Hc; lia | reflexivity]. }
  apply (for_range_ind (fun k (full : bool) =>
     full = true <-> forall col, 0 <= col < k -> tileAt b row col <> kEmpty));
    [lia | split; [intros; lia | reflexivity] |].
  intros k full Hk IH. rewrite andb_true_iff, IH, isTileFilled_in_grid by lia.
  rewrite negb_true_iff, TileColor_eqb_neq. split.
  - intros [H1 H2] col Hc. destruct (Z.eq_dec col k) as [->|]; [exact H2 | apply H1; lia].
  - intros H. split; [intros col Hc|]; apply H; lia.
Qed.

(** The copy loop for the tiles of row [row], [k] rows down.  On entry
    [index] is the last cell of the row. *)
Lemma copy_row_spec (row k : Z) (after : list TileColor) :
  - kRowsAbove_ <= row -> 0 <= k -> row + k < nRows b ->
  length after = length (tiles_ b) ->
  exists after',
    copy_row b (k * nCols b) (after, cell b row (nCols b - 1)) =
      (after', cell b (row - 1) (nCols b - 1)) /\
    length after' = length (tiles_ b) /\
    forall r c, - kRowsAbove_ <= r < nRows b -> 0 <= c < nCols b ->
      vget kEmpty after' (cell b r c) =
      if r =? row + k then tileAt b row c else vget kEmpty after (cell b r c).
Proof.
  intros Hr Hk Hrk Hlen. unfold copy_row.
  destruct (Z.le_gt_cases (nCols b) 0) as [Hn|Hn].
  { rewrite for_range_empty by lia. exists after.
    split; [f_equal; unfold cell; nia|]. split; [exact Hlen|]. intros; lia. }
  match goal with |- context [for_range 0 (nCols b) ?f ?s0] =>
    assert (let st := for_range 0 (nCols b) f s0 in
            snd st = cell b row (nCols b - 1) - nCols b /\
            length (fst st) = length (tiles_ b) /\
            forall r c, - kRowsAbove_ <= r < nRows b -> 0 <= c < nCols b ->
              vget kEmpty (fst st) (cell b r c) =
              if (r =? row + k) && (nCols b - 1 - nCols b <? c) then tileAt b row c
              else vget kEmpty after (cell b r c)) as H
  end.
  { apply (for_range_ind (fun j (st : list TileColor * Z) =>
       snd st = cell b row (nCols b - 1) - j /\
       length (fst st) = length (tiles_ b) /\
       forall r c, - kRowsAbove_ <= r < nRows b -> 0 <= c < nCols b ->
         vget kEmpty (fst st) (cell b r c) =
         if (r =? row + k) && (nCols b - 1 - j <? c) then tileAt b row c
         else vget kEmpty after (cell b r c))); [lia | |].
    - simpl. split; [lia|]. split; [exact Hlen|]. intros r c Hr' Hc.
      destruct (Z.ltb_spec (nCols b - 1 - 0) c); [lia|]. now rewrite andb_false_r.
    - intros j [after_j index] Hj (Hi & Hl & Hv). simpl in Hi, Hl, Hv. subst index.
      simpl. rewrite vput_length. split; [lia|]. split; [exact Hl|].
      intros r c Hr' Hc.
      replace (cell b row (nCols b - 1) - j) with (cell b row (nCols b - 1 - j))
        by (unfold cell; ring).
      rewrite cell_shift. fold (tileAt b row (nCols b - 1 - j)).
      destruct (Z.eq_dec (cell b (row + k) (nCols b - 1 - j)) (cell b r c)) as [E|E].
      + apply cell_inj in E as [<- <-]; [|lia|lia].
        rewrite vget_vput_same
          by (rewrite <- (Nat2Z.inj_iff _ _) in Hl; rewrite Hl, tiles_length;
              apply cell_range; lia).
        rewrite Z.eqb_refl.
        destruct (Z.ltb_spec (nCols b - 1 - (j + 1)) (nCols b - 1 - j)); [reflexivity | lia].
      + rewrite vget_vput_other by exact E. rewrite Hv by assumption.
        destruct (Z.eqb_spec r (row + k)) as [->|]; [|reflexivity]. simpl.
        assert (c <> nCols b - 1 - j) by (intros ->; now apply E).
        destruct (Z.ltb_spec (nCols b - 1 - j) c), (Z.ltb_spec (nCols b - 1 - (j + 1)) c);
          try reflexivity; lia. }
  destruct (for_range 0 (nCols b) _ _) as [after' index'].
  destruct H as (Hi & Hl & Hv). simpl in Hi, Hl, Hv.
  exists after'. split; [f_equal; rewrite Hi; unfold cell; ring|].
  split; [exact Hl|]. intros r c Hr' Hc. rewrite Hv by assumption.
  destruct (Z.ltb_spec (nCols b - 1 - nCols b) c); [|lia]. now rewrite andb_true_r.
Qed.


(** One step of the sweep on a full row: the row is recorded and the rows
    above it will move one row further down. *)
Lemma sweep_row_full (row k : Z) (lines : list Z) (after : list TileColor) :
  fullRow b row = true ->
  sweep_row b row (lines, after, k, cell b row (nCols b - 1)) =
  (lines ++ [row], after, k + 1, cell b (row - 1) (nCols b - 1)).
Proof.
  intros H. unfold sweep_row. rewrite H. f_equal. unfold cell. ring.
Qed.

(** The sweep over rows [hi] down to [lo], none of them full, with [k] full
    rows found so far: each of these rows is copied [k] rows down. *)
Lemma sweep_block (hi lo k : Z) (lines : list Z) (after : list TileColor) :
  - kRowsAbove_ <= lo -> lo <= hi + 1 -> hi + k < nRows b -> 0 <= k ->
  length after = length (tiles_ b) ->
  (forall r, lo <= r <= hi -> ~ row_full r) ->
  exists after',
    for_range_down hi lo (sweep_row b) (lines, after, k, cell b hi (nCols b - 1)) =
      (lines, after', k, cell b (lo - 1) (nCols b - 1)) /\
    length after' = length (tiles_ b) /\
    forall r c, - kRowsAbove_ <= r < nRows b -> 0 <= c < nCols b ->
      vget kEmpty after' (cell b r c) =
      if (0 <? k) && (lo + k <=? r) && (r <=? hi + k) then tileAt b (r - k) c
      else vget kEmpty after (cell b r c).
Proof.
  intros Hlo Hle Hhi Hk Hlen Hnf.
  enough ((fun m (st : list Z * list TileColor * Z * Z) =>
     exists after',
       st = (lines, after', k, cell b m (nCols b - 1)) /\
       length after' = length (tiles_ b) /\
       forall r c, - kRowsAbove_ <= r < nRows b -> 0 <= c < nCols b ->
         vget kEmpty after' (cell b r c) =
         if (0 <? k) && (m + 1 + k <=? r) && (r <=? hi + k) then tileAt b (r - k) c
         else vget kEmpty after (cell b r c)) (lo - 1)
       (for_range_down hi lo (sweep_row b) (lines, after, k, cell b hi (nCols b - 1))))
    as (after' & E & Hl & Hv).
  { exists after'. split; [exact E|]. split; [exact Hl|]. intros r c Hr Hc.
    rewrite Hv by assumption. now replace (lo - 1 + 1 + k) with (lo + k) by ring. }
  apply (for_range_down_ind (fun m (st : list Z * list TileColor * Z * Z) =>
     exists after',
       st = (lines, after', k, cell b m (nCols b - 1)) /\
       length after' = length (tiles_ b) /\
       forall r c, - kRowsAbove_ <= r < nRows b -> 0 <= c < nCols b ->
         vget kEmpty after' (cell b r c) =
         if (0 <? k) && (m + 1 + k <=? r) && (r <=? hi + k) then tileAt b (r - k) c
         else vget kEmpty after (cell b r c))); [lia | |].
  - exists after. split; [reflexivity|]. split; [exact Hlen|]. intros r c Hr Hc.
    destruct (Z.leb_spec (hi + 1 + k) r), (Z.leb_spec r (hi + k)); try lia;
      now rewrite ?andb_false_r.
  - intros m st Hm (after_m & -> & Hl & Hv).
    assert (fullRow b m = false) as Hf.
    { destruct (fullRow b m) eqn:E; [|reflexivity].
      apply fullRow_spec in E; [|lia]. now apply Hnf in E. }
    unfold sweep_row. rewrite Hf.
    destruct (Z.gtb_spec k 0) as [Hk0|Hk0].
    + destruct (copy_row_spec m k after_m) as (after' & E & Hl' & Hv'); try lia.
      rewrite E. exists after'. split; [reflexivity|]. split; [exact Hl'|].
      intros r c Hr Hc. rewrite Hv', Hv by assumption.
      destruct (Z.ltb_spec 0 k); [|lia]. simpl.
      destruct (Z.eqb_spec r (m + k)) as [->|Hne].
      * replace (m + k - k) with m by ring.
        destruct (Z.leb_spec (m - 1 + 1 + k) (m + k)), (Z.leb_spec (m + k) (hi + k));
          try lia; reflexivity.
      * destruct (Z.leb_spec (m + 1 + k) r), (Z.leb_spec (m - 1 + 1 + k) r),
          (Z.leb_spec r (hi + k)); try lia; reflexivity.
    + exists after_m. split; [f_equal; unfold cell; ring|]. split; [exact Hl|].
      intros r c Hr Hc. rewrite Hv by assumption.
      destruct (Z.ltb_spec 0 k); [lia|]. reflexivity.
Qed.

(** [std::fill] over the first [k] rows. *)
Lemma fill_front_spec (k : Z) (v : list TileColor) :
  0 <= k <= nRows b + kRowsAbove_ -> length v = length (tiles_ b) ->
  forall r c, - kRowsAbove_ <= r < nRows b -> 0 <= c < nCols b ->
    vget kEmpty (fill_front (k * nCols b) v) (cell b r c) =
    if r <? k - kRowsAbove_ then kEmpty else vget kEmpty v (cell b r c).
Proof.
  intros Hk Hlen r c Hr Hc.
  pose proof (cell_range r c Hr Hc) as Hcell.
  assert (0 <= k * nCols b) as Hkn by (apply Z.mul_nonneg_nonneg; lia).
  rewrite !vget_nth by lia. unfold fill_front.
  destruct (Z.ltb_spec r (k - kRowsAbove_)) as [Hlt|Hge].
  - assert (cell b r c < k * nCols b) as Hi.
    { unfold cell.
      assert ((r + kRowsAbove_ + 1) * nCols b <= k * nCols b)
        by (apply Z.mul_le_mono_nonneg_r; lia). lia. }
    rewrite app_nth1 by (rewrite repeat_length; lia).
    apply nth_repeat.
  - assert (k * nCols b <= cell b r c) as Hi.
    { unfold cell.
      assert (k * nCols b <= (r + kRowsAbove_) * nCols b)
        by (apply Z.mul_le_mono_nonneg_r; lia). lia. }
    rewrite app_nth2 by (rewrite repeat_length; lia).
    rewrite repeat_length, nth_skipn. f_equal. lia.
Qed.


(** C5, amended.  On a grid of [nRows + 2] rows of [nCols] tiles in which
    exactly the rows [R1 < R2] are full, [findLinesToClear] records exactly
    these two rows (the lower one first); after [clearLines] the list is
    empty again, the top two rows of the grid (-2 and -1) are empty, every row
    above [R1] has moved down by 2, every row between [R1] and [R2] has moved
    down by 1, and every row below [R2] is unchanged.  Rows [R1] and [R2]
    therefore hold what was above them, which need not be empty. *)
Theorem two_full_rows_cleared (R1 R2 : Z) :
  - kRowsAbove_ <= R1 -> R1 < R2 -> R2 < nRows b ->
  (forall r, - kRowsAbove_ <= r < nRows b -> (row_full r <-> r = R1 \/ r = R2)) ->
  let b1 := findLinesToClear b in
  let b2 := clearLines b1 in
  linesToClear_ b1 = [R2; R1] /\
  linesToClear_ b2 = [] /\
  forall c, 0 <= c < nCols b ->
    (forall r, - kRowsAbove_ <= r < 0 -> tileAt b2 r c = kEmpty) /\
    (forall r, - kRowsAbove_ <= r < R1 -> tileAt b2 (r + 2) c = tileAt b r c) /\
    (forall r, R1 < r < R2 -> tileAt b2 (r + 1) c = tileAt b r c) /\
    (forall r, R2 < r < nRows b -> tileAt b2 r c = tileAt b r c).
Proof.
  intros H1 H12 H2 Hfull.
  assert (forall r, - kRowsAbove_ <= r < nRows b -> r <> R1 -> r <> R2 -> ~ row_full r)
    as Hnf by (intros r Hr Hn1 Hn2 Hf; apply Hfull in Hf; [tauto | exact Hr]).
  assert (fullRow b R1 = true) as HfR1 by (apply fullRow_spec; [lia | apply Hfull; [lia | tauto]]).
  assert (fullRow b R2 = true) as HfR2 by (apply fullRow_spec; [lia | apply Hfull; [lia | tauto]]).
  unfold kRowsAbove_ in *.
  (* the sweep, phase by phase *)
  assert (exists after,
    for_range_down (nRows b - 1) (- kRowsAbove_) (sweep_row b)
      ([], tiles_ b, 0, Z.of_nat (length (tiles_ b)) - 1) = ([R2; R1], after, 2, cell b (-3) (nCols b - 1)) /\
    length after = length (tiles_ b) /\
    forall r c, -2 <= r < nRows b -> 0 <= c < nCols b ->
      vget kEmpty after (cell b r c) =
      if (0 <=? r) && (r <=? R1 + 1) then tileAt b (r - 2) c
      else if (R1 + 2 <=? r) && (r <=? R2) then tileAt b (r - 1) c
      else tileAt b r c) as (after & Esweep & Hlen & Hafter).
  { replace (Z.of_nat (length (tiles_ b)) - 1) with (cell b (nRows b - 1) (nCols b - 1))
      by (rewrite tiles_length; unfold cell, kRowsAbove_; ring).
    unfold kRowsAbove_.
    rewrite (for_range_down_split _ (nRows b - 1) R2 (-2)) by lia.
    destruct (sweep_block (nRows b - 1) (R2 + 1) 0 [] (tiles_ b)
                ltac:(unfold kRowsAbove_; lia) ltac:(lia) ltac:(lia) ltac:(lia) eq_refl
                ltac:(intros r Hr; apply Hnf; lia)) as (aA & EA & LA & VA).
    rewrite EA. replace (R2 + 1 - 1) with R2 by ring.
    rewrite (for_range_down_split _ R2 (R2 - 1) (-2)) by lia.
    replace (R2 - 1 + 1) with R2 by ring.
    rewrite for_range_down_one, sweep_row_full by exact HfR2. simpl app.
    rewrite (for_range_down_split _ (R2 - 1) R1 (-2)) by lia.
    destruct (sweep_block (R2 - 1) (R1 + 1) (0 + 1) [R2] aA
                ltac:(unfold kRowsAbove_; lia) ltac:(lia) ltac:(lia) ltac:(lia) LA
                ltac:(intros r Hr; apply Hnf; lia)) as (aB & EB & LB & VB).
    rewrite EB. replace (R1 + 1 - 1) with R1 by ring.
    rewrite (for_range_down_split _ R1 (R1 - 1) (-2)) by lia.
    replace (R1 - 1 + 1) with R1 by ring.
    rewrite for_range_down_one, sweep_row_full by exact HfR1. simpl app.
    destruct (sweep_block (R1 - 1) (-2) (0 + 1 + 1) [R2; R1] aB
                ltac:(unfold kRowsAbove_; lia) ltac:(lia) ltac:(lia) ltac:(lia) LB
                ltac:(intros r Hr; apply Hnf; lia)) as (aC & EC & LC & VC).
    rewrite EC. exists aC. split; [reflexivity|]. split; [exact LC|].
    intros r c Hr Hc. unfold kRowsAbove_ in *.
    rewrite VC, VB, VA by lia. simpl Z.add.
    unfold tileAt at 3.
    destruct (Z.leb_spec 0 r), (Z.leb_spec r (R1 + 1)), (Z.leb_spec (R1 + 2) r),
      (Z.leb_spec r R2), (Z.leb_spec (-2 + 2) r),
      (Z.leb_spec r (R1 - 1 + 2)), (Z.leb_spec (R1 + 1 + 1) r), (Z.leb_spec r (R2 - 1 + 1));
      simpl; try lia; try reflexivity. }
  set (b1 := findLinesToClear b). set (b2 := clearLines b1).
  assert (b1 = set_tilesAfterClear (fill_front (2 * nCols b) after)
                 (set_linesToClear [R2; R1] b)) as Eb1
    by (unfold b1, findLinesToClear; now rewrite Esweep).
  assert (b2 = set_tiles (fill_front (2 * nCols b) after) (set_linesToClear [] b1)) as Eb2
    by (unfold b2, clearLines; now rewrite Eb1).
  split; [now rewrite Eb1|]. split; [now rewrite Eb2|].
  intros c Hc.
  assert (forall r, -2 <= r < nRows b ->
            tileAt b2 r c = if r <? 0 then kEmpty else vget kEmpty after (cell b r c)) as Ht.
  { intros r Hr. rewrite Eb2, Eb1. unfold tileAt, set_tiles. cbn [tiles_].
    change (cell _ r c) with (cell b r c).
    now rewrite fill_front_spec by (unfold kRowsAbove_; lia || assumption). }
  repeat split; intros r Hr.
  - rewrite Ht by lia. destruct (Z.ltb_spec r 0); [reflexivity | lia].
  - rewrite Ht, Hafter by lia. replace (r + 2 - 2) with r by ring.
    destruct (Z.ltb_spec (r + 2) 0), (Z.leb_spec 0 (r + 2)), (Z.leb_spec (r + 2) (R1 + 1));
      simpl; try lia; reflexivity.
  - rewrite Ht, Hafter by lia. replace (r + 1 - 1) with r by ring.
    destruct (Z.ltb_spec (r + 1) 0), (Z.leb_spec 0 (r + 1)), (Z.leb_spec (r + 1) (R1 + 1)),
      (Z.leb_spec (R1 + 2) (r + 1)), (Z.leb_spec (r + 1) R2); simpl; try lia; reflexivity.
  - rewrite Ht, Hafter by lia.
    destruct (Z.ltb_spec r 0), (Z.leb_spec 0 r), (Z.leb_spec r (R1 + 1)),
      (Z.leb_spec (R1 + 2) r), (Z.leb_spec r R2); simpl; try lia; reflexivity.
Qed.

End Lines.

(** A board of the game's size with exactly rows 18 and 19 full: two O
    pieces are stacked on columns 8-9, then four O pieces are dropped side by
    side on columns 0-7.  Rows 16 and 17 hold the upper O piece. *)
Definition two_rows_board : Board.t :=
  place kPieceO 2 (place kPieceO 0 (place kPieceO (-2) (place kPieceO (-4)
    (place kPieceO 4 (place kPieceO 4 (Board.Board 20 10)))))).

(** Which rows are full can be decided row by row. *)
Lemma row_full_decide (b : Board.t) (R1 R2 : Z) :
  forallb (fun r => Bool.eqb (Board.fullRow b r) ((r =? R1) || (r =? R2)))
          (map (fun i => i - Board.kRowsAbove_) (zrange (Board.nRows b + Board.kRowsAbove_)))
    = true ->
  forall r, - Board.kRowsAbove_ <= r < Board.nRows b ->
    (row_full b r <-> r = R1 \/ r = R2).
Proof.
  intros Hall r Hr. rewrite <- (fullRow_spec b r Hr).
  rewrite forallb_forall in Hall.
  specialize (Hall r). rewrite in_map_iff in Hall.
  assert (Bool.eqb (Board.fullRow b r) ((r =? R1) || (r =? R2)) = true) as E.
  { apply Hall. exists (r + Board.kRowsAbove_). split; [lia|]. apply in_zrange. lia. }
  apply Bool.eqb_prop in E. rewrite E, orb_true_iff, !Z.eqb_eq. tauto.
Qed.

(** C5, refuted as stated.  On [two_rows_board], reached through the public
    operations, exactly rows 18 and 19 are full and [findLinesToClear]
    records them; after [clearLines] rows 18 and 19 are not empty: they hold
    the tiles that stood in rows 16 and 17. *)
Lemma cleared_rows_not_empty :
  reachable two_rows_board /\
  (forall r, -2 <= r < 20 -> (row_full two_rows_board r <-> r = 18 \/ r = 19)) /\
  Board.linesToClear_ (Board.findLinesToClear two_rows_board) = [19; 18] /\
  Board.tileAt (Board.clearLines (Board.findLinesToClear two_rows_board)) 18 8 = kYellow /\
  Board.tileAt (Board.clearLines (Board.findLinesToClear two_rows_board)) 19 8 = kYellow.
Proof.
  split; [|split; [|vm_compute; auto]].
  - unfold two_rows_board. repeat apply reachable_place. apply reachable_new.
  - apply (row_full_decide two_rows_board 18 19); vm_compute; reflexivity.
Qed.

Lemma two_full_rows_cleared_witness :
  Board.tileAt (Board.clearLines (Board.findLinesToClear two_rows_board)) (17 + 2) 8 =
  Board.tileAt two_rows_board 17 8.
Proof.
  assert (Z.of_nat (length (Board.tiles_ two_rows_board)) =
          (Board.nRows two_rows_board + Board.kRowsAbove_) * Board.nCols two_rows_board)
    as Hlen by (vm_compute; reflexivity).
  assert (forall r, - Board.kRowsAbove_ <= r < Board.nRows two_rows_board ->
            (row_full two_rows_board r <-> r = 18 \/ r = 19)) as Hfull
    by (apply row_full_decide; vm_compute; reflexivity).
  destruct (two_full_rows_cleared two_rows_board Hlen 18 19
              ltac:(vm_compute; discriminate) ltac:(lia) ltac:(vm_compute; reflexivity)
              Hfull) as (_ & _ & H).
  destruct (H 8 ltac:(vm_compute; split; [discriminate | reflexivity])) as (_ & H2 & _).
  apply H2. vm_compute. split; [discriminate | reflexivity].
Defined.

(** ** Board: freezing the piece *)

Section Froze.

Import Board.

Implicit Types (b : Board.t).

Lemma set_tiles_same b : set_tiles (tiles_ b) b = b.
Proof. now destruct b. Qed.

Lemma isTileFilled_false_in_grid b (row col : Z) :
  isTileFilled b row col = false ->
  - kRowsAbove_ <= row < nRows b /\ 0 <= col < nCols b.
Proof.
  unfold isTileFilled.
  destruct (Z.ltb_spec col 0), (Z.geb_spec col (nCols b)),
    (Z.ltb_spec row (- kRowsAbove_)), (Z.geb_spec row (nRows b));
    simpl; try discriminate. intros _. unfold kRowsAbove_ in *. lia.
Qed.

(** Every tile of the piece of [b], at its anchor, lies inside the grid. *)
Definition piece_in_grid b : Prop :=
  forall pieceRow pieceCol,
    0 <= pieceRow < Piece.bBoxSide_ (piece_ b) ->
    0 <= pieceCol < Piece.bBoxSide_ (piece_ b) ->
    occupied (piece_ b) pieceRow pieceCol = true ->
    - kRowsAbove_ <= row_ b + pieceRow < nRows b /\
    0 <= col_ b + pieceCol < nCols b.

Lemma possible_in_grid b :
  isPositionPossible b (row_ b) (col_ b) (piece_ b) = true -> piece_in_grid b.
Proof.
  intros H pr pc Hpr Hpc Ho. apply isPositionPossible_spec in H as [_ H].
  apply isTileFilled_false_in_grid.
  destruct (isTileFilled b (row_ b + pr) (col_ b + pc)) eqn:E; [|reflexivity].
  exfalso. apply (H pr pc Hpr Hpc). now split.
Qed.

(** [frozePiece] writes inside the grid, hence is defined, whenever the
    piece lies inside the grid; it changes the grid, recomputes the pending
    lines and leaves the none piece. *)
Lemma frozePiece_defined b :
  Z.of_nat (length (tiles_ b)) = (nRows b + kRowsAbove_) * nCols b ->
  piece_in_grid b ->
  exists belowSkyline v,
    frozePiece b =
      Some (belowSkyline, set_piece (Piece.Piece kNone) (findLinesToClear (set_tiles v b))) /\
    length v = length (tiles_ b).
Proof.
  intros Hlen Hin. unfold frozePiece.
  set (side := Piece.bBoxSide_ (piece_ b)).
  match goal with |- context [for_range (row_ b) (row_ b + side) ?f ?s0] =>
    set (outer := f);
    assert (exists index below v,
              for_range (row_ b) (row_ b + side) outer s0 = (index, below, Some (set_tiles v b)) /\
              length v = length (tiles_ b)) as (index & below & v & E & Hv)
  end.
  { destruct (Z.le_gt_cases side 0) as [Hs|Hs].
    { rewrite for_range_empty by lia. exists 0, false, (tiles_ b).
      now rewrite set_tiles_same. }
    enough ((fun r (st : Z * bool * option Board.t) =>
              exists below v, st = ((r - row_ b) * side, below, Some (set_tiles v b)) /\
                              length v = length (tiles_ b))
            (row_ b + side)
            (for_range (row_ b) (row_ b + side) outer (0, false, Some b)))
      as (below & v & E & Hv) by eauto.
    apply for_range_ind; [lia | |].
    - exists false, (tiles_ b). rewrite set_tiles_same. split; [f_equal; f_equal; lia | reflexivity].
    - intros r st Hr (below & v & -> & Hv). unfold outer.
      match goal with |- context [for_range (col_ b) (col_ b + side) ?f ?s0] => set (inner := f) end.
      enough ((fun c (st : Z * bool * option Board.t) =>
                exists below' v', st = ((r - row_ b) * side + (c - col_ b), below',
                                        Some (set_tiles v' b)) /\
                                  length v' = length (tiles_ b))
              (col_ b + side)
              (for_range (col_ b) (col_ b + side) inner
                 ((r - row_ b) * side, below, Some (set_tiles v b))))
        as (below' & v' & E & Hv').
      { exists below', v'. split; [rewrite E; f_equal; f_equal; ring | exact Hv']. }
      apply for_range_ind; [lia | |].
      + exists below, v. split; [f_equal; f_equal; ring | exact Hv].
      + intros c st Hc (below' & v' & -> & Hv'). unfold inner.
        destruct (negb (TileColor_eqb
                    (vget kEmpty (Piece.shape_ (piece_ b))
                       ((r - row_ b) * side + (c - col_ b))) kEmpty)) eqn:Eo.
        * destruct (Hin (r - row_ b) (c - col_ b)) as [Hr' Hc']; [lia | lia | exact Eo |].
          replace (row_ b + (r - row_ b)) with r in Hr' by ring.
          replace (col_ b + (c - col_ b)) with c in Hc' by ring.
          unfold setTile. cbn [tiles_ set_tiles].
          change (cell (set_tiles v' b) r c) with (cell b r c).
          rewrite vset_Some
            by (rewrite <- Nat2Z.inj_iff in Hv'; rewrite Hv', Hlen; now apply cell_range).
          eexists _, _. split; [f_equal; [f_equal; ring | reflexivity]|].
          now rewrite length_upd.
        * exists below', v'. split; [f_equal; f_equal; ring | exact Hv']. }
  rewrite E. eauto.
Qed.

(** Whatever it wrote, [frozePiece] leaves no active piece. *)
Lemma frozePiece_no_piece b r b' :
  frozePiece b = Some (r, b') -> Piece.kind_ (piece_ b') = kNone.
Proof.
  unfold frozePiece. destruct (for_range _ _ _ _) as [[index below] [b0|]]; [|discriminate].
  now intros [= _ <-].
Qed.

End Froze.

(** ** Controller: locking *)

Section Locking.

Import Tetris.

Context {Rng : Type}.
Variable shuffle : Rng -> list PieceKind -> list PieceKind * Rng.
Variable pow : float -> float -> float.

Implicit Types (s : Tetris.t Rng).

Local Abbreviation spawnPiece := (Tetris.spawnPiece shuffle).
Local Abbreviation lock := (Tetris.lock shuffle).
Local Abbreviation checkLock := (Tetris.checkLock shuffle).
Local Abbreviation rotate := (Tetris.rotate shuffle).
Local Abbreviation hardDrop := (Tetris.hardDrop shuffle).
Local Abbreviation update := (Tetris.update shuffle).
Local Abbreviation update_running := (Tetris.update_running shuffle).
Local Abbreviation restart := (Tetris.restart shuffle pow).
Local Abbreviation step := (Tetris.step shuffle pow).
Local Abbreviation reachable := (Tetris.reachable shuffle pow).

(** The kind the next [spawnPiece] draws, [bag_[nextPiece_]]. *)
Definition drawn s : PieceKind := vget kNone (bag_ s) (nextPiece_ s).

(** The lock condition of [checkLock]: the timer has reached the lock-delay
    limit or the counter has reached its cap. *)
Definition lock_due s : bool :=
  fge (lockingTimer_ s) kLockDownTimeLimit_
  || (nMovesWhileLocking_ s >=? kLockDownMovesLimit_).

(** What [spawnPiece] does to the members other than the bag. *)
Lemma spawnPiece_fields s :
  let s' := spawnPiece s in
  board_ s' = snd (Board.spawnPiece (drawn s) (board_ s)) /\
  gameOver_ s' = negb (fst (Board.spawnPiece (drawn s) (board_ s))) /\
  nMovesWhileLocking_ s' = 0 /\
  lockingTimer_ s' = lockingTimer_ s /\
  isOnGround_ s' = isOnGround_ s /\
  pausedForLinesClear_ s' = pausedForLinesClear_ s /\
  linesClearTimer_ s' = linesClearTimer_ s /\
  timeStep_ s' = timeStep_ s.
Proof.
  unfold Tetris.spawnPiece, drawn.
  destruct (Board.spawnPiece _ (board_ s)) as [spawned b]. cbn zeta.
  unfold shuffle_back, copy_back_to_front. tetris_simpl.
  destruct (nextPiece_ s + 1 =? kNumPieces); [|tetris_simpl; tauto].
  destruct (shuffle _ _) as [back g]. tetris_simpl. tauto.
Qed.

(** The draw index after [spawnPiece]: the next one, wrapping from 6 to 0.
    It is never the index before. *)
Lemma spawnPiece_nextPiece s :
  nextPiece_ (spawnPiece s) =
  if nextPiece_ s + 1 =? kNumPieces then 0 else nextPiece_ s + 1.
Proof.
  unfold Tetris.spawnPiece.
  destruct (Board.spawnPiece _ (board_ s)) as [spawned b]. cbn zeta.
  unfold shuffle_back, copy_back_to_front. tetris_simpl.
  destruct (nextPiece_ s + 1 =? kNumPieces); [|reflexivity].
  now destruct (shuffle _ _).
Qed.

Lemma spawnPiece_draws s : nextPiece_ (spawnPiece s) <> nextPiece_ s.
Proof.
  rewrite spawnPiece_nextPiece. unfold kNumPieces.
  destruct (Z.eqb_spec (nextPiece_ s + 1) 7); lia.
Qed.

(** The three ways [lock] ends. *)
Lemma lock_cases s s' :
  lock s = Some s' ->
  exists belowSkyline b,
    Board.frozePiece (board_ s) = Some (belowSkyline, b) /\
    let s0 := set_board b (set_isOnGround false (set_lockingTimer 0 s)) in
    (belowSkyline = false /\ s' = set_gameOver true s0) \/
    (belowSkyline = true /\ Board.numLinesToClear b = 0 /\ s' = spawnPiece s0) \/
    (belowSkyline = true /\ Board.numLinesToClear b <> 0 /\
     s' = set_linesClearTimer 0 (set_pausedForLinesClear true s0)).
Proof.
  unfold Tetris.lock. cbn [board_ set_isOnGround set_lockingTimer].
  destruct (Board.frozePiece (board_ s)) as [[below b]|]; [|discriminate].
  intros H. exists below, b. split; [reflexivity|]. cbn zeta.
  destruct below; simpl negb in H; cbv iota in H.
  - cbn [board_ set_board] in H.
    destruct (Z.eqb_spec (Board.numLinesToClear b) 0) as [E|E]; injection H as <-; auto.
  - injection H as <-. auto.
Qed.

(** [lock] resets the locking timer and clears the grounded flag; it does
    not increment the move counter, which keeps its value or is reset by the
    spawn of the next piece; and it leaves the board without a piece or with
    a newly drawn one. *)
Lemma lock_effect s s' :
  lock s = Some s' ->
  lockingTimer_ s' = 0%float /\
  isOnGround_ s' = false /\
  (nMovesWhileLocking_ s' = nMovesWhileLocking_ s \/ nMovesWhileLocking_ s' = 0) /\
  (Piece.kind_ (Board.piece_ (board_ s')) = kNone \/ nextPiece_ s' <> nextPiece_ s).
Proof.
  intros H. apply lock_cases in H as (below & b & Hf & H).
  pose proof (frozePiece_no_piece _ _ _ Hf) as Hnone. cbn zeta in H.
  destruct H as [[_ ->]|[(_ & _ & ->)|(_ & _ & ->)]].
  - simpl. auto.
  - match goal with |- context [spawnPiece ?s0] =>
      pose proof (spawnPiece_fields s0) as (_ & _ & Hn & Ht & Hg & _);
      pose proof (spawnPiece_draws s0) as Hd
    end.
    rewrite Hn, Ht, Hg. simpl in *. auto.
  - simpl. auto.
Qed.

(** [lock] is defined as soon as the piece lies inside the grid. *)
Lemma lock_defined s :
  Z.of_nat (length (Board.tiles_ (board_ s))) =
    (Board.nRows (board_ s) + Board.kRowsAbove_) * Board.nCols (board_ s) ->
  piece_in_grid (board_ s) ->
  exists s', lock s = Some s'.
Proof.
  intros Hlen Hin. unfold Tetris.lock. cbn [board_ set_isOnGround set_lockingTimer].
  destruct (frozePiece_defined (board_ s) Hlen Hin) as (below & v & -> & _).
  destruct (negb below); [eauto|].
  destruct (_ =? 0); eauto.
Qed.

(** *** checkLock *)








End Locking.

(** ** Controller: hard drop, refused spawn, rotation of the O piece *)

Section Commands.

Import Tetris.

Context {Rng : Type}.
Variable shuffle : Rng -> list PieceKind -> list PieceKind * Rng.
Variable pow : float -> float -> float.

Implicit Types (s : Tetris.t Rng).

Local Abbreviation spawnPiece := (Tetris.spawnPiece shuffle).
Local Abbreviation lock := (Tetris.lock shuffle).
Local Abbreviation checkLock := (Tetris.checkLock shuffle).
Local Abbreviation rotate := (Tetris.rotate shuffle).
Local Abbreviation hardDrop := (Tetris.hardDrop shuffle).
Local Abbreviation update := (Tetris.update shuffle).
Local Abbreviation update_running := (Tetris.update_running shuffle).
Local Abbreviation restart := (Tetris.restart shuffle pow).
Local Abbreviation step := (Tetris.step shuffle pow).
Local Abbreviation reachable := (Tetris.reachable shuffle pow).

(** The state [hardDrop] hands to [lock]: the piece on its ghost row and
    the score raised by twice the level per row passed. *)
Definition dropped s : Tetris.t Rng :=
  set_score (score_ s + 2 * level_ s *
               (Board.ghostRow_ (board_ s) - Board.row_ (board_ s)))
    (set_board (Board.set_row (Board.ghostRow_ (board_ s)) (board_ s)) s).


(** C2, amended.  If the controller's [spawnPiece] draws a kind whose start
    position collides, then the [gameOver_] flag is set; on the board the
    grid, the ghost row, the pending lines and the pre-computed grid are
    untouched, while the piece is replaced by the rejected piece and the
    anchor by its start position (row -2, centred column), where
    [isPositionPossible] does not hold.  The rejected piece is an active
    piece (its kind is not the none sentinel when the drawn kind is not): the
    [hardDrop] command is not a no-op but goes on to [lock]. *)
Theorem spawnPiece_refused s :
  fst (Board.spawnPiece (drawn s) (board_ s)) = false ->
  let s' := spawnPiece s in
  let b := board_ s in
  let b' := board_ s' in
  gameOver_ s' = true /\
  Board.tiles_ b' = Board.tiles_ b /\
  Board.ghostRow_ b' = Board.ghostRow_ b /\
  Board.linesToClear_ b' = Board.linesToClear_ b /\
  Board.tilesAfterClear_ b' = Board.tilesAfterClear_ b /\
  Board.piece_ b' = Piece.Piece (drawn s) /\
  Board.row_ b' = -2 /\
  Board.col_ b' = Z.quot (Board.nCols b - Piece.bBoxSide_ (Piece.Piece (drawn s))) 2 /\
  Board.isPositionPossible b' (Board.row_ b') (Board.col_ b') (Board.piece_ b') = false /\
  (drawn s <> kNone ->
   Piece.kind_ (Board.piece_ b') <> kNone /\ hardDrop s' = lock (dropped s')).
Proof.
  intros Hf s' b b'.
  pose proof (spawnPiece_fields shuffle s) as (Hb & Hg & _). fold s' in Hb, Hg.
  destruct (Board.spawnPiece (drawn s) (board_ s)) as [spawned b1] eqn:E.
  simpl in Hf, Hb, Hg. subst spawned.
  apply spawnPiece_false in E as [E1 E2].
  unfold b'. rewrite Hb. rewrite E1 in *. board_simpl.
  repeat split; try reflexivity; try assumption.
  - destruct (drawn s); [congruence | | | | | | |]; discriminate.
  - unfold Tetris.hardDrop. fold s'. rewrite Hb. board_simpl.
    replace (PieceKind_eqb (Piece.kind_ (Piece.Piece (drawn s))) kNone) with false
      by (destruct (drawn s); [congruence | | | | | | |]; reflexivity).
    unfold dropped. rewrite Hb. reflexivity.
Qed.

(** *** The lock condition between commands *)

(** Whenever a command has returned, an active piece that rests on the
    ground is not due for locking: its timer is below the limit and its
    counter below the cap. *)
Definition not_due s : Prop :=
  Piece.kind_ (Board.piece_ (board_ s)) <> kNone ->
  Board.isOnGround (board_ s) = true ->
  lock_due s = false.

Lemma lock_not_due s s' : lock s = Some s' -> not_due s'.
Proof.
  intros H Hk _. apply lock_cases in H as (below & b & Hf & H).
  pose proof (frozePiece_no_piece _ _ _ Hf) as Hnone. cbn zeta in H.
  destruct H as [[_ ->]|[(_ & _ & ->)|(_ & _ & ->)]].
  - now elim Hk.
  - match goal with |- context [spawnPiece ?s0] =>
      pose proof (spawnPiece_fields shuffle s0) as (_ & _ & Hn & Ht & _)
    end.
    unfold lock_due. rewrite Hn, Ht. reflexivity.
  - now elim Hk.
Qed.

Lemma checkLock_not_due s s' : checkLock s = Some s' -> not_due s'.
Proof.
  unfold Tetris.checkLock.
  destruct (Board.isOnGround (board_ s)) eqn:Eg; simpl negb; cbv iota.
  - destruct (_ || _) eqn:Ed; [apply lock_not_due|].
    intros [= <-] _ _. exact Ed.
  - intros [= <-] _ Hg. tetris_simpl_in Hg. congruence.
Qed.

Lemma restart_not_due level s : not_due (restart level s).
Proof.
  intros _ _. unfold Tetris.restart.
  match goal with |- context [Tetris.spawnPiece shuffle ?s0] =>
    pose proof (spawnPiece_fields shuffle s0) as (_ & _ & Hn & Ht & _);
    assert (lockingTimer_ s0 = 0%float) as H0
  end.
  { unfold shuffle_back, shuffle_front. tetris_simpl.
    repeat (destruct (shuffle _ _); tetris_simpl). reflexivity. }
  unfold lock_due. rewrite Hn, Ht, H0. reflexivity.
Qed.

(** [update] past the pause ends with the lock check. *)
Lemma update_running_checkLock softDrop moveRight moveLeft s :
  exists s1, update_running softDrop moveRight moveLeft s = checkLock s1.
Proof.
  unfold Tetris.update_running. cbn zeta.
  match goal with |- context [let '(a, b) := ?e in _] => destruct e as [mr ml] end.
  eexists. reflexivity.
Qed.

Lemma step_not_due c s s' : not_due s -> step c s = Some s' -> not_due s'.
Proof.
  intros Hs. destruct c as [level|softDrop moveRight moveLeft|rotation|]; simpl.
  - intros [= <-]. apply restart_not_due.
  - unfold Tetris.update.
    destruct (pausedForLinesClear_ s).
    + destruct (flt _ _).
      * intros [= <-]. exact Hs.
      * match goal with |- context [update_running ?a ?b ?c ?s0] =>
          destruct (update_running_checkLock a b c s0) as [s1 ->]
        end.
        apply checkLock_not_due.
    + destruct (update_running_checkLock softDrop moveRight moveLeft s) as [s1 ->].
      apply checkLock_not_due.
  - unfold Tetris.rotate. destruct (Board.rotate _ _). apply checkLock_not_due.
  - unfold Tetris.hardDrop. destruct (PieceKind_eqb _ _).
    + intros [= <-]. exact Hs.
    + apply lock_not_due.
Qed.

Lemma reachable_not_due s : reachable s -> not_due s.
Proof.
  induction 1 as [board timeStep rng|c s s' _ IH Hstep].
  - apply restart_not_due.
  - exact (step_not_due c s s' IH Hstep).
Qed.

(** C10.  [Board::rotate] called while the piece is the O piece or the none
    piece returns [false] and leaves the board as it is: shape, rotation
    state, anchor and ghost row are unchanged, like everything else.
    Consequently, in every controller state the commands reach, [rotate] on
    an O piece only refreshes the grounded flag: it does not lock, the
    locking timer and the moves-while-locking counter keep their values and
    the board is unchanged. *)
Theorem rotate_O_piece :
  (forall rotation b,
     Piece.kind_ (Board.piece_ b) = kPieceO \/ Piece.kind_ (Board.piece_ b) = kNone ->
     Board.rotate rotation b = (false, b)) /\
  (forall rotation s,
     reachable s ->
     Piece.kind_ (Board.piece_ (board_ s)) = kPieceO ->
     exists s',
       rotate rotation s = Some s' /\
       s' = set_isOnGround (Board.isOnGround (board_ s)) s /\
       lockingTimer_ s' = lockingTimer_ s /\
       nMovesWhileLocking_ s' = nMovesWhileLocking_ s /\
       board_ s' = board_ s).
Proof.
  assert (Hb : forall rotation b,
     Piece.kind_ (Board.piece_ b) = kPieceO \/ Piece.kind_ (Board.piece_ b) = kNone ->
     Board.rotate rotation b = (false, b)).
  { intros rotation b Hk. unfold Board.rotate. now destruct Hk as [-> | ->]. }
  split; [exact Hb|].
  intros rotation s Hr Hk.
  exists (set_isOnGround (Board.isOnGround (board_ s)) s).
  split; [|repeat split].
  unfold Tetris.rotate. rewrite (Hb rotation (board_ s)) by now left.
  simpl andb. cbv iota.
  replace (set_board (board_ s) s) with s by now destruct s.
  unfold Tetris.checkLock.
  destruct (Board.isOnGround (board_ s)) eqn:Eg; simpl negb; cbv iota; [|reflexivity].
  pose proof (reachable_not_due s Hr) as Hn. unfold not_due, lock_due in Hn.
  tetris_simpl. rewrite Hn; [reflexivity | congruence | exact Eg].
Qed.

End Commands.

(** ** Controller: the bag *)

Section Bag.

Import Tetris.

Context {Rng : Type}.
Variable shuffle : Rng -> list PieceKind -> list PieceKind * Rng.
Variable pow : float -> float -> float.

(** What the model asks of [std::shuffle]: it permutes the range. *)
Hypothesis shuffle_permutes :
  forall (rng : Rng) (range : list PieceKind), Permutation range (fst (shuffle rng range)).

Implicit Types (s : Tetris.t Rng).

Local Abbreviation spawnPiece := (Tetris.spawnPiece shuffle).
Local Abbreviation lock := (Tetris.lock shuffle).
Local Abbreviation checkLock := (Tetris.checkLock shuffle).
Local Abbreviation update_running := (Tetris.update_running shuffle).
Local Abbreviation restart := (Tetris.restart shuffle pow).
Local Abbreviation step := (Tetris.step shuffle pow).
Local Abbreviation reachable := (Tetris.reachable shuffle pow).

Definition all_kinds : list PieceKind :=
  [kPieceI; kPieceJ; kPieceL; kPieceO; kPieceS; kPieceT; kPieceZ].

(** The randomizer's part of the controller: the bag, the draw index and the
    engine. *)
Definition bag_state : Type := list PieceKind * Z * Rng.

Definition bag_of s : bag_state := (bag_ s, nextPiece_ s, rng_ s).

(** The kind a draw takes, [bag_[nextPiece_]], and what a draw does to the
    randomizer: the statements of [Tetris::spawnPiece] on [bag_],
    [nextPiece_] and [rng_]. *)
Definition draw (st : bag_state) : PieceKind :=
  let '(bag, index, _) := st in vget kNone bag index.

Definition index_of (st : bag_state) : Z := let '(_, index, _) := st in index.

Definition advance (st : bag_state) : bag_state :=
  let '(bag, index, rng) := st in
  if index + 1 =? kNumPieces then
    let n := Z.to_nat kNumPieces in
    let back := skipn n bag in
    let bag1 := back ++ skipn (length back) bag in
    let '(back', rng') := shuffle rng (skipn n bag1) in
    (firstn n bag1 ++ back', 0, rng')
  else (bag, index + 1, rng).

(** [st], [advance st], ... : the randomizer before each of [n] draws. *)
Fixpoint draws_from (n : nat) (st : bag_state) : list bag_state :=
  match n with
  | O => []
  | S n' => st :: draws_from n' (advance st)
  end.

(** The controller's [spawnPiece] is one draw: it spawns the kind at the
    draw index and advances the randomizer. *)
Lemma spawnPiece_piece kind b :
  Board.piece_ (snd (Board.spawnPiece kind b)) = Piece.Piece kind.
Proof.
  destruct (Board.spawnPiece kind b) as [[|] b'] eqn:E.
  - apply spawnPiece_true in E as (row & -> & _). reflexivity.
  - apply spawnPiece_false in E as [-> _]. reflexivity.
Qed.

Lemma spawnPiece_advance s :
  bag_of (spawnPiece s) = advance (bag_of s) /\
  Board.piece_ (board_ (spawnPiece s)) = Piece.Piece (draw (bag_of s)).
Proof.
  split.
  - unfold Tetris.spawnPiece, bag_of, advance.
    destruct (Board.spawnPiece _ (board_ s)) as [spawned b]. cbn zeta.
    unfold shuffle_back, copy_back_to_front. tetris_simpl.
    destruct (nextPiece_ s + 1 =? kNumPieces); [|reflexivity].
    destruct (shuffle _ _) as [back g]. reflexivity.
  - pose proof (spawnPiece_fields shuffle s) as (-> & _).
    apply spawnPiece_piece.
Qed.

(** The other members' updates leave the randomizer alone. *)
Lemma bag_of_moveHorizontal dCol s : bag_of (moveHorizontal dCol s) = bag_of s.
Proof.
  unfold Tetris.moveHorizontal. destruct (Board.moveHorizontal _ _) as [moved b].
  cbn zeta. now destruct (moved && _).
Qed.

Lemma lock_bag s s' :
  lock s = Some s' -> bag_of s' = bag_of s \/ bag_of s' = advance (bag_of s).
Proof.
  intros H. apply lock_cases in H as (below & b & _ & H). cbn zeta in H.
  destruct H as [[_ ->]|[(_ & _ & ->)|(_ & _ & ->)]]; [now left | | now left].
  right. now rewrite (proj1 (spawnPiece_advance _)).
Qed.

Lemma checkLock_bag s s' :
  checkLock s = Some s' -> bag_of s' = bag_of s \/ bag_of s' = advance (bag_of s).
Proof.
  unfold Tetris.checkLock. destruct (negb _).
  - intros [= <-]. now left.
  - destruct (_ || _); [|intros [= <-]; now left].
    intros H. apply lock_bag in H. exact H.
Qed.

Lemma update_running_bag softDrop moveRight moveLeft s :
  exists s1,
    update_running softDrop moveRight moveLeft s = checkLock s1 /\
    bag_of s1 = bag_of s.
Proof.
  unfold Tetris.update_running. cbn zeta.
  match goal with |- context [let '(a, b) := ?e in _] => destruct e as [mr ml] end.
  eexists. split; [reflexivity|].
  repeat match goal with
         | |- bag_of (if ?c then _ else _) = _ => destruct c
         | |- bag_of (let '(_, _) := ?e in _) = _ => destruct e
         | |- bag_of (moveHorizontal _ _) = _ => rewrite bag_of_moveHorizontal
         | |- bag_of (?f ?v ?s0) = _ => change (bag_of (f v s0)) with (bag_of s0)
         end;
    reflexivity.
Qed.

(** A command other than [restart] touches the randomizer through draws
    only, at most two of them. *)
Lemma step_draws c s s' :
  (forall level, c <> Restart level) ->
  step c s = Some s' ->
  exists k, (k <= 2)%nat /\ bag_of s' = Nat.iter k advance (bag_of s).
Proof.
  intros Hc. destruct c as [level|softDrop moveRight moveLeft|rotation|]; simpl.
  - now elim (Hc level).
  - unfold Tetris.update. destruct (pausedForLinesClear_ s).
    + destruct (flt _ _).
      * intros [= <-]. exists 0%nat. split; [lia | reflexivity].
      * match goal with |- context [update_running ?a ?b ?c ?s0] =>
          destruct (update_running_bag a b c s0) as (s1 & -> & E)
        end.
        intros H. apply checkLock_bag in H. rewrite E in H.
        assert (forall s0, bag_of (set_pausedForLinesClear false s0) = bag_of s0)
          as E1 by reflexivity.
        rewrite E1, (proj1 (spawnPiece_advance _)) in H.
        destruct H as [H|H]; [exists 1%nat | exists 2%nat];
          (split; [lia | exact H]).
    + destruct (update_running_bag softDrop moveRight moveLeft s) as (s1 & -> & E).
      intros H. apply checkLock_bag in H. rewrite E in H.
      destruct H as [H|H]; [exists 0%nat | exists 1%nat]; (split; [lia | exact H]).
  - unfold Tetris.rotate. destruct (Board.rotate _ _) as [rotated b]. cbn zeta.
    intros H. apply checkLock_bag in H.
    assert (bag_of (if rotated && isOnGround_ (set_board b s)
                    then countMoveWhileLocking (set_board b s) else set_board b s)
            = bag_of s) as E by now destruct (rotated && _).
    rewrite E in H.
    destruct H as [H|H]; [exists 0%nat | exists 1%nat]; (split; [lia | exact H]).
  - unfold Tetris.hardDrop. destruct (PieceKind_eqb _ _).
    + intros [= <-]. exists 0%nat. split; [lia | reflexivity].
    + destruct (Board.hardDrop _) as [rows b]. cbn zeta.
      intros H. apply lock_bag in H.
      destruct H as [H|H]; [exists 0%nat | exists 1%nat]; (split; [lia | exact H]).
Qed.

(** A run of commands without [restart] is a sequence of draws. *)
Lemma run_draws (cs : list Command) :
  forall s s',
    Forall (fun c => forall level, c <> Restart level) cs ->
    run shuffle pow cs s = Some s' ->
    exists k, (k <= 2 * length cs)%nat /\ bag_of s' = Nat.iter k advance (bag_of s).
Proof.
  induction cs as [|c cs IH]; intros s s' Hcs; simpl run.
  - intros [= <-]. exists 0%nat. split; [simpl; lia | reflexivity].
  - inversion Hcs as [|c0 cs0 Hc Hcs']; subst.
    destruct (step c s) as [s1|] eqn:E; [|discriminate].
    intros Hrun.
    destruct (step_draws c s s1 Hc E) as (k1 & Hk1 & E1).
    destruct (IH s1 s' Hcs' Hrun) as (k2 & Hk2 & E2).
    exists (k2 + k1)%nat. split; [simpl length; lia|].
    now rewrite E2, E1, Nat.iter_add.
Qed.

(** What [Tetris::restart] does to the randomizer before it draws: the two
    [std::shuffle] calls, on the front half and then on the back half, each
    where it is; the draw index is not reset. *)
Definition reshuffle (st : bag_state) : bag_state :=
  let '(bag, index, rng) := st in
  let n := Z.to_nat kNumPieces in
  let '(front, g) := shuffle rng (firstn n bag) in
  let bag1 := front ++ skipn n bag in
  let '(back, g') := shuffle g (skipn n bag1) in
  (firstn n bag1 ++ back, index, g').

Lemma restart_bag level s : bag_of (restart level s) = advance (reshuffle (bag_of s)).
Proof.
  unfold Tetris.restart. rewrite (proj1 (spawnPiece_advance _)). f_equal.
  unfold shuffle_back, shuffle_front, bag_of, reshuffle. tetris_simpl.
  destruct (shuffle (rng_ s) _) as [front g]. tetris_simpl.
  destruct (shuffle g _) as [back g']. reflexivity.
Qed.

Lemma reshuffle_index (st : bag_state) : index_of (reshuffle st) = index_of st.
Proof.
  destruct st as [[bag index] rng]. unfold reshuffle.
  destruct (shuffle rng _) as [front g]. cbv zeta.
  now destruct (shuffle g _) as [back g'].
Qed.


(** The bag is sound when the draw index is in 0..6 and each 7-entry half
    holds every kind once. *)
Definition bag_ok (st : bag_state) : Prop :=
  let '(bag, index, _) := st in
  0 <= index < kNumPieces /\
  Permutation all_kinds (firstn (Z.to_nat kNumPieces) bag) /\
  Permutation all_kinds (skipn (Z.to_nat kNumPieces) bag).

Lemma firstn_app_exact {A : Type} (l1 l2 : list A) (n : nat) :
  length l1 = n -> firstn n (l1 ++ l2) = l1.
Proof.
  intros <-. rewrite firstn_app, Nat.sub_diag, firstn_all. simpl. apply app_nil_r.
Qed.

Lemma skipn_app_exact {A : Type} (l1 l2 : list A) (n : nat) :
  length l1 = n -> skipn n (l1 ++ l2) = l2.
Proof.
  intros <-. rewrite skipn_app, Nat.sub_diag, skipn_all. reflexivity.
Qed.

Lemma all_kinds_length (l : list PieceKind) :
  Permutation all_kinds l -> length l = Z.to_nat kNumPieces.
Proof. intros H. apply Permutation_length in H. now rewrite <- H. Qed.

Lemma Command_is_restart (c : Command) :
  (exists level, c = Restart level) \/ (forall level, c <> Restart level).
Proof. destruct c; [left; eauto | right; discriminate ..]. Qed.

Lemma advance_ok (st : bag_state) : bag_ok st -> bag_ok (advance st).
Proof.
  destruct st as [[bag index] rng]. unfold bag_ok, advance.
  intros (Hi & Hf & Hb).
  destruct (Z.eqb_spec (index + 1) kNumPieces) as [E|E]; [|repeat split; try assumption; lia].
  pose proof (all_kinds_length _ Hb) as Lb.
  cbv zeta. rewrite Lb.
  rewrite (skipn_app_exact _ _ _ Lb), (firstn_app_exact _ _ _ Lb).
  pose proof (shuffle_permutes rng (skipn (Z.to_nat kNumPieces) bag)) as Hs.
  destruct (shuffle rng (skipn (Z.to_nat kNumPieces) bag)) as [back' rng'].
  simpl in Hs.
  rewrite (skipn_app_exact _ _ _ Lb), (firstn_app_exact _ _ _ Lb).
  unfold kNumPieces. repeat split; try lia; [assumption|].
  now apply Permutation_trans with (l' := skipn (Z.to_nat kNumPieces) bag).
Qed.

Lemma iter_advance_ok (k : nat) (st : bag_state) :
  bag_ok st -> bag_ok (Nat.iter k advance st).
Proof. intros H. induction k as [|k IH]; [exact H | now apply advance_ok]. Qed.

(** [restart] reshuffles both halves where they are, keeps the draw index
    and draws once. *)
Lemma restart_ok level s : bag_ok (bag_of s) -> bag_ok (bag_of (restart level s)).
Proof.
  intros (Hi & Hf & Hb). unfold Tetris.restart.
  rewrite (proj1 (spawnPiece_advance _)). apply advance_ok.
  unfold shuffle_back, shuffle_front. tetris_simpl.
  pose proof (shuffle_permutes (rng_ s) (firstn (Z.to_nat kNumPieces) (bag_ s))) as H1.
  destruct (shuffle (rng_ s) (firstn (Z.to_nat kNumPieces) (bag_ s))) as [front' g1].
  simpl in H1. tetris_simpl.
  assert (Permutation all_kinds front') as Hf'
    by now apply Permutation_trans with (l' := firstn (Z.to_nat kNumPieces) (bag_ s)).
  pose proof (all_kinds_length _ Hf') as Lf.
  rewrite (skipn_app_exact _ _ _ Lf), (firstn_app_exact _ _ _ Lf).
  pose proof (shuffle_permutes g1 (skipn (Z.to_nat kNumPieces) (bag_ s))) as H2.
  destruct (shuffle g1 (skipn (Z.to_nat kNumPieces) (bag_ s))) as [back' g2].
  simpl in H2. unfold bag_of, bag_ok. tetris_simpl.
  rewrite (skipn_app_exact _ _ _ Lf), (firstn_app_exact _ _ _ Lf).
  repeat split; try assumption; try apply Hi.
  now apply Permutation_trans with (l' := skipn (Z.to_nat kNumPieces) (bag_ s)).
Qed.

Lemma reachable_bag_ok s : reachable s -> bag_ok (bag_of s).
Proof.
  induction 1 as [board timeStep rng|c s s' _ IH Hstep].
  - apply restart_ok. unfold bag_of, bag_ok. tetris_simpl.
    unfold kNumPieces. simpl. repeat split; try lia; apply Permutation_refl.
  - destruct (Command_is_restart c) as [[level ->]|Hc].
    + simpl in Hstep. injection Hstep as <-. now apply restart_ok.
    + destruct (step_draws c s s' Hc Hstep) as (k & _ & E).
      rewrite E. now apply iter_advance_ok.
Qed.

Lemma length_seven {A : Type} (l : list A) :
  length l = 7%nat -> exists a0 a1 a2 a3 a4 a5 a6, l = [a0; a1; a2; a3; a4; a5; a6].
Proof.
  intros H.
  destruct l as [|a0 [|a1 [|a2 [|a3 [|a4 [|a5 [|a6 [|a7 l]]]]]]]]; try discriminate H.
  now exists a0, a1, a2, a3, a4, a5, a6.
Qed.

(** C6, amended.  In every controller state the commands reach, the draw
    index is in 0..6 and each 7-entry half of the bag holds each of the 7
    kinds exactly once.  The controller's [spawnPiece] is a draw: it spawns
    the kind at the draw index and advances the randomizer.  As long as no
    [restart] comes between them, the draws follow one another: a command
    other than [restart] touches the randomizer through draws only, and so
    does a run of such commands.  For such draws, from a bag boundary (draw
    index 0) the next 7 deliver the front half, entry by entry: each of the
    7 kinds exactly once; the draw index runs 0, 1, ..., 6 and is back at 0;
    and over these 7 draws the bag is renewed exactly once, at the last of
    them: the front half takes the old back half as it is and only the back
    half is reshuffled, by one call of the shuffle.  [restart] is what breaks
    the sequence: it reshuffles both halves where they are, keeps the draw
    index and draws once, so that 7 draws from a bag boundary with a
    [restart] among them come from two unrelated orders of the front half. *)
Theorem bag_draws_each_kind_once :
  (forall s, reachable s -> bag_ok (bag_of s)) /\
  (forall s,
     bag_of (spawnPiece s) = advance (bag_of s) /\
     Board.piece_ (board_ (spawnPiece s)) = Piece.Piece (draw (bag_of s))) /\
  (forall c s s',
     (forall level, c <> Restart level) -> step c s = Some s' ->
     exists k, (k <= 2)%nat /\ bag_of s' = Nat.iter k advance (bag_of s)) /\
  (forall cs s s',
     Forall (fun c => forall level, c <> Restart level) cs ->
     run shuffle pow cs s = Some s' ->
     exists k, (k <= 2 * length cs)%nat /\ bag_of s' = Nat.iter k advance (bag_of s)) /\
  (forall level s,
     bag_of (restart level s) = advance (reshuffle (bag_of s)) /\
     index_of (reshuffle (bag_of s)) = nextPiece_ s) /\
  (forall s,
     reachable s -> nextPiece_ s = 0 ->
     let front := firstn 7 (bag_ s) in
     let back := skipn 7 (bag_ s) in
     map draw (draws_from 7 (bag_of s)) = front /\
     Permutation all_kinds (map draw (draws_from 7 (bag_of s))) /\
     NoDup (map draw (draws_from 7 (bag_of s))) /\
     map index_of (draws_from 8 (bag_of s)) = [0; 1; 2; 3; 4; 5; 6; 0] /\
     Nat.iter 6 advance (bag_of s) = (bag_ s, 6, rng_ s) /\
     Nat.iter 7 advance (bag_of s) =
       (back ++ fst (shuffle (rng_ s) back), 0, snd (shuffle (rng_ s) back))).
Proof.
  split; [exact reachable_bag_ok|]. split; [exact spawnPiece_advance|].
  split; [exact step_draws|].
  split; [intros cs s s'; apply run_draws|].
  split; [intros level s; split; [apply restart_bag | apply reshuffle_index]|].
  intros s Hr H0 front back.
  destruct (reachable_bag_ok s Hr) as (_ & Hf & Hb).
  change (Z.to_nat kNumPieces) with 7%nat in Hf, Hb. fold front in Hf. fold back in Hb.
  assert (bag_ s = front ++ back) as Ebag by (symmetry; apply firstn_skipn).
  assert (NoDup front) as Hnd.
  { apply (Permutation_NoDup Hf). unfold all_kinds.
    repeat (constructor; [simpl; intuition discriminate|]). constructor. }
  destruct (length_seven front) as (a0 & a1 & a2 & a3 & a4 & a5 & a6 & Ef);
    [now rewrite <- (Permutation_length Hf)|].
  destruct (length_seven back) as (b0 & b1 & b2 & b3 & b4 & b5 & b6 & Eb);
    [now rewrite <- (Permutation_length Hb)|].
  assert (map draw (draws_from 7 (bag_of s)) = front /\
          map index_of (draws_from 8 (bag_of s)) = [0; 1; 2; 3; 4; 5; 6; 0] /\
          Nat.iter 6 advance (bag_of s) = (bag_ s, 6, rng_ s) /\
          Nat.iter 7 advance (bag_of s) =
            (back ++ fst (shuffle (rng_ s) back), 0, snd (shuffle (rng_ s) back)))
    as (H1 & H2 & H3 & H4).
  { unfold bag_of. rewrite H0, Ebag, Ef, Eb.
    cbv.
    match goal with |- context [shuffle ?g ?l] => destruct (shuffle g l) as [back' rng'] end.
    repeat split. }
  repeat split; try assumption; rewrite H1; assumption.
Qed.

End Bag.

(** ** Games played on the board of game.cpp *)

(** The runs below fix what the model leaves open: the engine is one whose
    shuffles return the range in the order it has (one of the outcomes
    [std::shuffle] can produce), so that the kinds come as I, J, L, O, S, T,
    Z; [std::pow] is needed for the exponents 0 and 1 only, where it is exact;
    the board is the 20 x 10 board of game.cpp. *)
Definition keep_order (rng : unit) (range : list PieceKind) : list PieceKind * unit :=
  (range, rng).

Definition pow_0_1 (x y : float) : float :=
  if PrimFloat.eqb y 0 then 1%float else x.

Definition new_game (timeStep : float) : Tetris.t unit :=
  Tetris.Tetris keep_order pow_0_1 (Board.Board 20 10) timeStep tt.

Definition play (cs : list Tetris.Command) (s : Tetris.t unit) : option (Tetris.t unit) :=
  Tetris.run keep_order pow_0_1 cs s.

Definition after (cs : list Tetris.Command) (s : Tetris.t unit) : Tetris.t unit :=
  match play cs s with
  | Some s' => s'
  | None => s
  end.

(** One frame with the left key, the right key, the down key, or no key
    held, and the hard-drop key. *)
Definition left : Tetris.Command := Tetris.Update false false true.
Definition right : Tetris.Command := Tetris.Update false true false.
Definition down : Tetris.Command := Tetris.Update true false false.
Definition idle : Tetris.Command := Tetris.Update false false false.
Definition drop : Tetris.Command := Tetris.HardDrop.

Lemma run_reachable {Rng : Type} shuffle pow (cs : list Tetris.Command) :
  forall s s' : Tetris.t Rng,
    Tetris.reachable shuffle pow s -> Tetris.run shuffle pow cs s = Some s' ->
    Tetris.reachable shuffle pow s'.
Proof.
  induction cs as [|c cs IH]; intros s s' Hr; simpl.
  - now intros [= <-].
  - destruct (Tetris.step shuffle pow c s) as [s1|] eqn:E; [|discriminate].
    apply IH. now apply Tetris.reachable_step with (c := c) (s := s).
Qed.

Lemma new_game_reachable (timeStep : float) :
  Tetris.reachable keep_order pow_0_1 (new_game timeStep).
Proof. unfold new_game. apply Tetris.reachable_new. Qed.

Lemma after_reachable (cs : list Tetris.Command) (s : Tetris.t unit) :
  Tetris.reachable keep_order pow_0_1 s -> Tetris.reachable keep_order pow_0_1 (after cs s).
Proof.
  intros Hs. unfold after. destruct (play cs s) as [s'|] eqn:E; [|exact Hs].
  exact (run_reachable _ _ cs s s' Hs E).
Qed.

(** *** A game that ends on a refused spawn *)

(** Seven pieces are dropped where they spawn, the second I piece is moved
    to the right wall, and four more pieces are dropped where they spawn.
    The last of them, an S piece, locks with tiles in rows -1 and 0, and the
    T piece drawn next is refused at its start position. *)
Definition refused_spawn_game : Tetris.t unit :=
  after (repeat drop 7 ++ [right; idle; right; idle; right; drop] ++ repeat drop 4)
        (new_game 0.005).

(** C2, refuted as stated.  In [refused_spawn_game], reached through the
    commands, the last spawn was refused and the game is over; yet the board
    holds an active piece, the refused T piece at (-2, 3), and a further
    [hardDrop] is not a no-op on the board: it freezes that piece into the
    grid (the tile at row 0, column 5 turns from empty to purple) and draws
    the next piece. *)
Lemma refused_spawn_not_inert :
  Tetris.reachable keep_order pow_0_1 refused_spawn_game /\
  Tetris.gameOver_ refused_spawn_game = true /\
  Piece.kind_ (Board.piece_ (Tetris.board_ refused_spawn_game)) = kPieceT /\
  (Board.row_ (Tetris.board_ refused_spawn_game),
   Board.col_ (Tetris.board_ refused_spawn_game)) = (-2, 3) /\
  Board.isPositionPossible (Tetris.board_ refused_spawn_game) (-2) 3
    (Piece.Piece kPieceT) = false /\
  exists s',
    Tetris.hardDrop keep_order refused_spawn_game = Some s' /\
    Board.tileAt (Tetris.board_ refused_spawn_game) 0 5 = kEmpty /\
    Board.tileAt (Tetris.board_ s') 0 5 = kPurple /\
    Tetris.nextPiece_ refused_spawn_game = 6 /\
    Tetris.nextPiece_ s' = 0.
Proof.
  split; [unfold refused_spawn_game; apply after_reachable, new_game_reachable|].
  repeat (split; [vm_compute; reflexivity|]).
  eexists. split; [vm_compute; reflexivity|].
  vm_compute. auto.
Qed.

(** The state of that game in which [lock] calls [spawnPiece] for the T
    piece: the S piece has just been frozen. *)
Definition before_refused_spawn : Tetris.t unit :=
  let s := after (repeat drop 7 ++ [right; idle; right; idle; right; drop] ++ repeat drop 3)
                 (new_game 0.005) in
  let s0 := Tetris.set_isOnGround false (Tetris.set_lockingTimer 0 (dropped s)) in
  match Board.frozePiece (Tetris.board_ s0) with
  | Some (_, b) => Tetris.set_board b s0
  | None => s0
  end.

Lemma spawnPiece_refused_witness :
  Tetris.gameOver_ (Tetris.spawnPiece keep_order before_refused_spawn) = true /\
  Board.tiles_ (Tetris.board_ (Tetris.spawnPiece keep_order before_refused_spawn)) =
  Board.tiles_ (Tetris.board_ before_refused_spawn).
Proof.
  pose proof (spawnPiece_refused keep_order before_refused_spawn
                ltac:(vm_compute; reflexivity)) as H.
  cbv zeta in H. destruct H as (H1 & H2 & _). split; assumption.
Defined.

(** *** A game that completes a line *)

(** The I piece is moved to columns 0-3 and dropped, the J piece to columns
    4-6 and dropped, and the L piece is moved to columns 7-9: its hard drop
    will complete row 19. *)
Definition line_commands : list Tetris.Command :=
  [left; idle; left; idle; left; drop;
   right; drop;
   idle; right; idle; right; idle; right; idle; right].

Definition before_line (timeStep : float) : Tetris.t unit :=
  after line_commands (new_game timeStep).



(** *** The pause after a line clear *)

(** C4, the failing input.  With a time step of 0.25 s, the L piece is
    dropped, row 19 is complete and the controller pauses; the second
    [update] after that ends the pause with [linesClearTimer_] at 0.5, where
    it stays: [linesClearPausePercent()] is 0.5 / 0.3, above 1. *)
Lemma linesClearPausePercent_above_one :
  exists s,
    play (line_commands ++ [drop; idle; idle]) (new_game 0.25) = Some s /\
    Tetris.reachable keep_order pow_0_1 s /\
    Tetris.pausedForLinesClear_ s = false /\
    Tetris.linesClearTimer_ s = 0.5%float /\
    Tetris.flt 1 (Tetris.linesClearPausePercent s) = true.
Proof.
  eexists. split; [vm_compute; reflexivity|].
  split; [|vm_compute; auto].
  apply (run_reachable keep_order pow_0_1 (line_commands ++ [drop; idle; idle])
           (new_game 0.25)); [apply new_game_reachable | vm_compute; reflexivity].
Qed.

(** The same with the time step of game.cpp, 0.005 s: sixty frames end the
    pause, the sixty additions of 0.005 give a [double] just above 0.3, and
    the quotient is just above 1. *)
Lemma linesClearPausePercent_above_one_game_step :
  exists s,
    play (line_commands ++ [drop] ++ repeat idle 60) (new_game 0.005) = Some s /\
    Tetris.pausedForLinesClear_ s = false /\
    Tetris.flt 1 (Tetris.linesClearPausePercent s) = true.
Proof.
  eexists. split; [vm_compute; reflexivity|]. vm_compute. auto.
Qed.

(** *** An O piece on the ground *)

(** Three pieces are dropped where they spawn and the O piece is brought
    down with the down key, with a time step of 0.25 s: after fourteen
    frames it rests on the L piece, flagged grounded, with 0.25 s on the
    locking timer. *)
Definition grounded_O : Tetris.t unit :=
  after ([drop; drop; drop] ++ repeat down 14) (new_game 0.25).

Lemma rotate_O_piece_witness :
  Board.isOnGround (Tetris.board_ grounded_O) = true /\
  Tetris.lockingTimer_ grounded_O = 0.25%float /\
  exists s',
    Tetris.rotate keep_order Rotation.kRight grounded_O = Some s' /\
    Tetris.lockingTimer_ s' = 0.25%float /\
    Tetris.nMovesWhileLocking_ s' = Tetris.nMovesWhileLocking_ grounded_O /\
    Tetris.board_ s' = Tetris.board_ grounded_O.
Proof.
  split; [vm_compute; reflexivity|]. split; [vm_compute; reflexivity|].
  destruct (proj2 (rotate_O_piece keep_order pow_0_1) Rotation.kRight grounded_O
              (after_reachable _ _ (new_game_reachable _)) ltac:(vm_compute; reflexivity))
    as (s' & H1 & _ & H2 & H3 & H4).
  exists s'. split; [exact H1|]. split; [|split; assumption].
  rewrite H2. vm_compute. reflexivity.
Defined.

(** *** The bag of a running game *)

Lemma keep_order_permutes (rng : unit) (range : list PieceKind) :
  Permutation range (fst (keep_order rng range)).
Proof. apply Permutation_refl. Qed.

(** After six hard drops the first seven kinds have been drawn and the draw
    index is back at 0. *)
Definition at_bag_boundary : Tetris.t unit := after (repeat drop 6) (new_game 0.005).

Lemma bag_draws_each_kind_once_witness :
  Tetris.nextPiece_ at_bag_boundary = 0 /\
  Permutation all_kinds
    (map draw (draws_from keep_order 7 (bag_of at_bag_boundary))).
Proof.
  split; [vm_compute; reflexivity|].
  destruct (bag_draws_each_kind_once keep_order pow_0_1 keep_order_permutes)
    as (_ & _ & _ & _ & _ & H).
  destruct (H at_bag_boundary (after_reachable _ _ (new_game_reachable _)) ltac:(vm_compute; reflexivity))
    as (_ & Hp & _).
  exact Hp.
Defined.

(** *** A restart in the middle of a bag *)

(** An engine whose shuffles reverse the range, another of the outcomes
    [std::shuffle] can produce. *)
Definition reverse_order (rng : unit) (range : list PieceKind) : list PieceKind * unit :=
  (rev range, rng).

Lemma reverse_order_permutes (rng : unit) (range : list PieceKind) :
  Permutation range (fst (reverse_order rng range)).
Proof. apply Permutation_rev. Qed.

(** A controller with that engine, restarted six times: every [restart]
    draws once and keeps the draw index, which is back at 0. *)
Definition restarted_game : Tetris.t unit :=
  let s := Tetris.Tetris reverse_order pow_0_1 (Board.Board 20 10) 0.005 tt in
  match Tetris.run reverse_order pow_0_1 (repeat (Tetris.Restart 1) 6) s with
  | Some s' => s'
  | None => s
  end.

(** For each command of a run, the draw index before it and the kind of the
    piece in play after it. *)
Fixpoint spawns {Rng : Type} shuffle pow (cs : list Tetris.Command) (s : Tetris.t Rng)
  : list (Z * PieceKind) :=
  match cs with
  | [] => []
  | c :: cs' =>
      match Tetris.step shuffle pow c s with
      | Some s' =>
          (Tetris.nextPiece_ s, Piece.kind_ (Board.piece_ (Tetris.board_ s')))
            :: spawns shuffle pow cs' s'
      | None => []
      end
  end.

(** C6, refuted as stated.  [restarted_game] is reached through the commands
    and stands at a bag boundary.  Seven commands follow, each of which draws
    once, at the draw indices 0, 1, ..., 6: four hard drops, a [restart] and
    two more hard drops.  The seven kinds drawn are Z, T, S, O, S, T, Z: the
    kinds I, J and L are missing and three kinds come twice, because
    [restart] has reshuffled the front half in the middle of it.  Without
    the [restart] the same seven draws give every kind once, and the renewal
    of the bag at the seventh of them copies the old back half to the front
    as it is: one half is reshuffled, not two. *)
Lemma restart_breaks_bag_cycle :
  Tetris.reachable reverse_order pow_0_1 restarted_game /\
  Tetris.nextPiece_ restarted_game = 0 /\
  spawns reverse_order pow_0_1 [drop; drop; drop; drop; Tetris.Restart 1; drop; drop]
    restarted_game =
    [(0, kPieceZ); (1, kPieceT); (2, kPieceS); (3, kPieceO);
     (4, kPieceS); (5, kPieceT); (6, kPieceZ)] /\
  ~ Permutation all_kinds
      (map snd (spawns reverse_order pow_0_1
                  [drop; drop; drop; drop; Tetris.Restart 1; drop; drop] restarted_game)) /\
  spawns reverse_order pow_0_1 (repeat drop 7) restarted_game =
    [(0, kPieceZ); (1, kPieceT); (2, kPieceS); (3, kPieceO);
     (4, kPieceL); (5, kPieceJ); (6, kPieceI)] /\
  exists s',
    Tetris.run reverse_order pow_0_1 (repeat drop 7) restarted_game = Some s' /\
    Tetris.nextPiece_ s' = 0 /\
    firstn 7 (Tetris.bag_ s') = skipn 7 (Tetris.bag_ restarted_game) /\
    skipn 7 (Tetris.bag_ s') = rev (skipn 7 (Tetris.bag_ restarted_game)).
Proof.
  split.
  { unfold restarted_game. cbv zeta.
    destruct (Tetris.run reverse_order pow_0_1 (repeat (Tetris.Restart 1) 6) _) as [s'|] eqn:E;
      [|apply Tetris.reachable_new].
    exact (run_reachable _ _ _ _ _ (Tetris.reachable_new _ _ _ _ _) E). }
  split; [vm_compute; reflexivity|].
  assert (spawns reverse_order pow_0_1 [drop; drop; drop; drop; Tetris.Restart 1; drop; drop]
            restarted_game =
          [(0, kPieceZ); (1, kPieceT); (2, kPieceS); (3, kPieceO);
           (4, kPieceS); (5, kPieceT); (6, kPieceZ)]) as E
    by (vm_compute; reflexivity).
  split; [exact E|]. split.
  { rewrite E. intros H.
    assert (In kPieceI all_kinds) as Hin by (simpl; auto).
    apply (Permutation_in _ H) in Hin. simpl in Hin.
    repeat (destruct Hin as [Hin|Hin]; [discriminate Hin|]). exact Hin. }
  split; [vm_compute; reflexivity|].
  eexists. split; [vm_compute; reflexivity|].
  vm_compute. auto.
Qed.

(** *** Fourteen moves on the ground *)





(** * Further properties of the code *)

(** ** Pieces under rotation *)

(** The tiles of a shape: its entries other than [kEmpty]. *)
Definition tiles_of (shape : list TileColor) : list TileColor :=
  filter (fun c => negb (TileColor_eqb c kEmpty)) shape.

(** X1.  On every well-formed piece (a constructed piece rotated any number
    of times) [Piece::rotate(kLeft)] undoes [Piece::rotate(kRight)] and
    [Piece::rotate(kRight)] undoes [Piece::rotate(kLeft)]: shape and
    rotation state come back, the state wrapping between 0 and 3. *)
Theorem rotate_left_right_inverse (p : Piece.t) :
  Piece.wf p ->
  Piece.rotate Rotation.kLeft (Piece.rotate Rotation.kRight p) = p /\
  Piece.rotate Rotation.kRight (Piece.rotate Rotation.kLeft p) = p.
Proof.
  intros Hwf. destruct (wf_canon p Hwf) as (kind & n & Hn & ->).
  destruct n as [|[|[|[|n]]]]; [| | | |lia]; destruct kind; vm_compute; split; reflexivity.
Qed.

Lemma rotate_left_right_inverse_witness :
  let p := Piece.rotate Rotation.kLeft (Piece.Piece kPieceS) in
  Piece.rotate Rotation.kLeft (Piece.rotate Rotation.kRight p) = p.
Proof.
  exact (proj1 (rotate_left_right_inverse _
           (Piece.wf_rotate Rotation.kLeft _ (Piece.wf_new kPieceS)))).
Defined.

(** X2.  Four rotations in the same direction, left or right, give back
    every well-formed piece, whatever its kind and its rotation state. *)
Theorem rotate_four_times (rotation : Rotation.t) (p : Piece.t) :
  Piece.wf p ->
  Piece.rotate rotation (Piece.rotate rotation
    (Piece.rotate rotation (Piece.rotate rotation p))) = p.
Proof.
  intros Hwf. destruct (wf_canon p Hwf) as (kind & n & Hn & ->).
  destruct n as [|[|[|[|n]]]]; [| | | |lia]; destruct kind, rotation; vm_compute; reflexivity.
Qed.

Lemma rotate_four_times_witness :
  let p := Piece.rotate Rotation.kRight (Piece.Piece kPieceI) in
  Piece.rotate Rotation.kLeft (Piece.rotate Rotation.kLeft
    (Piece.rotate Rotation.kLeft (Piece.rotate Rotation.kLeft p))) = p.
Proof.
  exact (rotate_four_times Rotation.kLeft _
           (Piece.wf_rotate Rotation.kRight _ (Piece.wf_new kPieceI))).
Defined.

(** X3.  Every well-formed piece keeps the data its constructor gave it:
    the rotation state is in 0..3, the shape has [bBoxSide * bBoxSide]
    entries, the bounding box has side 4 for I, 2 for O, 3 for J, L, S, T, Z
    and 0 for the none piece, the colour is the kind's colour, and the shape
    holds exactly four tiles, all of that colour (none for the none piece).
    Rotating moves the tiles inside the bounding box and changes nothing
    else. *)
Theorem wf_piece_data (p : Piece.t) :
  Piece.wf p ->
  0 <= Piece.state_ p < Piece.kNumStates_ /\
  Z.of_nat (length (Piece.shape_ p)) = Piece.bBoxSide_ p * Piece.bBoxSide_ p /\
  Piece.bBoxSide_ p =
    match Piece.kind_ p with
    | kNone => 0 | kPieceI => 4 | kPieceO => 2 | _ => 3
    end /\
  Piece.color_ p = TileColor_of_kind (Piece.kind_ p) /\
  tiles_of (Piece.shape_ p) =
    match Piece.kind_ p with
    | kNone => []
    | _ => repeat (Piece.color_ p) 4
    end /\
  (forall rotation,
     Piece.kind_ (Piece.rotate rotation p) = Piece.kind_ p /\
     Piece.color_ (Piece.rotate rotation p) = Piece.color_ p /\
     Piece.bBoxSide_ (Piece.rotate rotation p) = Piece.bBoxSide_ p /\
     Piece.kicksRight_ (Piece.rotate rotation p) = Piece.kicksRight_ p /\
     Piece.kicksLeft_ (Piece.rotate rotation p) = Piece.kicksLeft_ p).
Proof.
  intros Hwf. destruct (wf_canon p Hwf) as (kind & n & Hn & ->).
  assert (forall rotation q,
     Piece.kind_ (Piece.rotate rotation q) = Piece.kind_ q /\
     Piece.color_ (Piece.rotate rotation q) = Piece.color_ q /\
     Piece.bBoxSide_ (Piece.rotate rotation q) = Piece.bBoxSide_ q /\
     Piece.kicksRight_ (Piece.rotate rotation q) = Piece.kicksRight_ q /\
     Piece.kicksLeft_ (Piece.rotate rotation q) = Piece.kicksLeft_ q) as Hrot.
  { intros rotation q. unfold Piece.rotate.
    destruct (PieceKind_eqb _ _); [auto|]. destruct rotation; auto. }
  repeat split; try apply Hrot;
    destruct n as [|[|[|[|n]]]]; try lia; destruct kind; vm_compute; congruence.
Qed.

Lemma wf_piece_data_witness :
  tiles_of (Piece.shape_ (Piece.rotate Rotation.kRight (Piece.Piece kPieceZ))) =
  repeat kRed 4.
Proof.
  exact (proj1 (proj2 (proj2 (proj2 (proj2
           (wf_piece_data _ (Piece.wf_rotate Rotation.kRight _ (Piece.wf_new kPieceZ)))))))).
Defined.

(** X4.  For every well-formed piece other than the O piece and the none
    piece, and for both directions, [Piece::kicks] reads inside its table
    (the rotation state indexes one of its four rows), the list it returns
    has five offsets, and the first of them is (0, 0). *)
Theorem kicks_in_table (rotation : Rotation.t) (p : Piece.t) :
  Piece.wf p -> Piece.kind_ p <> kPieceO -> Piece.kind_ p <> kNone ->
  vat (match rotation with
       | Rotation.kRight => Piece.kicksRight_ p
       | Rotation.kLeft => Piece.kicksLeft_ p
       end) (Piece.state_ p) = Some (Piece.kicks rotation p) /\
  length (Piece.kicks rotation p) = 5%nat /\
  hd_error (Piece.kicks rotation p) = Some (0, 0).
Proof.
  intros Hwf HO HN. destruct (wf_canon p Hwf) as (kind & n & Hn & ->).
  rewrite canon_kind in HO, HN by exact Hn.
  destruct n as [|[|[|[|n]]]]; [| | | |lia];
    destruct kind; try congruence; destruct rotation; vm_compute; repeat split.
Qed.

Lemma kicks_in_table_witness :
  hd_error (Piece.kicks Rotation.kLeft (Piece.rotate Rotation.kRight (Piece.Piece kPieceI)))
  = Some (0, 0).
Proof.
  exact (proj2 (proj2 (kicks_in_table Rotation.kLeft _
           (Piece.wf_rotate Rotation.kRight _ (Piece.wf_new kPieceI))
           ltac:(discriminate) ltac:(discriminate)))).
Defined.

(** ** The collision test, rotation with kicks, and the ghost row *)

Section BoardMoves.

Import Board.

Implicit Types (b : Board.t) (p : Piece.t).

(** X5.  [isPositionPossible(row, col, piece)] holds exactly when the piece
    is not the none piece and every tile of its shape, placed with the top
    left corner of the bounding box at [(row, col)], falls on a cell inside
    the grid (rows -2 .. nRows-1, columns 0 .. nCols-1) whose tile is
    [kEmpty].  The walls, the floor and the space above the two hidden rows
    count as filled. *)
Theorem isPositionPossible_iff_free b row col p :
  isPositionPossible b row col p = true <->
  Piece.kind_ p <> kNone /\
  forall pieceRow pieceCol,
    0 <= pieceRow < Piece.bBoxSide_ p -> 0 <= pieceCol < Piece.bBoxSide_ p ->
    vget kEmpty (Piece.shape_ p) (pieceRow * Piece.bBoxSide_ p + pieceCol) <> kEmpty ->
    (- kRowsAbove_ <= row + pieceRow < nRows b /\ 0 <= col + pieceCol < nCols b) /\
    tileAt b (row + pieceRow) (col + pieceCol) = kEmpty.
Proof.
  rewrite isPositionPossible_spec.
  split; intros [Hk H]; (split; [exact Hk|]); intros pr pc Hpr Hpc.
  - intros Ho.
    assert (occupied p pr pc = true) as Ho'
      by (unfold occupied; now apply negb_true_iff, TileColor_eqb_neq).
    destruct (isTileFilled b (row + pr) (col + pc)) eqn:Ef.
    { exfalso. apply (H pr pc Hpr Hpc). now split. }
    pose proof (isTileFilled_false_in_grid _ _ _ Ef) as [Hr Hc].
    split; [now split|].
    rewrite isTileFilled_in_grid in Ef by assumption.
    now apply negb_false_iff, TileColor_eqb_eq in Ef.
  - intros [Ho Hf]. unfold occupied in Ho.
    apply negb_true_iff, TileColor_eqb_neq in Ho.
    destruct (H pr pc Hpr Hpc Ho) as [[Hr Hc] Ht].
    rewrite isTileFilled_in_grid, Ht in Hf by assumption. discriminate.
Qed.

(** The kick loop applies the first kick of the list that fits. *)
Lemma try_kicks_first testPiece kicks b :
  (exists (n : nat) dRow dCol,
     nth_error kicks n = Some (dRow, dCol) /\
     isPositionPossible b (row_ b + dRow) (col_ b + dCol) testPiece = true /\
     (forall (m : nat) dr dc, (m < n)%nat -> nth_error kicks m = Some (dr, dc) ->
        isPositionPossible b (row_ b + dr) (col_ b + dc) testPiece = false) /\
     try_kicks testPiece kicks b =
       (true, updateGhostRow (set_col (col_ b + dCol)
                (set_row (row_ b + dRow) (set_piece testPiece b))))) \/
  ((forall dr dc, In (dr, dc) kicks ->
      isPositionPossible b (row_ b + dr) (col_ b + dc) testPiece = false) /\
   try_kicks testPiece kicks b = (false, b)).
Proof.
  induction kicks as [|[dRow dCol] rest IH]; simpl.
  - right. split; [intros dr dc []|reflexivity].
  - destruct (isPositionPossible b (row_ b + dRow) (col_ b + dCol) testPiece) eqn:E.
    + left. exists 0%nat, dRow, dCol. repeat split; try assumption.
      intros m dr dc Hm. lia.
    + destruct IH as [(n & r & c & Hn & Hv & Hbefore & Ht)|[Hall Ht]].
      * left. exists (S n), r, c. repeat split; try assumption.
        intros [|m] dr dc Hm Hnth; simpl in Hnth.
        -- now injection Hnth as <- <-.
        -- apply (Hbefore m); [lia | exact Hnth].
      * right. split; [|exact Ht].
        intros dr dc [[= <- <-]|Hin]; [exact E | now apply Hall].
Qed.

(** What [Board::rotate] does with the kicks of its piece. *)
Definition first_kick_applied (rotation : Rotation.t) b : Prop :=
  let testPiece := Piece.rotate rotation (piece_ b) in
  let kicks := Piece.kicks rotation (piece_ b) in
  (exists (n : nat) dRow dCol,
     nth_error kicks n = Some (dRow, dCol) /\
     isPositionPossible b (row_ b + dRow) (col_ b + dCol) testPiece = true /\
     (forall (m : nat) dr dc, (m < n)%nat -> nth_error kicks m = Some (dr, dc) ->
        isPositionPossible b (row_ b + dr) (col_ b + dc) testPiece = false) /\
     rotate rotation b =
       (true, updateGhostRow (set_col (col_ b + dCol)
                (set_row (row_ b + dRow) (set_piece testPiece b))))) \/
  ((forall dr dc, In (dr, dc) kicks ->
      isPositionPossible b (row_ b + dr) (col_ b + dc) testPiece = false) /\
   rotate rotation b = (false, b)).

(** X6.  For a piece other than O and none, [Board::rotate] tries the kicks
    of the piece's current rotation state in their order and applies the
    first one at which the rotated piece collides with nothing: the piece is
    replaced by the rotated one, the anchor is moved by that kick, the ghost
    row is recomputed and [true] is returned.  When the rotated piece
    collides at every kick, [false] is returned and the board is exactly as
    before: piece, anchor and ghost row are untouched. *)
Theorem rotate_applies_first_kick (rotation : Rotation.t) b :
  Piece.kind_ (piece_ b) <> kPieceO -> Piece.kind_ (piece_ b) <> kNone ->
  first_kick_applied rotation b.
Proof.
  intros HO HN. unfold first_kick_applied, rotate.
  apply PieceKind_eqb_neq in HO, HN. rewrite HO, HN. simpl orb. cbv iota zeta.
  apply try_kicks_first.
Qed.

(** X7.  A rotation that is not obstructed does not move the piece: when the
    rotated piece fits at the current anchor, [Board::rotate] succeeds with
    the anchor where it was (the first kick of every list is (0, 0)), and
    only the piece and the ghost row change. *)
Theorem rotate_in_place (rotation : Rotation.t) b :
  Piece.wf (piece_ b) -> Piece.kind_ (piece_ b) <> kPieceO ->
  isPositionPossible b (row_ b) (col_ b) (Piece.rotate rotation (piece_ b)) = true ->
  rotate rotation b =
    (true, updateGhostRow (set_piece (Piece.rotate rotation (piece_ b)) b)).
Proof.
  intros Hwf HO Hv.
  assert (Piece.kind_ (piece_ b) <> kNone) as HN.
  { apply isPositionPossible_kind in Hv. now rewrite rotate_kind in Hv. }
  destruct (kicks_defined rotation (piece_ b) Hwf HO HN) as (l & _ & El & Hhd).
  unfold rotate. apply PieceKind_eqb_neq in HO, HN. rewrite HO, HN. simpl orb. cbv iota zeta.
  rewrite El. destruct l as [|[dRow dCol] rest]; [discriminate|].
  injection Hhd as -> ->. simpl. rewrite !Z.add_0_r, Hv.
  destruct b; reflexivity.
Qed.

(** The ghost row of a piece in play that moves vertically by one row at
    most is its landing row. *)
Lemma in_play_landing b :
  in_play (fun dRow => -1 <= dRow <= 1) b -> landing b (ghostRow_ b).
Proof.
  intros Hplay. pose proof (in_play_wf _ _ Hplay) as Hwf. revert Hwf.
  assert (Hupd : forall b0, Piece.wf (piece_ b0) -> valid b0 (row_ b0) = true ->
            landing (updateGhostRow b0) (ghostRow_ (updateGhostRow b0))).
  { intros b0 Hwf Hv. apply updateGhostRow_landing; [|exact Hv].
    apply wf_has_cell; [exact Hwf | now apply isPositionPossible_kind in Hv]. }
  assert (Hsame : forall b0 r0 r, valid (set_row r0 b0) r = valid b0 r).
  { intros b0 r0 r. unfold valid. simpl.
    now rewrite (isPositionPossible_ext b0) by reflexivity. }
  induction Hplay as [kind b b' Hs|dCol b _ IH|dRow b Hd _ IH|rotation b _ IH|b _ IH].
  - apply spawnPiece_true in Hs as (row & -> & Hv). intros Hwf. now apply Hupd.
  - unfold moveHorizontal.
    destruct (isPositionPossible b (row_ b) (col_ b + dCol) (piece_ b)) eqn:E;
      simpl; [|exact IH].
    intros Hwf. apply Hupd; [exact Hwf|].
    unfold valid. simpl. now rewrite (isPositionPossible_ext b) by reflexivity.
  - unfold moveVertical.
    destruct (isPositionPossible b (row_ b + dRow) (col_ b) (piece_ b)) eqn:E;
      simpl; [|exact IH].
    intros Hwf. destruct (IH Hwf) as (H1 & H2 & H3).
    assert (row_ b + dRow <= ghostRow_ b) as Hle.
    { destruct (Z.le_gt_cases (row_ b + dRow) (ghostRow_ b)); [assumption|].
      assert (row_ b + dRow = ghostRow_ b + 1) as Heq by lia.
      unfold valid in H3. rewrite <- Heq in H3. congruence. }
    unfold landing. simpl. rewrite !Hsame. split; [exact Hle|]. split; [|exact H3].
    intros r Hr. rewrite Hsame.
    destruct (Z.eq_dec r (row_ b + dRow)) as [->|]; [exact E|].
    apply H2. lia.
  - unfold rotate. destruct (_ || _); [exact IH|].
    destruct (try_kicks_spec (Piece.rotate rotation (piece_ b))
                (Piece.kicks rotation (piece_ b)) b)
      as [(r & c & _ & Hv & ->)| ->]; simpl; [|exact IH].
    intros Hwf. apply Hupd; [exact Hwf|].
    unfold valid. simpl. now rewrite (isPositionPossible_ext b) by reflexivity.
  - simpl. intros Hwf. destruct (IH Hwf) as (H1 & H2 & H3).
    unfold landing. simpl. rewrite !Hsame. split; [lia|]. split; [|exact H3].
    intros r Hr. rewrite Hsame. apply H2. lia.
Qed.

(** X8.  For a piece in play (spawned successfully, then moved sideways,
    moved vertically by one row at a time, rotated or hard-dropped, in any
    order), [isOnGround()] holds exactly when the anchor row equals the
    ghost row.  [hardDrop()] returns a number of rows that is not negative,
    puts the anchor on the ghost row and leaves the piece on the ground,
    at a position where it collides with nothing. *)
Theorem grounded_iff_on_ghost_row b :
  in_play (fun dRow => -1 <= dRow <= 1) b ->
  (isOnGround b = true <-> row_ b = ghostRow_ b) /\
  0 <= fst (hardDrop b) /\
  row_ (snd (hardDrop b)) = ghostRow_ b /\
  ghostRow_ (snd (hardDrop b)) = ghostRow_ b /\
  isOnGround (snd (hardDrop b)) = true /\
  isPositionPossible (snd (hardDrop b)) (row_ (snd (hardDrop b)))
    (col_ (snd (hardDrop b))) (piece_ (snd (hardDrop b))) = true.
Proof.
  intros Hplay. destruct (in_play_landing b Hplay) as (H1 & H2 & H3).
  unfold valid in H2, H3.
  split; [|split; [|split; [|split; [|split]]]].
  - unfold isOnGround. rewrite negb_true_iff. split.
    + intros Hg. destruct (Z.eq_dec (row_ b) (ghostRow_ b)) as [|Hne]; [assumption|].
      rewrite H2 in Hg by lia. discriminate.
    + intros E. rewrite E. exact H3.
  - simpl. lia.
  - reflexivity.
  - reflexivity.
  - unfold isOnGround, hardDrop. simpl.
    rewrite (isPositionPossible_ext b) by reflexivity. now rewrite H3.
  - unfold hardDrop. simpl. rewrite (isPositionPossible_ext b) by reflexivity.
    apply H2. lia.
Qed.

End BoardMoves.

Lemma rotate_applies_first_kick_witness :
  first_kick_applied Rotation.kRight (snd (Board.spawnPiece kPieceT (Board.Board 20 10))).
Proof.
  apply rotate_applies_first_kick; vm_compute; discriminate.
Defined.

Lemma rotate_in_place_witness :
  let b := snd (Board.spawnPiece kPieceI (Board.Board 20 10)) in
  fst (Board.rotate Rotation.kLeft b) = true /\
  Board.col_ (snd (Board.rotate Rotation.kLeft b)) = Board.col_ b.
Proof.
  cbv zeta.
  rewrite (rotate_in_place Rotation.kLeft
             (snd (Board.spawnPiece kPieceI (Board.Board 20 10)))
             ltac:(vm_compute; apply (Piece.wf_new kPieceI))
             ltac:(vm_compute; discriminate)
             ltac:(vm_compute; reflexivity)).
  split; reflexivity.
Defined.

Lemma grounded_iff_on_ghost_row_witness :
  let b := snd (Board.moveVertical 1 (snd (Board.moveHorizontal 3
             (snd (Board.spawnPiece kPieceL (Board.Board 20 10)))))) in
  Board.isOnGround (snd (Board.hardDrop b)) = true.
Proof.
  intros b.
  assert (in_play (fun dRow => -1 <= dRow <= 1) b) as Hplay.
  { unfold b. apply play_moveVertical; [lia|].
    apply play_moveHorizontal.
    apply play_spawn with (kind := kPieceL) (b := Board.Board 20 10).
    vm_compute. reflexivity. }
  exact (proj1 (proj2 (proj2 (proj2 (proj2 (grounded_iff_on_ghost_row b Hplay)))))).
Defined.

(** ** Line clearing in general *)

(** A property that every iteration keeps holds after a counted loop,
    whatever its bounds. *)
Lemma for_up_inv {S : Type} (Q : S -> Prop) (body : Z -> S -> S) (n : nat) :
  (forall k s, Q s -> Q (body k s)) -> forall i s, Q s -> Q (for_up n i body s).
Proof.
  intros Hstep. induction n as [|n IH]; intros i s H; [exact H|].
  cbn [for_up]. apply IH, Hstep, H.
Qed.

Lemma for_range_inv {S : Type} (Q : S -> Prop) (body : Z -> S -> S) (lo hi : Z) (s : S) :
  (forall k s', Q s' -> Q (body k s')) -> Q s -> Q (for_range lo hi body s).
Proof. intros Hstep H. unfold for_range. now apply for_up_inv. Qed.

(** Rows [i], [i-1], ... ([n] of them), and rows [hi] down to [lo]: the
    order in which [findLinesToClear] visits them. *)
Fixpoint rows_from (n : nat) (i : Z) : list Z :=
  match n with
  | O => []
  | S n' => i :: rows_from n' (i - 1)
  end.

Definition rows_down (hi lo : Z) : list Z := rows_from (Z.to_nat (hi - lo + 1)) hi.

(** The full rows among [hi .. lo], from the bottom up, and their number. *)
Definition full_rows (b : Board.t) (hi lo : Z) : list Z :=
  filter (Board.fullRow b) (rows_down hi lo).

Definition count_full (b : Board.t) (hi lo : Z) : Z :=
  Z.of_nat (length (full_rows b hi lo)).

(** The number of full rows below row [r]. *)
Definition full_below (b : Board.t) (r : Z) : Z :=
  count_full b (Board.nRows b - 1) (r + 1).

Section Rows.

Import Board.

Implicit Types (b : Board.t).

Lemma rows_from_app (n m : nat) : forall i,
  rows_from (n + m) i = rows_from n i ++ rows_from m (i - Z.of_nat n).
Proof.
  induction n as [|n IH]; intros i.
  - simpl. now replace (i - 0) with i by lia.
  - cbn [Nat.add rows_from app]. rewrite IH. do 3 f_equal. lia.
Qed.

Lemma rows_from_length (n : nat) : forall i, length (rows_from n i) = n.
Proof. induction n as [|n IH]; intros i; simpl; [reflexivity | now rewrite IH]. Qed.

Lemma in_rows_from (n : nat) : forall i r,
  In r (rows_from n i) <-> i - Z.of_nat n < r <= i.
Proof.
  induction n as [|n IH]; intros i r; simpl; [lia|].
  rewrite IH. lia.
Qed.

Lemma rows_down_split (hi mid lo : Z) :
  lo - 1 <= mid <= hi ->
  rows_down hi lo = rows_down hi (mid + 1) ++ rows_down mid lo.
Proof.
  intros H. unfold rows_down.
  replace (Z.to_nat (hi - lo + 1))
    with (Z.to_nat (hi - (mid + 1) + 1) + Z.to_nat (mid - lo + 1))%nat by lia.
  rewrite rows_from_app. do 2 f_equal. lia.
Qed.

Lemma rows_down_one (r : Z) : rows_down r r = [r].
Proof. unfold rows_down. now replace (Z.to_nat (r - r + 1)) with 1%nat by lia. Qed.

Lemma rows_down_empty (hi lo : Z) : hi < lo -> rows_down hi lo = [].
Proof. intros H. unfold rows_down. now replace (Z.to_nat (hi - lo + 1)) with 0%nat by lia. Qed.

Lemma in_rows_down (hi lo r : Z) : In r (rows_down hi lo) <-> lo <= r <= hi.
Proof. unfold rows_down. rewrite in_rows_from. lia. Qed.

Lemma full_rows_step b (hi r : Z) :
  r <= hi ->
  full_rows b hi r = full_rows b hi (r + 1) ++ (if fullRow b r then [r] else []).
Proof.
  intros H. unfold full_rows.
  rewrite (rows_down_split hi r r) by lia.
  rewrite filter_app, rows_down_one. simpl.
  now destruct (fullRow b r).
Qed.

Lemma count_full_step b (hi r : Z) :
  r <= hi ->
  count_full b hi r = count_full b hi (r + 1) + (if fullRow b r then 1 else 0).
Proof.
  intros H. unfold count_full. rewrite (full_rows_step b hi r H), length_app.
  destruct (fullRow b r); simpl; lia.
Qed.

Lemma count_full_split b (hi mid lo : Z) :
  lo - 1 <= mid <= hi ->
  count_full b hi lo = count_full b hi (mid + 1) + count_full b mid lo.
Proof.
  intros H. unfold count_full, full_rows.
  rewrite (rows_down_split hi mid lo H), filter_app, length_app. lia.
Qed.

Lemma count_full_bound b (hi lo : Z) :
  lo <= hi + 1 -> 0 <= count_full b hi lo <= hi - lo + 1.
Proof.
  intros H. unfold count_full, full_rows. split; [lia|].
  pose proof (filter_length_le (fullRow b) (rows_down hi lo)) as Hle.
  unfold rows_down in *. rewrite rows_from_length in Hle. lia.
Qed.

Lemma count_full_empty b (hi lo : Z) : hi < lo -> count_full b hi lo = 0.
Proof. intros H. unfold count_full, full_rows. now rewrite rows_down_empty. Qed.

(** The rows below [r], down to the floor, hold at most as many full rows
    as there are rows. *)
Lemma full_below_bound b (r : Z) :
  r < nRows b -> 0 <= full_below b r <= nRows b - 1 - r.
Proof.
  intros H. unfold full_below.
  pose proof (count_full_bound b (nRows b - 1) (r + 1)). lia.
Qed.

(** A row that is not full and lies below [m] keeps the rows that land
    under it apart from the rows that land under [m]. *)
Lemma full_below_gap b (m r : Z) :
  m < r < nRows b -> fullRow b r = false ->
  m + full_below b m < r + full_below b r.
Proof.
  intros H Hf. unfold full_below.
  rewrite (count_full_split b (nRows b - 1) r (m + 1)) by lia.
  rewrite (count_full_step b r (m + 1)) by lia.
  assert (count_full b r (m + 1 + 1) <= r - (m + 1)) as Hb.
  { destruct (Z.eq_dec r (m + 1)) as [->|Hne].
    - rewrite count_full_empty by lia. lia.
    - rewrite (count_full_split b r (r - 1) (m + 1 + 1)) by lia.
      replace (r - 1 + 1) with r by ring.
      unfold count_full at 1, full_rows. rewrite rows_down_one. simpl. rewrite Hf. simpl.
      pose proof (count_full_bound b (r - 1) (m + 1 + 1)). lia. }
  destruct (fullRow b (m + 1)) eqn:E; [|lia].
  destruct (Z.eq_dec r (m + 1)) as [->|Hne]; [congruence|].
  (* row m + 1 is full, hence not r: one more row is spared *)
  rewrite (count_full_split b r (r - 1) (m + 1 + 1)) in * by lia.
  replace (r - 1 + 1) with r in * by ring.
  assert (count_full b r r = 0) as H0
    by (unfold count_full, full_rows; rewrite rows_down_one; simpl; now rewrite Hf).
  pose proof (count_full_bound b (r - 1) (m + 1 + 1)). lia.
Qed.

End Rows.

Section SweepLines.

Import Board.

Implicit Types (b : Board.t).

(** What one step of the sweep does to the list of lines and to the number
    of lines found. *)
Lemma sweep_row_lines b (row : Z) lines after k index :
  let st := sweep_row b row (lines, after, k, index) in
  fst (fst (fst st)) = lines ++ (if fullRow b row then [row] else []) /\
  snd (fst st) = k + (if fullRow b row then 1 else 0) /\
  length (snd (fst (fst st))) = length after.
Proof.
  unfold sweep_row. destruct (fullRow b row); [simpl; auto|].
  destruct (k >? 0).
  - assert (forall st0 : list TileColor * Z,
              length (fst (copy_row b (k * nCols b) st0)) = length (fst st0)) as Hlen.
    { intros st0. unfold copy_row.
      apply (for_range_inv (fun st : list TileColor * Z => length (fst st) = length (fst st0)));
        [|reflexivity].
      intros _ [a i] H. simpl in *. now rewrite vput_length. }
    specialize (Hlen (after, index)).
    destruct (copy_row b (k * nCols b) (after, index)) as [after' index'].
    simpl in *. rewrite app_nil_r. repeat split; [lia | exact Hlen].
  - simpl. rewrite app_nil_r. repeat split; lia.
Qed.

Lemma sweep_lines b (n : nat) : forall i lines after k index,
  let st := for_down n i (sweep_row b) (lines, after, k, index) in
  fst (fst (fst st)) = lines ++ filter (fullRow b) (rows_from n i) /\
  snd (fst st) = k + Z.of_nat (length (filter (fullRow b) (rows_from n i))) /\
  length (snd (fst (fst st))) = length after.
Proof.
  induction n as [|n IH]; intros i lines after k index.
  - simpl. rewrite app_nil_r. repeat split; lia.
  - cbn [for_down rows_from filter].
    pose proof (sweep_row_lines b i lines after k index) as (H1 & H2 & H3).
    destruct (sweep_row b i (lines, after, k, index)) as [[[lines' after'] k'] index'].
    simpl in H1, H2, H3. subst lines' k'.
    destruct (IH (i - 1) (lines ++ (if fullRow b i then [i] else [])) after'
                 (k + (if fullRow b i then 1 else 0)) index') as (G1 & G2 & G3).
    cbv zeta. rewrite G1, G2, G3, H3.
    destruct (fullRow b i); simpl.
    + rewrite <- app_assoc. simpl. repeat split. lia.
    + rewrite app_nil_r. repeat split. lia.
Qed.

(** [findLinesToClear] writes [linesToClear_] and [tilesAfterClear_] and
    nothing else. *)
Lemma findLinesToClear_frame b :
  nRows (findLinesToClear b) = nRows b /\
  nCols (findLinesToClear b) = nCols b /\
  tiles_ (findLinesToClear b) = tiles_ b /\
  piece_ (findLinesToClear b) = piece_ b /\
  (row_ (findLinesToClear b), col_ (findLinesToClear b), ghostRow_ (findLinesToClear b)) =
    (row_ b, col_ b, ghostRow_ b).
Proof.
  unfold findLinesToClear.
  destruct (for_range_down _ _ _ _) as [[[lines after] k] index]. repeat split.
Qed.

Lemma findLinesToClear_lines b :
  linesToClear_ (findLinesToClear b) =
    filter (fullRow b) (rows_down (nRows b - 1) (- kRowsAbove_)).
Proof.
  unfold findLinesToClear, for_range_down.
  pose proof (sweep_lines b (Z.to_nat (nRows b - 1 - - kRowsAbove_ + 1)) (nRows b - 1)
                [] (tiles_ b) 0 (Z.of_nat (length (tiles_ b)) - 1)) as (G1 & _).
  destruct (for_down _ _ _ _) as [[[lines after] k] index]. simpl in G1.
  now subst lines.
Qed.

(** X9.  [findLinesToClear] records exactly the full rows of the grid, the
    hidden rows -2 and -1 included, from the bottom row upwards, whatever
    their number and position; a row is full when none of its tiles is
    [kEmpty].  The grid itself, the piece and its position are not touched:
    the compacted grid is prepared on the side, in [tilesAfterClear_]. *)
Theorem findLinesToClear_lists_full_rows b :
  linesToClear_ (findLinesToClear b) =
    filter (fullRow b) (rows_down (nRows b - 1) (- kRowsAbove_)) /\
  (forall r, In r (linesToClear_ (findLinesToClear b)) <->
             - kRowsAbove_ <= r < nRows b /\ fullRow b r = true) /\
  (forall r, - kRowsAbove_ <= r < nRows b ->
             (fullRow b r = true <->
              forall col, 0 <= col < nCols b -> tileAt b r col <> kEmpty)) /\
  numLinesToClear (findLinesToClear b) = count_full b (nRows b - 1) (- kRowsAbove_) /\
  tiles_ (findLinesToClear b) = tiles_ b /\
  piece_ (findLinesToClear b) = piece_ b /\
  (row_ (findLinesToClear b), col_ (findLinesToClear b), ghostRow_ (findLinesToClear b)) =
    (row_ b, col_ b, ghostRow_ b).
Proof.
  pose proof (findLinesToClear_lines b) as H1.
  pose proof (findLinesToClear_frame b) as (_ & _ & H2 & H3 & H4).
  split; [exact H1|]. split; [|split; [|split; [|repeat split; assumption]]].
  - intros r. rewrite H1, filter_In, in_rows_down. unfold kRowsAbove_. intuition lia.
  - intros r Hr. apply fullRow_spec. exact Hr.
  - unfold numLinesToClear, count_full, full_rows. now rewrite H1.
Qed.

End SweepLines.

Section Compaction.

Import Board.

Variable b : Board.t.

Hypothesis tiles_length :
  Z.of_nat (length (tiles_ b)) = (nRows b + kRowsAbove_) * nCols b.

Hypothesis grid_rows : - kRowsAbove_ <= nRows b.

(** The state of the sweep once the rows below [m] have been visited: the
    full rows found, their number, the running index, and a grid in which
    every visited row that is not full has been copied down by the number of
    full rows below it. *)
Definition swept (m : Z) (st : list Z * list TileColor * Z * Z) : Prop :=
  exists after,
    st = (full_rows b (nRows b - 1) (m + 1), after,
          count_full b (nRows b - 1) (m + 1), cell b m (nCols b - 1)) /\
    length after = length (tiles_ b) /\
    (count_full b (nRows b - 1) (m + 1) = 0 -> after = tiles_ b) /\
    forall r c, m < r < nRows b -> 0 <= c < nCols b -> fullRow b r = false ->
      vget kEmpty after (cell b (r + full_below b r) c) = tileAt b r c.

Lemma sweep_all :
  swept (- kRowsAbove_ - 1)
    (for_range_down (nRows b - 1) (- kRowsAbove_) (sweep_row b)
       ([], tiles_ b, 0, Z.of_nat (length (tiles_ b)) - 1)).
Proof.
  apply (for_range_down_ind swept); [lia | |].
  - exists (tiles_ b).
    rewrite count_full_empty by lia. unfold full_rows. rewrite rows_down_empty by lia.
    split; [|split; [reflexivity | split; [reflexivity | intros; lia]]].
    simpl. f_equal. rewrite tiles_length. unfold cell. ring.
  - intros m st Hm (after & -> & Hlen & Hzero & Hv).
    pose proof (count_full_bound b (nRows b - 1) (m + 1) ltac:(lia)) as Hk.
    unfold swept. replace (m - 1 + 1) with m by ring.
    rewrite (full_rows_step b (nRows b - 1) m), (count_full_step b (nRows b - 1) m) by lia.
    unfold sweep_row. destruct (fullRow b m) eqn:Ef.
    + exists after. split; [f_equal; unfold cell; ring|]. split; [exact Hlen|].
      split; [lia|]. intros r c Hr Hc Hnf.
      destruct (Z.eq_dec r m) as [->|]; [congruence|]. apply Hv; [lia | exact Hc | exact Hnf].
    + rewrite app_nil_r, Z.add_0_r.
      destruct (Z.gtb_spec (count_full b (nRows b - 1) (m + 1)) 0) as [Hpos|Hnpos].
      * destruct (copy_row_spec b tiles_length m (count_full b (nRows b - 1) (m + 1)) after)
          as (after' & E & Hlen' & Hv'); try lia.
        rewrite E. exists after'. split; [reflexivity|]. split; [exact Hlen'|].
        split; [lia|]. intros r c Hr Hc Hnf.
        pose proof (full_below_bound b r ltac:(lia)) as Hbr.
        rewrite Hv' by lia.
        destruct (Z.eq_dec r m) as [->|Hne].
        -- unfold full_below. now rewrite Z.eqb_refl.
        -- pose proof (full_below_gap b m r ltac:(lia) Hnf) as Hgap.
           unfold full_below in Hgap at 1.
           destruct (Z.eqb_spec (r + full_below b r) (m + count_full b (nRows b - 1) (m + 1)));
             [lia|].
           apply Hv; [lia | exact Hc | exact Hnf].
      * assert (count_full b (nRows b - 1) (m + 1) = 0) as H0 by lia.
        exists after. split; [f_equal; unfold cell; ring|]. split; [exact Hlen|].
        split; [exact Hzero|]. intros r c Hr Hc Hnf.
        destruct (Z.eq_dec r m) as [->|Hne]; [|apply Hv; [lia | exact Hc | exact Hnf]].
        rewrite (Hzero H0). unfold full_below. rewrite H0, Z.add_0_r. reflexivity.
Qed.

(** The grid that [findLinesToClear] prepares has the size of the grid. *)
Lemma findLinesToClear_length :
  0 <= nCols b ->
  length (tilesAfterClear_ (findLinesToClear b)) = length (tiles_ b).
Proof.
  intros Hc. unfold findLinesToClear.
  destruct sweep_all as (after & -> & Hlen & _). simpl.
  pose proof (count_full_bound b (nRows b - 1) (- kRowsAbove_ - 1 + 1) ltac:(lia)) as Hk.
  unfold fill_front. rewrite length_app, repeat_length, length_skipn, Hlen.
  assert (count_full b (nRows b - 1) (- kRowsAbove_ - 1 + 1) * nCols b
          <= (nRows b + kRowsAbove_) * nCols b)
    by (apply Z.mul_le_mono_nonneg_r; lia).
  assert (0 <= count_full b (nRows b - 1) (- kRowsAbove_ - 1 + 1) * nCols b)
    by (apply Z.mul_nonneg_nonneg; lia).
  change (- kRowsAbove_ - 1 + 1) with (-2) in *. unfold kRowsAbove_ in *. lia.
Qed.

(** X10.  Line clearing in general.  On a grid of [nRows + 2] rows of
    [nCols] tiles, [findLinesToClear] followed by [clearLines] removes the
    full rows, whatever their number and position: every row that is not
    full moves down by the number of full rows that were below it, keeping
    its tiles, so the remaining rows keep their order; as many rows as were
    removed come in empty at the top; and no line is left pending. *)
Theorem clearLines_compacts :
  let b2 := clearLines (findLinesToClear b) in
  linesToClear_ b2 = [] /\
  (length (tiles_ b2) = length (tiles_ b) /\ nRows b2 = nRows b /\ nCols b2 = nCols b) /\
  forall c, 0 <= c < nCols b ->
    (forall r, - kRowsAbove_ <= r < count_full b (nRows b - 1) (- kRowsAbove_) - kRowsAbove_ ->
       tileAt b2 r c = kEmpty) /\
    (forall r, - kRowsAbove_ <= r < nRows b -> fullRow b r = false ->
       tileAt b2 (r + full_below b r) c = tileAt b r c).
Proof.
  cbv zeta.
  pose proof (count_full_bound b (nRows b - 1) (- kRowsAbove_) ltac:(lia)) as HK.
  assert (findLinesToClear b =
          set_tilesAfterClear (tilesAfterClear_ (findLinesToClear b))
            (set_linesToClear (full_rows b (nRows b - 1) (- kRowsAbove_)) b)) as E1.
  { unfold findLinesToClear. destruct sweep_all as (after & -> & _).
    replace (- kRowsAbove_ - 1 + 1) with (- kRowsAbove_) by ring. reflexivity. }
  assert (exists after,
    tilesAfterClear_ (findLinesToClear b) =
      fill_front (count_full b (nRows b - 1) (- kRowsAbove_) * nCols b) after /\
    length after = length (tiles_ b) /\
    forall r c, - kRowsAbove_ <= r < nRows b -> 0 <= c < nCols b -> fullRow b r = false ->
      vget kEmpty after (cell b (r + full_below b r) c) = tileAt b r c)
    as (after & E2 & Hlen & Hv).
  { unfold findLinesToClear. destruct sweep_all as (after & -> & Hlen & _ & Hv).
    replace (- kRowsAbove_ - 1 + 1) with (- kRowsAbove_) by ring.
    exists after. split; [reflexivity|]. split; [exact Hlen|].
    intros r c Hr Hc. apply Hv; [lia | exact Hc]. }
  destruct (full_rows b (nRows b - 1) (- kRowsAbove_)) as [|r0 rest] eqn:Efull.
  - (* no full row: nothing is pending and nothing moves *)
    assert (count_full b (nRows b - 1) (- kRowsAbove_) = 0) as H0
      by (unfold count_full; now rewrite Efull).
    assert (clearLines (findLinesToClear b) = findLinesToClear b) as E
      by (rewrite E1; reflexivity).
    rewrite E. split; [now rewrite E1|]. split; [now rewrite E1|].
    intros c Hc. split; [intros r Hr; lia|].
    intros r Hr Hnf.
    assert (full_below b r = 0) as Hb0.
    { pose proof (count_full_split b (nRows b - 1) r (- kRowsAbove_) ltac:(lia)) as Hs.
      pose proof (count_full_bound b r (- kRowsAbove_) ltac:(lia)).
      pose proof (full_below_bound b r ltac:(lia)).
      unfold full_below in *. lia. }
    rewrite Hb0, Z.add_0_r, E1. reflexivity.
  - assert (clearLines (findLinesToClear b) =
            set_tiles (tilesAfterClear_ (findLinesToClear b))
              (set_linesToClear [] (findLinesToClear b))) as E
      by (rewrite E1; reflexivity).
    rewrite E. split; [reflexivity|]. split.
    { cbn [tiles_ set_tiles set_linesToClear nRows nCols]. rewrite E1.
      cbn [nRows nCols set_tilesAfterClear set_linesToClear tilesAfterClear_].
      split; [|split; reflexivity].
      rewrite E2. unfold fill_front. rewrite length_app, repeat_length, length_skipn, Hlen.
      destruct (Z.le_gt_cases (nCols b) 0) as [Hn|Hn].
      - assert (count_full b (nRows b - 1) (- kRowsAbove_) * nCols b <= 0)
          by (apply Z.mul_nonneg_nonpos; lia). lia.
      - assert (count_full b (nRows b - 1) (- kRowsAbove_) * nCols b
                <= (nRows b + kRowsAbove_) * nCols b)
          by (apply Z.mul_le_mono_nonneg_r; lia). lia. }
    intros c Hc.
    assert (forall r, - kRowsAbove_ <= r < nRows b ->
              tileAt (set_tiles (tilesAfterClear_ (findLinesToClear b))
                        (set_linesToClear [] (findLinesToClear b))) r c =
              if r <? count_full b (nRows b - 1) (- kRowsAbove_) - kRowsAbove_
              then kEmpty else vget kEmpty after (cell b r c)) as Ht.
    { intros r Hr. unfold tileAt. cbn [tiles_ set_tiles].
      replace (cell _ r c) with (cell b r c) by (rewrite E1; reflexivity).
      rewrite E2. apply fill_front_spec; [lia | exact Hlen | exact Hr | exact Hc]. }
    split.
    + intros r Hr. rewrite Ht by lia.
      destruct (Z.ltb_spec r (count_full b (nRows b - 1) (- kRowsAbove_) - kRowsAbove_));
        [reflexivity | lia].
    + intros r Hr Hnf.
      pose proof (full_below_bound b r ltac:(lia)) as Hbr.
      assert (count_full b (nRows b - 1) (- kRowsAbove_) - kRowsAbove_ <= r + full_below b r)
        as Hlow.
      { pose proof (count_full_split b (nRows b - 1) r (- kRowsAbove_) ltac:(lia)) as Hs.
        rewrite (count_full_step b r (- kRowsAbove_)) in Hs by lia.
        pose proof (full_below_gap b (- kRowsAbove_ - 1) r ltac:(lia) Hnf) as Hgap.
        unfold full_below in *.
        replace (- kRowsAbove_ - 1 + 1) with (- kRowsAbove_) in Hgap by ring.
        lia. }
      rewrite Ht by lia.
      destruct (Z.ltb_spec (r + full_below b r)
                  (count_full b (nRows b - 1) (- kRowsAbove_) - kRowsAbove_)); [lia|].
      now apply Hv.
Qed.

End Compaction.

Lemma clearLines_compacts_witness :
  Board.tileAt (Board.clearLines (Board.findLinesToClear two_rows_board))
    (17 + full_below two_rows_board 17) 8 =
  Board.tileAt two_rows_board 17 8.
Proof.
  assert (Z.of_nat (length (Board.tiles_ two_rows_board)) =
          (Board.nRows two_rows_board + Board.kRowsAbove_) * Board.nCols two_rows_board)
    as Hlen by (vm_compute; reflexivity).
  assert (- Board.kRowsAbove_ <= Board.nRows two_rows_board) as Hrows
    by (vm_compute; discriminate).
  destruct (clearLines_compacts two_rows_board Hlen Hrows) as (_ & _ & H).
  destruct (H 8 ltac:(vm_compute; split; [discriminate | reflexivity])) as [_ H2].
  apply H2; vm_compute; [split; [discriminate | reflexivity] | reflexivity].
Defined.

(** ** The grid under the operations of the board *)

Section Grid.

Import Board.

Implicit Types (b : Board.t).

(** Two boards with the same grid: dimensions, tiles and pending lines. *)
Definition same_grid b b' : Prop :=
  nRows b' = nRows b /\ nCols b' = nCols b /\ tiles_ b' = tiles_ b /\
  tilesAfterClear_ b' = tilesAfterClear_ b /\ linesToClear_ b' = linesToClear_ b.

(** The grid has the size the constructor gave it, and so has the grid
    prepared for the pending lines. *)
Definition grid_ok b : Prop :=
  Z.of_nat (length (tiles_ b)) = (nRows b + kRowsAbove_) * nCols b /\
  (linesToClear_ b <> [] -> length (tilesAfterClear_ b) = length (tiles_ b)).

Lemma same_grid_ok b b' : same_grid b b' -> grid_ok b -> grid_ok b'.
Proof.
  intros (Hr & Hc & Ht & Ha & Hl) [H1 H2]. unfold grid_ok.
  rewrite Hr, Hc, Ht, Ha, Hl. now split.
Qed.

Lemma updateGhostRow_same_grid b : same_grid b (updateGhostRow b).
Proof. repeat split. Qed.

Lemma spawnPiece_same_grid kind b : same_grid b (snd (spawnPiece kind b)).
Proof.
  destruct (spawnPiece kind b) as [[|] b'] eqn:E.
  - apply spawnPiece_true in E as (row & -> & _). repeat split.
  - apply spawnPiece_false in E as [-> _]. repeat split.
Qed.

Lemma moveHorizontal_same_grid dCol b : same_grid b (snd (moveHorizontal dCol b)).
Proof. unfold moveHorizontal. destruct (isPositionPossible _ _ _ _); repeat split. Qed.

Lemma moveVertical_same_grid dRow b : same_grid b (snd (moveVertical dRow b)).
Proof. unfold moveVertical. destruct (isPositionPossible _ _ _ _); repeat split. Qed.

Lemma rotate_same_grid rotation b : same_grid b (snd (rotate rotation b)).
Proof.
  unfold rotate. destruct (_ || _); [repeat split|].
  destruct (try_kicks_spec (Piece.rotate rotation (piece_ b))
              (Piece.kicks rotation (piece_ b)) b) as [(r & c & _ & _ & ->)| ->];
    repeat split.
Qed.

Lemma hardDrop_same_grid b : same_grid b (snd (hardDrop b)).
Proof. repeat split. Qed.

(** [frozePiece], when its writes stay inside the grid, leaves a grid of the
    same size, the lines of that grid computed, and no piece. *)
Lemma frozePiece_Some b r b' :
  frozePiece b = Some (r, b') ->
  exists v,
    b' = set_piece (Piece.Piece kNone) (findLinesToClear (set_tiles v b)) /\
    length v = length (tiles_ b).
Proof.
  unfold frozePiece.
  match goal with |- context [for_range (row_ b) ?hi ?f ?s0] =>
    assert (let st := for_range (row_ b) hi f s0 in
            snd st = None \/
            exists v, snd st = Some (set_tiles v b) /\ length v = length (tiles_ b)) as H
  end.
  { apply (for_range_inv (fun st : Z * bool * option Board.t =>
       snd st = None \/
       exists v, snd st = Some (set_tiles v b) /\ length v = length (tiles_ b))).
    - intros row st H.
      apply (for_range_inv (fun st : Z * bool * option Board.t =>
         snd st = None \/
         exists v, snd st = Some (set_tiles v b) /\ length v = length (tiles_ b)));
        [|exact H].
      intros col [[index below] ob] H'. destruct (negb _); [|exact H']. simpl.
      destruct H' as [H'|(v & H' & Hl)]; simpl in H'; subst ob; [now left|].
      unfold setTile. cbn [tiles_ set_tiles].
      destruct (vset v _ _) as [v'|] eqn:E; [right | now left].
      exists v'. split; [reflexivity|]. apply vset_length in E. congruence.
    - right. exists (tiles_ b). now rewrite set_tiles_same. }
  destruct (for_range _ _ _ _) as [[index below] ob]. simpl in H.
  destruct H as [-> | (v & -> & Hl)]; [discriminate|].
  intros [= _ <-]. now exists v.
Qed.

Lemma frozePiece_grid_ok b r b' :
  - kRowsAbove_ <= nRows b -> 0 <= nCols b ->
  frozePiece b = Some (r, b') ->
  (nRows b' = nRows b /\ nCols b' = nCols b) /\ (grid_ok b -> grid_ok b').
Proof.
  intros Hrows Hcols H. apply frozePiece_Some in H as (v & -> & Hl).
  pose proof (findLinesToClear_frame (set_tiles v b)) as (Hr & Hc & Ht & _).
  cbn [nRows nCols tiles_ set_piece]. rewrite Hr, Hc. split; [now split|].
  intros [H1 _]. unfold grid_ok. cbn [nRows nCols tiles_ tilesAfterClear_ linesToClear_ set_piece].
  rewrite Hr, Hc, Ht. cbn [nRows nCols tiles_ set_tiles].
  split; [now rewrite Hl|]. intros _.
  rewrite (findLinesToClear_length (set_tiles v b)); cbn [nRows nCols tiles_ set_tiles];
    [reflexivity | now rewrite Hl | exact Hrows | exact Hcols].
Qed.

Lemma clearLines_grid_ok b :
  (nRows (clearLines b) = nRows b /\ nCols (clearLines b) = nCols b) /\
  (grid_ok b -> grid_ok (clearLines b)).
Proof.
  unfold clearLines. destruct (linesToClear_ b) as [|r rest] eqn:E; [tauto|].
  split; [now split|]. intros [H1 H2]. unfold grid_ok.
  cbn [nRows nCols tiles_ tilesAfterClear_ linesToClear_ set_tiles set_linesToClear].
  split; [|congruence]. rewrite H2, H1; [reflexivity | now rewrite E].
Qed.

Lemma Board_grid_ok (nRows nCols : Z) :
  - kRowsAbove_ <= nRows -> 0 <= nCols -> grid_ok (Board nRows nCols).
Proof.
  intros Hr Hc. unfold grid_ok, Board. cbn [Board.nRows Board.nCols tiles_ linesToClear_].
  split; [|congruence]. rewrite repeat_length.
  assert (0 <= (nRows + kRowsAbove_) * nCols) by (apply Z.mul_nonneg_nonneg; lia). lia.
Qed.

(** X11.  The grid keeps its size.  In every state that the public
    operations of [Board] reach from a constructed board with at least -2
    rows and 0 columns, the dimensions are those of the constructor, the
    grid has [(nRows + 2) * nCols] tiles, and whenever lines are pending the
    grid prepared for [clearLines] has that size too, so that [clearLines]
    installs a grid of the right size. *)
Theorem reachable_grid_size b :
  reachable b -> - kRowsAbove_ <= nRows b -> 0 <= nCols b ->
  Z.of_nat (length (tiles_ b)) = (nRows b + kRowsAbove_) * nCols b /\
  (linesToClear_ b <> [] -> length (tilesAfterClear_ b) = length (tiles_ b)) /\
  length (tiles_ (clearLines b)) = length (tiles_ b).
Proof.
  intros Hreach Hrows Hcols.
  assert (grid_ok b) as Hok.
  { revert Hrows Hcols.
    induction Hreach as [nRows nCols|kind b _ IH|dCol b _ IH|dRow b _ IH|rotation b _ IH
                         |b _ IH|b r b' _ IH Hf|b _ IH].
    - apply Board_grid_ok.
    - destruct (spawnPiece_same_grid kind b) as (Hr & Hc & Hrest).
      rewrite Hr, Hc. intros. apply (same_grid_ok b); [repeat split; tauto | now apply IH].
    - destruct (moveHorizontal_same_grid dCol b) as (Hr & Hc & Hrest).
      rewrite Hr, Hc. intros. apply (same_grid_ok b); [repeat split; tauto | now apply IH].
    - destruct (moveVertical_same_grid dRow b) as (Hr & Hc & Hrest).
      rewrite Hr, Hc. intros. apply (same_grid_ok b); [repeat split; tauto | now apply IH].
    - destruct (rotate_same_grid rotation b) as (Hr & Hc & Hrest).
      rewrite Hr, Hc. intros. apply (same_grid_ok b); [repeat split; tauto | now apply IH].
    - destruct (hardDrop_same_grid b) as (Hr & Hc & Hrest).
      rewrite Hr, Hc. intros. apply (same_grid_ok b); [repeat split; tauto | now apply IH].
    - intros Hrows Hcols.
      destruct (frozePiece_Some b r b' Hf) as (v & Eb' & _).
      assert (nRows b' = nRows b /\ nCols b' = nCols b) as [Hr Hc].
      { rewrite Eb'. pose proof (findLinesToClear_frame (set_tiles v b)) as (Hr & Hc & _).
        cbn [nRows nCols set_piece]. now rewrite Hr, Hc. }
      rewrite Hr in Hrows. rewrite Hc in Hcols.
      apply (frozePiece_grid_ok b r b' Hrows Hcols Hf). now apply IH.
    - destruct (clearLines_grid_ok b) as [[Hr Hc] Hok].
      rewrite Hr, Hc. intros. now apply Hok, IH. }
  destruct Hok as [H1 H2]. split; [exact H1|]. split; [exact H2|].
  unfold clearLines. destruct (linesToClear_ b) as [|r rest] eqn:E; [reflexivity|].
  cbn [tiles_ set_tiles]. apply H2. congruence.
Qed.

(** X12.  Moving the piece never touches the grid: [spawnPiece],
    [moveHorizontal], [moveVertical], [rotate] and [hardDrop], whether they
    succeed or not, leave the dimensions, every tile, the pending lines and
    the grid prepared for them exactly as they were. *)
Theorem piece_moves_keep_grid b :
  (forall kind, same_grid b (snd (spawnPiece kind b))) /\
  (forall dCol, same_grid b (snd (moveHorizontal dCol b))) /\
  (forall dRow, same_grid b (snd (moveVertical dRow b))) /\
  (forall rotation, same_grid b (snd (rotate rotation b))) /\
  same_grid b (snd (hardDrop b)).
Proof.
  split; [intros; apply spawnPiece_same_grid|].
  split; [intros; apply moveHorizontal_same_grid|].
  split; [intros; apply moveVertical_same_grid|].
  split; [intros; apply rotate_same_grid | apply hardDrop_same_grid].
Qed.

End Grid.

Lemma reachable_grid_size_witness :
  Z.of_nat (length (Board.tiles_ two_rows_board)) =
  (Board.nRows two_rows_board + Board.kRowsAbove_) * Board.nCols two_rows_board.
Proof.
  assert (reachable two_rows_board) as H
    by (unfold two_rows_board; repeat apply reachable_place; apply reachable_new).
  exact (proj1 (reachable_grid_size two_rows_board H
                  ltac:(vm_compute; discriminate) ltac:(vm_compute; discriminate))).
Defined.

(** ** What [frozePiece] writes *)

(** The tile of the piece of [b] that covers the cell [(r, c)]; [kEmpty]
    when the cell is outside the bounding box or the shape is empty there. *)
Definition piece_tile (b : Board.t) (r c : Z) : TileColor :=
  let side := Piece.bBoxSide_ (Board.piece_ b) in
  if (Board.row_ b <=? r) && (r <? Board.row_ b + side)
     && (Board.col_ b <=? c) && (c <? Board.col_ b + side)
  then vget kEmpty (Piece.shape_ (Board.piece_ b))
         ((r - Board.row_ b) * side + (c - Board.col_ b))
  else kEmpty.

(** The grid with the piece stamped on it. *)
Definition stamped (b : Board.t) (r c : Z) : TileColor :=
  if TileColor_eqb (piece_tile b r c) kEmpty then Board.tileAt b r c
  else piece_tile b r c.

Section FrozeContents.

Import Board.

Variable b : Board.t.

Hypothesis tiles_length :
  Z.of_nat (length (tiles_ b)) = (nRows b + kRowsAbove_) * nCols b.

Hypothesis in_grid : piece_in_grid b.

Let side := Piece.bBoxSide_ (piece_ b).

Lemma piece_tile_inside (r c : Z) :
  row_ b <= r < row_ b + side -> col_ b <= c < col_ b + side ->
  piece_tile b r c =
  vget kEmpty (Piece.shape_ (piece_ b)) ((r - row_ b) * side + (c - col_ b)).
Proof.
  intros Hr Hc. unfold piece_tile. fold side.
  destruct (Z.leb_spec (row_ b) r), (Z.ltb_spec r (row_ b + side)),
    (Z.leb_spec (col_ b) c), (Z.ltb_spec c (col_ b + side)); try lia. reflexivity.
Qed.

Lemma piece_tile_outside (r c : Z) :
  ~ (row_ b <= r < row_ b + side /\ col_ b <= c < col_ b + side) ->
  piece_tile b r c = kEmpty.
Proof.
  intros H. unfold piece_tile. fold side.
  destruct (Z.leb_spec (row_ b) r), (Z.ltb_spec r (row_ b + side)),
    (Z.leb_spec (col_ b) c), (Z.ltb_spec c (col_ b + side)); simpl; try reflexivity.
  exfalso. apply H. lia.
Qed.

Lemma stamped_outside (r c : Z) :
  ~ (row_ b <= r < row_ b + side /\ col_ b <= c < col_ b + side) ->
  stamped b r c = tileAt b r c.
Proof. intros H. unfold stamped. now rewrite piece_tile_outside. Qed.

(** The cells that the loops of [frozePiece] have passed when they stand at
    [(r, c)]. *)
Definition passed (r c r' c' : Z) : bool := (r' <? r) || ((r' =? r) && (c' <? c)).

(** The state of the loops of [frozePiece] when they stand at [(r, c)]. *)
Definition frozen_to (r c : Z) (st : Z * bool * option Board.t) : Prop :=
  exists below v,
    st = ((r - row_ b) * side + (c - col_ b), below, Some (set_tiles v b)) /\
    length v = length (tiles_ b) /\
    (forall r' c', - kRowsAbove_ <= r' < nRows b -> 0 <= c' < nCols b ->
       vget kEmpty v (cell b r' c') =
       if passed r c r' c' then stamped b r' c' else tileAt b r' c') /\
    (below = true <->
     exists r' c', 0 <= r' /\ passed r c r' c' = true /\ piece_tile b r' c' <> kEmpty).

Lemma frozen_to_next_row (r : Z) st :
  frozen_to r (col_ b + side) st -> frozen_to (r + 1) (col_ b) st.
Proof.
  intros (below & v & -> & Hl & Hv & Hb).
  exists below, v. split; [f_equal; f_equal; ring|]. split; [exact Hl|]. split.
  - intros r' c' Hr' Hc'. rewrite (Hv r' c' Hr' Hc'). unfold passed.
    destruct (Z.ltb_spec r' r), (Z.ltb_spec r' (r + 1)), (Z.eqb_spec r' r),
      (Z.eqb_spec r' (r + 1)), (Z.ltb_spec c' (col_ b + side)), (Z.ltb_spec c' (col_ b));
      simpl; try lia; try reflexivity;
      try (apply stamped_outside; lia); symmetry; apply stamped_outside; lia.
  - rewrite Hb. split; intros (r' & c' & H0 & Hp & Ht); exists r', c';
      (split; [exact H0|]); (split; [|exact Ht]); unfold passed in *;
      destruct (Z.ltb_spec r' r), (Z.ltb_spec r' (r + 1)), (Z.eqb_spec r' r),
        (Z.eqb_spec r' (r + 1)), (Z.ltb_spec c' (col_ b + side)), (Z.ltb_spec c' (col_ b));
      simpl in *; try lia; try reflexivity; try discriminate;
      exfalso; apply Ht; apply piece_tile_outside; lia.
Qed.

Lemma frozen_to_step (r c : Z) index below ob :
  row_ b <= r < row_ b + side -> col_ b <= c < col_ b + side ->
  frozen_to r c (index, below, ob) ->
  frozen_to r (c + 1)
    (if negb (TileColor_eqb (vget kEmpty (Piece.shape_ (piece_ b)) index) kEmpty) then
       (index + 1, (if r >=? 0 then true else below),
        match ob with
        | Some b' => setTile r c (vget kEmpty (Piece.shape_ (piece_ b)) index) b'
        | None => None
        end)
     else (index + 1, below, ob)).
Proof.
  intros Hr Hc (below0 & v & [= -> -> ->] & Hl & Hv & Hb).
  rewrite <- (piece_tile_inside r c Hr Hc).
  destruct (TileColor_eqb (piece_tile b r c) kEmpty) eqn:Et; simpl negb; cbv iota.
  - (* no tile of the piece here *)
    apply TileColor_eqb_eq in Et.
    exists below0, v. split; [f_equal; f_equal; ring|]. split; [exact Hl|]. split.
    + intros r' c' Hr' Hc'. rewrite (Hv r' c' Hr' Hc'). unfold passed.
      destruct (Z.ltb_spec r' r), (Z.eqb_spec r' r), (Z.ltb_spec c' c),
        (Z.ltb_spec c' (c + 1)); simpl; try lia; try reflexivity.
      assert (c' = c) by lia. subst r' c'. unfold stamped. now rewrite Et.
    + rewrite Hb. split; intros (r' & c' & H0 & Hp & Ht); exists r', c';
        (split; [exact H0|]); (split; [|exact Ht]); unfold passed in *;
        destruct (Z.ltb_spec r' r), (Z.eqb_spec r' r), (Z.ltb_spec c' c),
          (Z.ltb_spec c' (c + 1)); simpl in *; try lia; try reflexivity; try discriminate.
      assert (c' = c) by lia. subst r' c'. congruence.
  - (* a tile: it is written at (r, c) *)
    apply TileColor_eqb_neq in Et.
    destruct (in_grid (r - row_ b) (c - col_ b)) as [Hr' Hc'];
      [fold side; lia | fold side; lia | |].
    { unfold occupied. fold side. rewrite <- (piece_tile_inside r c Hr Hc).
      now apply negb_true_iff, TileColor_eqb_neq. }
    replace (row_ b + (r - row_ b)) with r in Hr' by ring.
    replace (col_ b + (c - col_ b)) with c in Hc' by ring.
    pose proof (cell_range b r c Hr' Hc') as Hcell.
    unfold setTile. cbn [tiles_ set_tiles].
    change (cell (set_tiles v b) r c) with (cell b r c).
    assert (0 <= cell b r c < Z.of_nat (length v)) as Hcv
      by (rewrite Hl, tiles_length; exact Hcell).
    rewrite vset_Some by exact Hcv.
    exists (if r >=? 0 then true else below0), (vput v (cell b r c) (piece_tile b r c)).
    split.
    { f_equal; [f_equal; ring|]. f_equal. unfold vput. now rewrite vset_Some by exact Hcv. }
    split; [now rewrite vput_length|]. split.
    + intros r' c' Hr'' Hc''.
      destruct (Z.eq_dec (cell b r c) (cell b r' c')) as [E|E].
      * apply cell_inj in E as [<- <-]; [|lia|lia].
        rewrite vget_vput_same by exact Hcv. unfold passed.
        destruct (Z.ltb_spec r r), (Z.eqb_spec r r), (Z.ltb_spec c (c + 1));
          simpl; try lia.
        unfold stamped. apply TileColor_eqb_neq in Et. now rewrite Et.
      * rewrite vget_vput_other by exact E. rewrite (Hv r' c' Hr'' Hc''). unfold passed.
        assert (~ (r' = r /\ c' = c)) as Hne by (intros [-> ->]; now apply E).
        destruct (Z.ltb_spec r' r), (Z.eqb_spec r' r), (Z.ltb_spec c' c),
          (Z.ltb_spec c' (c + 1)); simpl; try lia; reflexivity.
    + destruct (Z.geb_spec r 0) as [Hge|Hlt].
      * split; [intros _|reflexivity]. exists r, c. split; [lia|]. split; [|exact Et].
        unfold passed.
        destruct (Z.ltb_spec r r), (Z.eqb_spec r r), (Z.ltb_spec c (c + 1)); simpl; lia.
      * rewrite Hb. split; intros (r' & c' & H0 & Hp & Ht); exists r', c';
          (split; [exact H0|]); (split; [|exact Ht]); unfold passed in *;
          destruct (Z.ltb_spec r' r), (Z.eqb_spec r' r), (Z.ltb_spec c' c),
            (Z.ltb_spec c' (c + 1)); simpl in *; try lia; try reflexivity; try discriminate.
Qed.

Lemma frozePiece_loops :
  exists below v,
    frozePiece b =
      Some (below, set_piece (Piece.Piece kNone) (findLinesToClear (set_tiles v b))) /\
    length v = length (tiles_ b) /\
    (forall r c, - kRowsAbove_ <= r < nRows b -> 0 <= c < nCols b ->
       vget kEmpty v (cell b r c) = stamped b r c) /\
    (below = true <-> exists r c, 0 <= r /\ piece_tile b r c <> kEmpty).
Proof.
  unfold frozePiece. fold side.
  destruct (Z.le_gt_cases side 0) as [Hs|Hs].
  { rewrite for_range_empty by lia.
    exists false, (tiles_ b). rewrite set_tiles_same.
    split; [reflexivity|]. split; [reflexivity|]. split.
    - intros r c Hr Hc. rewrite stamped_outside by lia. reflexivity.
    - split; [discriminate|]. intros (r & c & _ & Ht). exfalso. apply Ht.
      apply piece_tile_outside. lia. }
  match goal with |- context [for_range (row_ b) (row_ b + side) ?f ?s0] =>
    assert (frozen_to (row_ b + side) (col_ b) (for_range (row_ b) (row_ b + side) f s0)) as H
  end.
  { apply (for_range_ind (fun r st => frozen_to r (col_ b) st)); [lia | |].
    - exists false, (tiles_ b). rewrite set_tiles_same.
      split; [f_equal; f_equal; ring|]. split; [reflexivity|]. split.
      + intros r' c' Hr' Hc'. unfold passed.
        destruct (Z.ltb_spec r' (row_ b)), (Z.eqb_spec r' (row_ b)),
          (Z.ltb_spec c' (col_ b)); simpl; try lia; try reflexivity;
          symmetry; apply stamped_outside; lia.
      + split; [discriminate|]. intros (r' & c' & H0 & Hp & Ht). exfalso. apply Ht.
        apply piece_tile_outside. unfold passed in Hp.
        destruct (Z.ltb_spec r' (row_ b)), (Z.eqb_spec r' (row_ b)),
          (Z.ltb_spec c' (col_ b)); simpl in Hp; try discriminate; lia.
    - intros r st Hr H. apply frozen_to_next_row.
      apply (for_range_ind (fun c st => frozen_to r c st)); [lia | exact H |].
      intros c [[index below] ob] Hc H'. now apply frozen_to_step. }
  destruct (for_range _ _ _ _) as [[index below] ob].
  destruct H as (below' & v & [= -> -> ->] & Hl & Hv & Hb).
  exists below', v. split; [reflexivity|]. split; [exact Hl|]. split.
  - intros r c Hr Hc. rewrite (Hv r c Hr Hc). unfold passed.
    destruct (Z.ltb_spec r (row_ b + side)), (Z.eqb_spec r (row_ b + side)),
      (Z.ltb_spec c (col_ b)); simpl; try lia; try reflexivity;
      symmetry; apply stamped_outside; lia.
  - rewrite Hb. split; intros (r & c & H0 & H); [exists r, c; tauto|].
    exists r, c. split; [exact H0|]. split; [|exact H]. unfold passed.
    destruct (Z.ltb_spec r (row_ b + side)); [reflexivity|].
    exfalso. apply H. apply piece_tile_outside. lia.
Qed.

End FrozeContents.

Section FrozeTheorem.

Import Board.

Implicit Types (b : Board.t).

Lemma for_up_ext {S : Type} (f g : Z -> S -> S) (n : nat) :
  (forall k s, f k s = g k s) -> forall i s, for_up n i f s = for_up n i g s.
Proof.
  intros H. induction n as [|n IH]; intros i s; [reflexivity|].
  cbn [for_up]. now rewrite H, IH.
Qed.

(** Whether a row is full depends on the dimensions and the tiles only. *)
Lemma fullRow_ext b b' (row : Z) :
  nRows b' = nRows b -> nCols b' = nCols b -> tiles_ b' = tiles_ b ->
  fullRow b' row = fullRow b row.
Proof.
  intros Hr Hc Ht. unfold fullRow, for_range. rewrite Hc.
  apply for_up_ext. intros col full. now rewrite (isTileFilled_ext b b').
Qed.

(** X13.  When every tile of the piece lies inside the grid (as it does at
    every position that [isPositionPossible] accepts), [frozePiece] is
    defined and writes exactly the piece: each cell covered by a tile of the
    shape takes that tile, every other cell of the grid keeps its tile.  It
    returns [true] exactly when some tile of the piece is in a row at or
    below the skyline (row 0 or more), leaves the none piece as the active
    piece, keeps the dimensions, and records as pending lines the full rows
    of the new grid, from the bottom up. *)
Theorem frozePiece_writes_piece b :
  Z.of_nat (length (tiles_ b)) = (nRows b + kRowsAbove_) * nCols b ->
  piece_in_grid b ->
  exists belowSkyline b',
    frozePiece b = Some (belowSkyline, b') /\
    piece_ b' = Piece.Piece kNone /\
    (nRows b' = nRows b /\ nCols b' = nCols b /\
     length (tiles_ b') = length (tiles_ b)) /\
    (forall r c, - kRowsAbove_ <= r < nRows b -> 0 <= c < nCols b ->
       tileAt b' r c = stamped b r c) /\
    (belowSkyline = true <-> exists r c, 0 <= r /\ piece_tile b r c <> kEmpty) /\
    linesToClear_ b' = filter (fullRow b') (rows_down (nRows b' - 1) (- kRowsAbove_)).
Proof.
  intros Hlen Hin.
  destruct (frozePiece_loops b Hlen Hin) as (below & v & E & Hl & Hv & Hb).
  pose proof (findLinesToClear_frame (set_tiles v b)) as (Hr & Hc & Ht & _).
  pose proof (findLinesToClear_lines (set_tiles v b)) as Hlines.
  cbn [nRows nCols tiles_ set_tiles] in Hr, Hc, Ht.
  eexists below, _. split; [exact E|].
  cbn [piece_ nRows nCols tiles_ linesToClear_ set_piece].
  split; [reflexivity|]. split; [rewrite Hr, Hc, Ht; auto|]. split; [|split; [exact Hb|]].
  - intros r c Hr' Hc'. unfold tileAt, cell. cbn [nCols tiles_ set_piece].
    rewrite Ht, Hc. apply (Hv r c Hr' Hc').
  - rewrite Hlines, Hr. cbn [nRows set_tiles]. apply filter_ext.
    intros row. symmetry. apply fullRow_ext; cbn [nRows nCols tiles_ set_piece]; assumption.
Qed.

End FrozeTheorem.

(** A T piece dropped on the empty board of the game's size. *)
Definition dropped_T : Board.t :=
  snd (Board.hardDrop (snd (Board.spawnPiece kPieceT (Board.Board 20 10)))).

Lemma frozePiece_writes_piece_witness :
  exists belowSkyline b',
    Board.frozePiece dropped_T = Some (belowSkyline, b') /\
    Board.tileAt b' 19 4 = stamped dropped_T 19 4.
Proof.
  assert (Z.of_nat (length (Board.tiles_ dropped_T)) =
          (Board.nRows dropped_T + Board.kRowsAbove_) * Board.nCols dropped_T) as Hlen
    by (vm_compute; reflexivity).
  assert (piece_in_grid dropped_T) as Hin
    by (apply possible_in_grid; vm_compute; reflexivity).
  destruct (frozePiece_writes_piece dropped_T Hlen Hin)
    as (below & b' & E & _ & _ & Hv & _).
  exists below, b'. split; [exact E|].
  assert (- Board.kRowsAbove_ <= 19 < Board.nRows dropped_T) as Hr
    by (vm_compute; split; [discriminate | reflexivity]).
  assert (0 <= 4 < Board.nCols dropped_T) as Hc
    by (vm_compute; split; [discriminate | reflexivity]).
  exact (Hv 19 4 Hr Hc).
Defined.

(** ** Spawning on an empty grid *)

Section SpawnEmpty.

Import Board.

Implicit Types (b e : Board.t).

Lemma vget_repeat_empty (n : nat) (i : Z) : vget kEmpty (repeat kEmpty n) i = kEmpty.
Proof.
  destruct (Z.lt_ge_cases i 0) as [H|H]; [apply vget_outside; now left|].
  rewrite vget_nth by exact H. apply nth_repeat.
Qed.

(** After [clear] every tile is empty; the dimensions are kept. *)
Lemma clear_empty b :
  (forall r c, tileAt (clear b) r c = kEmpty) /\
  nRows (clear b) = nRows b /\ nCols (clear b) = nCols b /\
  length (tiles_ (clear b)) = length (tiles_ b).
Proof.
  split; [|split; [reflexivity | split; [reflexivity|]]].
  - intros r c. unfold tileAt, clear. cbn [tiles_ set_tiles]. apply vget_repeat_empty.
  - unfold clear. cbn [tiles_ set_tiles]. apply repeat_length.
Qed.

(** On an empty grid a piece collides exactly when one of its tiles is
    outside the grid. *)
Lemma possible_on_empty e (row col : Z) (p : Piece.t) :
  (forall r c, tileAt e r c = kEmpty) -> Piece.kind_ p <> kNone ->
  (forall pr pc, 0 <= pr < Piece.bBoxSide_ p -> 0 <= pc < Piece.bBoxSide_ p ->
     occupied p pr pc = true ->
     - kRowsAbove_ <= row + pr < nRows e /\ 0 <= col + pc < nCols e) ->
  isPositionPossible e row col p = true.
Proof.
  intros He Hk Hin. apply isPositionPossible_spec. split; [exact Hk|].
  intros pr pc Hpr Hpc [Ho Hf]. destruct (Hin pr pc Hpr Hpc Ho) as [Hr Hc].
  rewrite isTileFilled_in_grid, He in Hf by assumption. discriminate.
Qed.

Lemma impossible_outside e (row col : Z) (p : Piece.t) (pr pc : Z) :
  0 <= pr < Piece.bBoxSide_ p -> 0 <= pc < Piece.bBoxSide_ p ->
  occupied p pr pc = true -> nRows e <= row + pr ->
  isPositionPossible e row col p = false.
Proof.
  intros Hpr Hpc Ho Hout.
  destruct (isPositionPossible e row col p) eqn:E; [|reflexivity].
  apply isPositionPossible_spec in E as [_ H]. exfalso. apply (H pr pc Hpr Hpc).
  split; [exact Ho|]. unfold isTileFilled.
  destruct (Z.geb_spec (row + pr) (nRows e)); [|lia]. now rewrite !orb_true_r.
Qed.

(** The shapes in which the pieces are constructed: the tiles are in the
    first two rows of the bounding box (in the second row only for the I
    piece), and the second row holds one. *)
Lemma spawn_shape (kind : PieceKind) :
  kind <> kNone ->
  let p := Piece.Piece kind in
  2 <= Piece.bBoxSide_ p <= 4 /\
  (forall pr pc, 0 <= pr < Piece.bBoxSide_ p -> 0 <= pc < Piece.bBoxSide_ p ->
     occupied p pr pc = true -> pr <= 1 /\ (kind = kPieceI -> pr = 1)) /\
  exists pc, 0 <= pc < Piece.bBoxSide_ p /\ occupied p 1 pc = true.
Proof.
  intros Hk. cbv zeta. split; [destruct kind; try congruence; simpl; lia|]. split.
  - intros pr pc Hpr Hpc Ho.
    assert (Piece.bBoxSide_ (Piece.Piece kind) <= 4) as Hs
      by (destruct kind; simpl; lia).
    assert (pr = 0 \/ pr = 1 \/ pr = 2 \/ pr = 3) as Hpr' by lia.
    assert (pc = 0 \/ pc = 1 \/ pc = 2 \/ pc = 3) as Hpc' by lia.
    destruct kind; try congruence;
      destruct Hpr' as [-> | [-> | [-> | ->]]]; destruct Hpc' as [-> | [-> | [-> | ->]]];
      try (simpl in Hpr, Hpc; lia);
      try (vm_compute in Ho; discriminate Ho);
      (split; [lia | intros; (reflexivity || discriminate)]).
  - destruct kind; try congruence;
      (exists 1; split; [simpl; lia | vm_compute; reflexivity]).
Qed.

(** [spawnPiece] on an empty grid at least 4 columns wide and 2 rows high:
    the piece comes to rest with its upper tiles in row 0. *)
Lemma spawnPiece_empty (kind : PieceKind) e :
  (forall r c, tileAt e r c = kEmpty) -> 4 <= nCols e -> 2 <= nRows e ->
  kind <> kNone ->
  let b1 := set_col (Z.quot (nCols e - Piece.bBoxSide_ (Piece.Piece kind)) 2)
              (set_row (-2) (set_piece (Piece.Piece kind) e)) in
  let row := if PieceKind_eqb kind kPieceI then -1 else 0 in
  spawnPiece kind e = (true, updateGhostRow (set_row row b1)) /\
  ghostRow_ (updateGhostRow (set_row row b1)) = nRows e - 2.
Proof.
  intros He Hcols Hrows Hk b1 row.
  destruct (spawn_shape kind Hk) as (Hside & Hrows01 & (pc1 & Hpc1 & Ho1)).
  set (P := Piece.Piece kind) in *.
  set (col0 := Z.quot (nCols e - Piece.bBoxSide_ P) 2) in *.
  assert (0 <= col0 /\ col0 + Piece.bBoxSide_ P <= nCols e) as Hcol0.
  { unfold col0.
    pose proof (Z.quot_rem' (nCols e - Piece.bBoxSide_ P) 2) as Hq.
    pose proof (Z.rem_bound_pos (nCols e - Piece.bBoxSide_ P) 2 ltac:(lia) ltac:(lia)).
    lia. }
  assert (Hkind : Piece.kind_ P <> kNone) by (unfold P; now destruct kind).
  assert (Hvalid : forall r b', 
            nRows b' = nRows e -> nCols b' = nCols e -> tiles_ b' = tiles_ e ->
            (if PieceKind_eqb kind kPieceI then -3 else -2) <= r <= nRows e - 2 ->
            isPositionPossible b' r col0 P = true).
  { intros r b' H1 H2 H3 Hr. rewrite (isPositionPossible_ext e b') by assumption.
    apply possible_on_empty; [exact He | exact Hkind |].
    intros pr pc Hpr Hpc Ho. destruct (Hrows01 pr pc Hpr Hpc Ho) as [Hle HI].
    unfold kRowsAbove_.
    destruct (PieceKind_eqb kind kPieceI) eqn:EI.
    - apply PieceKind_eqb_eq in EI. specialize (HI EI). lia.
    - lia. }
  assert (Hfloor : forall b',
            nRows b' = nRows e -> isPositionPossible b' (nRows e - 1) col0 P = false).
  { intros b' H1. apply (impossible_outside b' _ _ _ 1 pc1); [lia | exact Hpc1 | exact Ho1 | lia]. }
  assert (spawnPiece kind e = (true, updateGhostRow (set_row row b1))) as Espawn.
  { unfold spawnPiece. cbv zeta.
    cbn [row_ col_ piece_ nCols set_col set_row set_piece].
    fold P. fold col0.
    fold b1.
    rewrite (Hvalid (-2) b1) by (try reflexivity; destruct (PieceKind_eqb kind kPieceI); lia).
    simpl negb. cbv iota. unfold row.
    destruct (PieceKind_eqb kind kPieceI) eqn:EI.
    - unfold for_range. change (Z.to_nat (1 - 0)) with 1%nat. cbn [for_up].
      replace (-2 + 1) with (-1) by reflexivity.
      rewrite (Hvalid (-1) b1) by (try reflexivity; rewrite ?EI; lia).
      reflexivity.
    - unfold for_range. change (Z.to_nat (2 - 0)) with 2%nat. cbn [for_up].
      replace (-2 + 1) with (-1) by reflexivity.
      rewrite (Hvalid (-1) b1) by (try reflexivity; rewrite ?EI; lia).
      simpl negb. cbv iota.
      replace (-1 + 1) with 0 by reflexivity.
      rewrite (Hvalid 0 b1) by (try reflexivity; rewrite ?EI; lia).
      reflexivity. }
  split; [exact Espawn|].
  set (b2 := set_row row b1).
  assert (valid b2 (row_ b2) = true) as Hv
    by (unfold valid; apply Hvalid; try reflexivity; unfold b2, row; simpl;
        destruct (PieceKind_eqb kind kPieceI); lia).
  assert (has_cell (piece_ b2)) as Hc.
  { exists 1, pc1. change (piece_ b2) with P. repeat split; try lia; assumption. }
  pose proof (updateGhostRow_landing b2 Hc Hv) as Hland.
  apply (landing_unique (updateGhostRow b2)); [exact Hland|].
  unfold landing, valid. cbn [row_ col_ piece_ updateGhostRow set_ghostRow].
  split; [unfold b2, row; simpl; destruct (PieceKind_eqb kind kPieceI); lia|].
  split.
  - intros r Hr. apply Hvalid; try reflexivity.
    unfold b2, row in Hr. simpl in Hr. destruct (PieceKind_eqb kind kPieceI); lia.
  - replace (nRows e - 2 + 1) with (nRows e - 1) by ring. now apply Hfloor.
Qed.

(** X14.  On a cleared board at least 4 columns wide and 2 rows high,
    [spawnPiece] succeeds for each of the seven kinds: the piece is placed
    in its initial orientation on the centred column
    [(nCols - bBoxSide) / 2], it slides down from row -2 until its upper
    tiles are in row 0 (anchor row -1 for the I piece, 0 for the others),
    and its ghost row is [nRows - 2], the tiles resting on the floor. *)
Theorem spawnPiece_on_cleared_board (kind : PieceKind) b :
  4 <= nCols b -> 2 <= nRows b -> kind <> kNone ->
  let b' := snd (spawnPiece kind (clear b)) in
  fst (spawnPiece kind (clear b)) = true /\
  piece_ b' = Piece.Piece kind /\
  row_ b' = (if PieceKind_eqb kind kPieceI then -1 else 0) /\
  col_ b' = Z.quot (nCols b - Piece.bBoxSide_ (Piece.Piece kind)) 2 /\
  ghostRow_ b' = nRows b - 2 /\
  isPositionPossible b' (row_ b') (col_ b') (piece_ b') = true /\
  forall r c, tileAt b' r c = kEmpty.
Proof.
  intros Hcols Hrows Hk.
  destruct (clear_empty b) as (He & Hr & Hc & _).
  destruct (spawnPiece_empty kind (clear b) He ltac:(now rewrite Hc) ltac:(now rewrite Hr) Hk)
    as [E Hg].
  cbv zeta in E, Hg. cbv zeta. rewrite E. cbn [fst snd].
  split; [reflexivity|]. split; [reflexivity|]. split; [reflexivity|].
  split; [reflexivity|]. split; [exact Hg|]. split.
  - pose proof E as E'. apply spawnPiece_true in E' as (row & Eb & Hv).
    cbv zeta in Eb, Hv.
    assert (row = if PieceKind_eqb kind kPieceI then -1 else 0) as ->.
    { apply (f_equal row_) in Eb. exact (eq_sym Eb). }
    unfold valid in Hv. cbn [row_ col_ piece_ updateGhostRow set_ghostRow set_row set_col set_piece] in *.
    rewrite <- Hv. apply isPositionPossible_ext; reflexivity.
  - intros r c. apply (He r c).
Qed.

End SpawnEmpty.

Lemma spawnPiece_on_cleared_board_witness :
  let b' := snd (Board.spawnPiece kPieceS (Board.clear two_rows_board)) in
  Board.row_ b' = 0 /\ Board.ghostRow_ b' = Board.nRows two_rows_board - 2.
Proof.
  assert (4 <= Board.nCols two_rows_board) as Hc by (vm_compute; discriminate).
  assert (2 <= Board.nRows two_rows_board) as Hr by (vm_compute; discriminate).
  destruct (spawnPiece_on_cleared_board kPieceS two_rows_board Hc Hr ltac:(discriminate))
    as (_ & _ & H1 & _ & H2 & _).
  split; [exact H1 | exact H2].
Defined.

(** ** Controller: level, lines, score and the lock-down counter *)

Section Ledger.

Import Tetris.

Context {Rng : Type}.
Variable shuffle : Rng -> list PieceKind -> list PieceKind * Rng.
Variable pow : float -> float -> float.

Implicit Types (s : Tetris.t Rng).

Local Abbreviation spawnPiece := (Tetris.spawnPiece shuffle).
Local Abbreviation lock := (Tetris.lock shuffle).
Local Abbreviation checkLock := (Tetris.checkLock shuffle).
Local Abbreviation rotate := (Tetris.rotate shuffle).
Local Abbreviation hardDrop := (Tetris.hardDrop shuffle).
Local Abbreviation update := (Tetris.update shuffle).
Local Abbreviation update_running := (Tetris.update_running shuffle).
Local Abbreviation restart := (Tetris.restart shuffle pow).
Local Abbreviation step := (Tetris.step shuffle pow).
Local Abbreviation reachable := (Tetris.reachable shuffle pow).

(** The figures of a game: level, lines cleared, score, fall time per line
    and time step. *)
Definition ledger s : Z * Z * Z * float * float :=
  (level_ s, linesCleared_ s, score_ s, secondsPerLine_ s, timeStep_ s).

Lemma spawnPiece_ledger s : ledger (spawnPiece s) = ledger s.
Proof.
  unfold Tetris.spawnPiece.
  destruct (Board.spawnPiece _ (board_ s)) as [spawned b]. cbn zeta.
  unfold shuffle_back, copy_back_to_front. tetris_simpl.
  destruct (nextPiece_ s + 1 =? kNumPieces); [|reflexivity].
  now destruct (shuffle _ _).
Qed.

Lemma lock_ledger s s' : lock s = Some s' -> ledger s' = ledger s.
Proof.
  intros H. apply lock_cases in H as (below & b & _ & H). cbn zeta in H.
  destruct H as [[_ ->]|[(_ & _ & ->)|(_ & _ & ->)]]; [reflexivity | | reflexivity].
  now rewrite spawnPiece_ledger.
Qed.

Lemma checkLock_ledger s s' : checkLock s = Some s' -> ledger s' = ledger s.
Proof.
  unfold Tetris.checkLock. destruct (negb _).
  - now intros [= <-].
  - destruct (_ || _); [|now intros [= <-]].
    intros H. now apply lock_ledger in H.
Qed.

Lemma moveHorizontal_ledger dCol s : ledger (moveHorizontal dCol s) = ledger s.
Proof.
  unfold Tetris.moveHorizontal. destruct (Board.moveHorizontal _ _) as [moved b].
  cbn zeta. now destruct (moved && _).
Qed.

Lemma update_running_ledger softDrop moveRight moveLeft s :
  exists s1,
    update_running softDrop moveRight moveLeft s = checkLock s1 /\
    ledger s1 = ledger s.
Proof.
  unfold Tetris.update_running. cbn zeta.
  match goal with |- context [let '(a, b) := ?e in _] => destruct e as [mr ml] end.
  eexists. split; [reflexivity|].
  repeat match goal with
         | |- ledger (if ?c then _ else _) = _ => destruct c
         | |- ledger (let '(_, _) := ?e in _) = _ => destruct e
         | |- ledger (moveHorizontal _ _) = _ => rewrite moveHorizontal_ledger
         | |- ledger (?f ?v ?s0) = _ => change (ledger (f v s0)) with (ledger s0)
         end;
    reflexivity.
Qed.

Lemma restart_ledger level s :
  ledger (restart level s) =
  (level, 0, 0, secondsPerLineForLevel pow level, timeStep_ s).
Proof.
  unfold Tetris.restart. rewrite spawnPiece_ledger.
  unfold shuffle_back, shuffle_front. tetris_simpl.
  repeat (destruct (shuffle _ _); tetris_simpl). reflexivity.
Qed.

Lemma update_ledger softDrop moveRight moveLeft s s' :
  update softDrop moveRight moveLeft s = Some s' -> ledger s' = ledger s.
Proof.
  unfold Tetris.update. destruct (pausedForLinesClear_ s).
  - destruct (flt _ _); [now intros [= <-]|].
    match goal with |- context [update_running ?a ?b ?c ?s0] =>
      destruct (update_running_ledger a b c s0) as (s1 & -> & E)
    end.
    intros H. apply checkLock_ledger in H. rewrite H, E.
    assert (forall s0, ledger (set_pausedForLinesClear false s0) = ledger s0)
      as E1 by reflexivity.
    now rewrite E1, spawnPiece_ledger.
  - destruct (update_running_ledger softDrop moveRight moveLeft s) as (s1 & -> & E).
    intros H. apply checkLock_ledger in H. now rewrite H.
Qed.

Lemma rotate_ledger rotation s s' : rotate rotation s = Some s' -> ledger s' = ledger s.
Proof.
  unfold Tetris.rotate. destruct (Board.rotate _ _) as [rotated b]. cbn zeta.
  intros H. apply checkLock_ledger in H. rewrite H.
  now destruct (rotated && _).
Qed.

Lemma hardDrop_ledger s s' :
  hardDrop s = Some s' ->
  ledger s' =
  (level_ s, linesCleared_ s,
   score_ s + (if PieceKind_eqb (Piece.kind_ (Board.piece_ (board_ s))) kNone then 0
               else 2 * level_ s *
                    (Board.ghostRow_ (board_ s) - Board.row_ (board_ s))),
   secondsPerLine_ s, timeStep_ s).
Proof.
  unfold Tetris.hardDrop. destruct (PieceKind_eqb _ _).
  - intros [= <-]. unfold ledger. now rewrite Z.add_0_r.
  - unfold Board.hardDrop. cbn zeta. intros H. apply lock_ledger in H.
    rewrite H. reflexivity.
Qed.

Lemma ledger_eq s (a b c : Z) (d e : float) :
  ledger s = (a, b, c, d, e) ->
  level_ s = a /\ linesCleared_ s = b /\ score_ s = c /\
  secondsPerLine_ s = d /\ timeStep_ s = e.
Proof. unfold ledger. intros H. inversion H. auto. Qed.

Lemma restart_figures level s :
  linesCleared_ (restart level s) = 0 /\
  secondsPerLine_ (restart level s) =
    secondsPerLineForLevel pow (level_ (restart level s)).
Proof.
  destruct (ledger_eq _ _ _ _ _ _ (restart_ledger level s)) as (E1 & E2 & _ & E4 & _).
  now rewrite E1, E2, E4.
Qed.

(** The range of the [int] of the code, which holds [level_] and [score_]. *)
Definition fits_int (z : Z) : Prop := - 2 ^ 31 <= z < 2 ^ 31.

(** The score, every intermediate result of
    [score_ += 2 * level_ * board_.hardDrop()] and its sum are in the range
    of [int]: the arithmetic of the code is the one on the integers. *)
Definition score_fits s : Prop :=
  let rows := Board.ghostRow_ (board_ s) - Board.row_ (board_ s) in
  fits_int (score_ s) /\ fits_int rows /\ fits_int (2 * level_ s) /\
  fits_int (2 * level_ s * rows) /\ fits_int (score_ s + 2 * level_ s * rows).

(** X15.  The figures of a game.  [restart(level)] sets the level, zeroes
    the number of cleared lines and the score and sets the fall time to
    [secondsPerLineForLevel(level)].  After that [update] and [rotate] change
    none of level, lines cleared, score, fall time and time step, also when
    they lock a piece or clear lines.  [hardDrop] changes none of them when
    there is no piece; with a piece it changes none but the score, to which
    it adds twice the level for every row passed, as long as that sum and
    the products on the way to it stay in the range of [int] ([score_fits];
    nothing is stated about the score beyond that range).  So in every state
    the commands reach the number of cleared lines is 0 and the fall time is
    the one of the level: clearing lines neither counts nor scores, and the
    level never rises. *)
Theorem game_figures :
  (forall level s,
     ledger (restart level s) =
     (level, 0, 0, secondsPerLineForLevel pow level, timeStep_ s)) /\
  (forall softDrop moveRight moveLeft s s',
     update softDrop moveRight moveLeft s = Some s' -> ledger s' = ledger s) /\
  (forall rotation s s', rotate rotation s = Some s' -> ledger s' = ledger s) /\
  (forall s s',
     hardDrop s = Some s' ->
     (PieceKind_eqb (Piece.kind_ (Board.piece_ (board_ s))) kNone = true ->
      ledger s' = ledger s) /\
     (PieceKind_eqb (Piece.kind_ (Board.piece_ (board_ s))) kNone = false ->
      score_fits s ->
      ledger s' =
      (level_ s, linesCleared_ s,
       score_ s + 2 * level_ s * (Board.ghostRow_ (board_ s) - Board.row_ (board_ s)),
       secondsPerLine_ s, timeStep_ s))) /\
  (forall s,
     reachable s ->
     linesCleared s = 0 /\ secondsPerLine_ s = secondsPerLineForLevel pow (level s)).
Proof.
  split; [exact restart_ledger|]. split; [exact update_ledger|].
  split; [exact rotate_ledger|]. split.
  { intros s s' H. apply hardDrop_ledger in H. rewrite H. split.
    - intros ->. unfold ledger. now rewrite Z.add_0_r.
    - intros -> _. reflexivity. }
  intros s Hr. unfold linesCleared, level.
  induction Hr as [board timeStep rng|c s s' _ [I2 I4] Hstep].
  - unfold Tetris.Tetris. apply restart_figures.
  - destruct c as [level|softDrop moveRight moveLeft|rotation|]; simpl in Hstep.
    + injection Hstep as <-. apply restart_figures.
    + apply update_ledger, ledger_eq in Hstep as (E1 & E2 & _ & E4 & _).
      now rewrite E1, E2, E4.
    + apply rotate_ledger, ledger_eq in Hstep as (E1 & E2 & _ & E4 & _).
      now rewrite E1, E2, E4.
    + apply hardDrop_ledger, ledger_eq in Hstep as (E1 & E2 & _ & E4 & _).
      now rewrite E1, E2, E4.
Qed.

End Ledger.

Section LockDown.

Import Tetris.

Context {Rng : Type}.
Variable shuffle : Rng -> list PieceKind -> list PieceKind * Rng.
Variable pow : float -> float -> float.

Implicit Types (s : Tetris.t Rng).

Local Abbreviation spawnPiece := (Tetris.spawnPiece shuffle).
Local Abbreviation lock := (Tetris.lock shuffle).
Local Abbreviation checkLock := (Tetris.checkLock shuffle).
Local Abbreviation rotate := (Tetris.rotate shuffle).
Local Abbreviation hardDrop := (Tetris.hardDrop shuffle).
Local Abbreviation update := (Tetris.update shuffle).
Local Abbreviation update_running := (Tetris.update_running shuffle).
Local Abbreviation restart := (Tetris.restart shuffle pow).
Local Abbreviation step := (Tetris.step shuffle pow).
Local Abbreviation reachable := (Tetris.reachable shuffle pow).

(** The counter of moves while locking stays within its cap, and a piece
    flagged grounded is not due for locking. *)
Definition counter_ok s : Prop :=
  0 <= nMovesWhileLocking_ s <= kLockDownMovesLimit_ /\
  (isOnGround_ s = true -> lock_due s = false).

(** From [s] to [s1] the counter has been incremented at most once, and
    only for a piece flagged grounded; the flag is as it was. *)
Definition counted_once s s1 : Prop :=
  isOnGround_ s1 = isOnGround_ s /\
  (nMovesWhileLocking_ s1 = nMovesWhileLocking_ s \/
   nMovesWhileLocking_ s1 = nMovesWhileLocking_ s + 1 /\ isOnGround_ s = true).

(** The flag and the counter are as in [s]. *)
Definition not_counted s s1 : Prop :=
  isOnGround_ s1 = isOnGround_ s /\ nMovesWhileLocking_ s1 = nMovesWhileLocking_ s.

Lemma not_counted_once s s1 : not_counted s s1 -> counted_once s s1.
Proof. intros [H1 H2]. split; [exact H1 | now left]. Qed.

Lemma moveHorizontal_counted dCol s s0 :
  not_counted s s0 -> counted_once s (moveHorizontal dCol s0).
Proof.
  intros [H1 H2]. unfold Tetris.moveHorizontal.
  destruct (Board.moveHorizontal dCol (board_ s0)) as [moved b]. cbn zeta.
  cbn [isOnGround_ set_board].
  destruct (moved && isOnGround_ s0) eqn:E.
  - apply andb_prop in E as [_ E]. split; [exact H1|]. right.
    split; [simpl; lia | congruence].
  - split; [exact H1 | left; exact H2].
Qed.

Lemma update_running_counted softDrop moveRight moveLeft s :
  exists s1,
    update_running softDrop moveRight moveLeft s = checkLock s1 /\
    counted_once s s1.
Proof.
  unfold Tetris.update_running. cbn zeta.
  match goal with |- context [let '(a, b) := ?e in _] => destruct e as [mr ml] end.
  eexists. split; [reflexivity|].
  repeat match goal with
         | |- counted_once _ (if ?c then _ else _) => destruct c
         | |- counted_once _ (let '(_, _) := ?e in _) => destruct e
         | |- counted_once _ (moveHorizontal _ _) => apply moveHorizontal_counted
         | |- counted_once ?s (?f ?v ?s0) =>
             change (counted_once s (f v s0)) with (counted_once s s0)
         | |- not_counted _ (if ?c then _ else _) => destruct c
         | |- not_counted ?s (?f ?v ?s0) =>
             change (not_counted s (f v s0)) with (not_counted s s0)
         end;
    try (apply not_counted_once); split; reflexivity.
Qed.

Lemma lock_counter_ok s s' :
  0 <= nMovesWhileLocking_ s <= kLockDownMovesLimit_ ->
  lock s = Some s' -> counter_ok s'.
Proof.
  intros Hn H. apply lock_effect in H as (_ & Hg & Hc & _).
  split; [unfold kLockDownMovesLimit_ in *; lia|]. congruence.
Qed.

Lemma checkLock_counter_ok s s' :
  0 <= nMovesWhileLocking_ s <= kLockDownMovesLimit_ ->
  checkLock s = Some s' -> counter_ok s'.
Proof.
  intros Hn. unfold Tetris.checkLock.
  destruct (Board.isOnGround (board_ s)); simpl negb; cbv iota.
  - destruct (_ || _) eqn:Ed; [now apply lock_counter_ok|].
    intros [= <-]. split; [exact Hn|]. intros _. exact Ed.
  - intros [= <-]. split; [exact Hn | discriminate].
Qed.

(** A move counted for a piece that [counter_ok] admits keeps the counter
    within the cap. *)
Lemma counted_once_bound s s1 :
  counter_ok s -> counted_once s s1 ->
  0 <= nMovesWhileLocking_ s1 <= kLockDownMovesLimit_.
Proof.
  intros [Hn Hg] [_ [E|[E Ht]]]; [now rewrite E|].
  specialize (Hg Ht). unfold lock_due in Hg. apply orb_false_iff in Hg as [_ Hg].
  destruct (Z.geb_spec (nMovesWhileLocking_ s) kLockDownMovesLimit_); [discriminate|].
  unfold kLockDownMovesLimit_ in *. lia.
Qed.

Lemma restart_counter_ok level s : counter_ok (restart level s).
Proof.
  unfold Tetris.restart.
  match goal with |- context [Tetris.spawnPiece shuffle ?s0] =>
    pose proof (spawnPiece_fields shuffle s0) as (_ & _ & Hn & _ & Hg & _);
    assert (isOnGround_ s0 = false) as H0
  end.
  { unfold shuffle_back, shuffle_front. tetris_simpl.
    repeat (destruct (shuffle _ _); tetris_simpl). reflexivity. }
  split; [rewrite Hn; unfold kLockDownMovesLimit_; lia|].
  rewrite Hg, H0. discriminate.
Qed.

Lemma step_counter_ok c s s' : counter_ok s -> step c s = Some s' -> counter_ok s'.
Proof.
  intros Hs. destruct c as [level|softDrop moveRight moveLeft|rotation|]; simpl.
  - intros [= <-]. apply restart_counter_ok.
  - unfold Tetris.update. destruct (pausedForLinesClear_ s).
    + destruct (flt _ _).
      * intros [= <-]. exact Hs.
      * match goal with |- context [Tetris.spawnPiece shuffle ?s2] =>
          pose proof (spawnPiece_fields shuffle s2) as (_ & _ & Hn & _);
          cbv zeta in Hn;
          generalize dependent (Tetris.spawnPiece shuffle s2)
        end.
        intros s3 Hn.
        destruct (update_running_counted softDrop moveRight moveLeft
                    (set_pausedForLinesClear false s3)) as (s1 & -> & H1 & Hc).
        cbn [nMovesWhileLocking_ set_pausedForLinesClear] in Hc.
        apply checkLock_counter_ok. unfold kLockDownMovesLimit_. lia.
    + destruct (update_running_counted softDrop moveRight moveLeft s) as (s1 & -> & Hc).
      apply checkLock_counter_ok. now apply (counted_once_bound s).
  - unfold Tetris.rotate. destruct (Board.rotate _ _) as [rotated b]. cbn zeta.
    apply checkLock_counter_ok.
    apply (counted_once_bound s); [exact Hs|].
    cbn [isOnGround_ set_board].
    destruct (rotated && isOnGround_ s) eqn:E.
    + apply andb_prop in E as [_ E]. split; [reflexivity|]. right.
      split; [simpl; lia | exact E].
    + split; [reflexivity | left; reflexivity].
  - unfold Tetris.hardDrop. destruct (PieceKind_eqb _ _).
    + intros [= <-]. exact Hs.
    + destruct (Board.hardDrop _) as [rows b]. cbn zeta.
      apply lock_counter_ok. exact (proj1 Hs).
Qed.

(** X16.  The lock-down counter is bounded.  In every state the commands
    reach, the number of moves counted while locking is between 0 and
    [kLockDownMovesLimit_] (15), and whenever the piece is flagged grounded
    the lock condition does not hold: the counter is below 15 and the
    locking timer below [kLockDownTimeLimit_].  A player can therefore
    postpone the lock of one piece by at most 15 counted moves. *)
Theorem lock_down_counter_bounded s :
  reachable s ->
  0 <= nMovesWhileLocking_ s <= kLockDownMovesLimit_ /\
  (isOnGround_ s = true ->
   nMovesWhileLocking_ s < kLockDownMovesLimit_ /\
   fge (lockingTimer_ s) kLockDownTimeLimit_ = false).
Proof.
  intros Hr.
  assert (counter_ok s) as [Hn Hg].
  { induction Hr as [board timeStep rng|c s s' _ IH Hstep].
    - unfold Tetris.Tetris. apply restart_counter_ok.
    - exact (step_counter_ok c s s' IH Hstep). }
  split; [exact Hn|]. intros Ht. specialize (Hg Ht).
  unfold lock_due in Hg. apply orb_false_iff in Hg as [Hg1 Hg2].
  destruct (Z.geb_spec (nMovesWhileLocking_ s) kLockDownMovesLimit_); [discriminate|].
  split; [lia | exact Hg1].
Qed.

End LockDown.

(** ** Controller: the next piece and the start of a game *)

Section NextPiece.

Import Tetris.

Context {Rng : Type}.
Variable shuffle : Rng -> list PieceKind -> list PieceKind * Rng.
Variable pow : float -> float -> float.

Hypothesis shuffle_permutes :
  forall (rng : Rng) (range : list PieceKind), Permutation range (fst (shuffle rng range)).

Implicit Types (s : Tetris.t Rng).

Local Abbreviation spawnPiece := (Tetris.spawnPiece shuffle).
Local Abbreviation restart := (Tetris.restart shuffle pow).
Local Abbreviation reachable := (Tetris.reachable shuffle pow).

(** A sound bag has 14 entries and the entry at the draw index is one of
    the seven kinds. *)
Lemma bag_ok_drawn (bag : list PieceKind) (index : Z) (rng : Rng) :
  bag_ok (bag, index, rng) ->
  length bag = 14%nat /\
  exists kind, vat bag index = Some kind /\ In kind all_kinds.
Proof.
  intros (Hi & Hf & Hb). unfold kNumPieces in *.
  change (Z.to_nat 7) with 7%nat in *.
  pose proof (Permutation_length Hf) as Lf. pose proof (Permutation_length Hb) as Lb.
  change (length all_kinds) with 7%nat in Lf, Lb.
  assert (length bag = 14%nat) as Hlen
    by (rewrite <- (firstn_skipn 7 bag), length_app; lia).
  split; [exact Hlen|].
  destruct (vat_Some bag index ltac:(lia)) as [kind E].
  exists kind. split; [exact E|].
  apply (Permutation_in kind (Permutation_sym Hf)).
  unfold vat in E. destruct (Z.ltb_spec index 0); [lia|].
  rewrite <- (firstn_skipn 7 bag) in E.
  rewrite nth_error_app1 in E by lia.
  now apply nth_error_In in E.
Qed.

Lemma all_kinds_real (kind : PieceKind) : In kind all_kinds -> kind <> kNone.
Proof. unfold all_kinds. simpl. intuition congruence. Qed.

(** X17.  In every state the commands reach, the bag has its 14 entries,
    the draw index is in 0..6, the read [bag_[nextPiece_]] is inside the
    vector, and the kind read is one of the seven kinds: [nextPiece()] never
    returns the none piece, and [spawnPiece] never spawns it. *)
Theorem next_piece_is_real s :
  reachable s ->
  length (bag_ s) = 14%nat /\
  0 <= nextPiece_ s < kNumPieces /\
  exists kind,
    vat (bag_ s) (nextPiece_ s) = Some kind /\
    In kind all_kinds /\ kind <> kNone /\
    nextPiece s = Piece.Piece kind /\
    Board.piece_ (board_ (spawnPiece s)) = Piece.Piece kind.
Proof.
  intros Hr. pose proof (reachable_bag_ok shuffle pow shuffle_permutes s Hr) as Hok.
  unfold bag_of in Hok. pose proof Hok as (Hi & _).
  destruct (bag_ok_drawn _ _ _ Hok) as (Hlen & kind & E & Hin).
  split; [exact Hlen|]. split; [exact Hi|].
  exists kind. split; [exact E|]. split; [exact Hin|].
  split; [now apply all_kinds_real|].
  assert (vget kNone (bag_ s) (nextPiece_ s) = kind) as Ev by (unfold vget; now rewrite E).
  split; [unfold nextPiece; now rewrite Ev|].
  pose proof (spawnPiece_fields shuffle s) as (Hb & _). cbv zeta in Hb.
  rewrite Hb. unfold drawn. rewrite Ev. apply spawnPiece_piece.
Qed.

(** The two shuffles of [restart] keep the bag sound and touch nothing
    else. *)
Lemma restart_shuffles s :
  bag_ok (bag_of s) ->
  let s0 := shuffle_back shuffle (shuffle_front shuffle s) in
  bag_ok (bag_of s0) /\ board_ s0 = board_ s /\
  isOnGround_ s0 = isOnGround_ s /\ lockingTimer_ s0 = lockingTimer_ s /\
  pausedForLinesClear_ s0 = pausedForLinesClear_ s /\
  linesClearTimer_ s0 = linesClearTimer_ s.
Proof.
  intros (Hi & Hf & Hb). unfold shuffle_back, shuffle_front. cbv zeta.
  pose proof (shuffle_permutes (rng_ s) (firstn (Z.to_nat kNumPieces) (bag_ s))) as H1.
  destruct (shuffle (rng_ s) (firstn (Z.to_nat kNumPieces) (bag_ s))) as [front' g1].
  simpl in H1. tetris_simpl.
  assert (Permutation all_kinds front') as Hf'
    by now apply Permutation_trans with (l' := firstn (Z.to_nat kNumPieces) (bag_ s)).
  pose proof (all_kinds_length _ Hf') as Lf.
  rewrite (skipn_app_exact _ _ _ Lf), (firstn_app_exact _ _ _ Lf).
  pose proof (shuffle_permutes g1 (skipn (Z.to_nat kNumPieces) (bag_ s))) as H2.
  destruct (shuffle g1 (skipn (Z.to_nat kNumPieces) (bag_ s))) as [back' g2].
  simpl in H2. unfold bag_of, bag_ok. tetris_simpl.
  rewrite (skipn_app_exact _ _ _ Lf), (firstn_app_exact _ _ _ Lf).
  repeat split; try assumption; try apply Hi.
  now apply Permutation_trans with (l' := skipn (Z.to_nat kNumPieces) (bag_ s)).
Qed.

(** X18.  [restart] always starts a game.  On a board at least 4 columns
    wide and 2 rows high, with a sound bag (as in every state the commands
    reach), [restart] leaves the game not over: the grid is empty, one of
    the seven kinds has been spawned with its upper tiles in row 0 and its
    ghost row at [nRows - 2], the controller is not paused, the piece is not
    flagged grounded, and the locking timer, the line-clear timer and the
    lock-down counter are 0. *)
Theorem restart_starts_game (level : Z) s :
  bag_ok (bag_of s) ->
  4 <= Board.nCols (board_ s) -> 2 <= Board.nRows (board_ s) ->
  let s' := restart level s in
  isGameOver s' = false /\
  (forall r c, Board.tileAt (board_ s') r c = kEmpty) /\
  (exists kind,
     In kind all_kinds /\
     Board.piece_ (board_ s') = Piece.Piece kind /\
     Board.row_ (board_ s') = (if PieceKind_eqb kind kPieceI then -1 else 0)) /\
  Board.ghostRow_ (board_ s') = Board.nRows (board_ s) - 2 /\
  isPausedForLinesClear s' = false /\
  isOnGround_ s' = false /\
  lockingTimer_ s' = 0%float /\
  linesClearTimer_ s' = 0%float /\
  nMovesWhileLocking_ s' = 0.
Proof.
  intros Hok Hcols Hrows. cbv zeta. unfold isGameOver, isPausedForLinesClear, Tetris.restart.
  match goal with |- context [shuffle_front shuffle ?s1] =>
    destruct (restart_shuffles s1 Hok) as (Hok0 & Hb0 & Hg0 & Ht0 & Hp0 & Hl0);
    cbv zeta in Hok0, Hb0, Hg0, Ht0, Hp0, Hl0;
    tetris_simpl_in Hb0; tetris_simpl_in Hg0; tetris_simpl_in Ht0;
    tetris_simpl_in Hp0; tetris_simpl_in Hl0;
    set (s0 := shuffle_back shuffle (shuffle_front shuffle s1)) in *
  end.
  pose proof (spawnPiece_fields shuffle s0) as (Hb & Hgo & Hn & Ht & Hg & Hp & Hl & _).
  cbv zeta in Hb, Hgo, Hn, Ht, Hg, Hp, Hl.
  destruct (bag_ok_drawn _ _ _ Hok0) as (_ & kind & E & Hin).
  assert (drawn s0 = kind) as Ed by (unfold drawn, vget; now rewrite E).
  pose proof (all_kinds_real kind Hin) as Hk.
  destruct (clear_empty (board_ s)) as (He & Hr & Hc & _).
  destruct (spawnPiece_empty kind (Board.clear (board_ s)) He
              ltac:(now rewrite Hc) ltac:(now rewrite Hr) Hk) as [Es Hgr].
  cbv zeta in Es, Hgr.
  rewrite Ed, Hb0 in Hb, Hgo. rewrite Es in Hb, Hgo. cbn [fst snd] in Hb, Hgo.
  rewrite Hgo, Hb, Hn, Ht, Hg, Hp, Hl, Hg0, Ht0, Hp0, Hl0.
  split; [reflexivity|]. split; [exact He|]. split.
  { exists kind. split; [exact Hin|]. split; reflexivity. }
  split; [exact Hgr|]. repeat split.
Qed.

End NextPiece.
(** ** No command writes outside the grid *)

Section Settled.

Import Board.

Implicit Types (b : Board.t).

(** The board has no active piece, or the piece collides with nothing at
    its anchor row and at its ghost row. *)
Definition settled b : Prop :=
  piece_ b = Piece.Piece kNone \/
  (valid b (row_ b) = true /\ valid b (ghostRow_ b) = true).

(** The board of the game is at least 4 columns wide and 2 rows high. *)
Definition dims_ok b : Prop := 4 <= nCols b /\ 2 <= nRows b.

Lemma valid_ext b b' (r : Z) :
  nRows b' = nRows b -> nCols b' = nCols b -> tiles_ b' = tiles_ b ->
  col_ b' = col_ b -> piece_ b' = piece_ b ->
  valid b' r = valid b r.
Proof.
  intros Hr Hc Ht Hcol Hp. unfold valid. rewrite Hcol, Hp.
  now apply isPositionPossible_ext.
Qed.

Lemma updateGhostRow_settled b :
  valid b (row_ b) = true -> settled (updateGhostRow b).
Proof.
  intros Hv. right.
  rewrite !(valid_ext b (updateGhostRow b)) by reflexivity.
  split; [exact Hv|]. unfold updateGhostRow. cbn [ghostRow_ set_ghostRow].
  pose proof (ghost_loop_ge b (Z.to_nat (nRows b - row_ b)) (row_ b)) as Hge.
  destruct (Z.eq_dec (ghost_loop (Z.to_nat (nRows b - row_ b)) b (row_ b)) (row_ b))
    as [-> | Hne]; [exact Hv|].
  apply (ghost_loop_valid b (Z.to_nat (nRows b - row_ b)) (row_ b)). lia.
Qed.

Lemma valid_not_none b (r : Z) : valid b r = true -> piece_ b <> Piece.Piece kNone.
Proof.
  intros Hv E. unfold valid in Hv. apply isPositionPossible_kind in Hv.
  rewrite E in Hv. now apply Hv.
Qed.

Lemma spawnPiece_settled kind b :
  fst (spawnPiece kind b) = true -> settled (snd (spawnPiece kind b)).
Proof.
  destruct (spawnPiece kind b) as [[|] b'] eqn:E; [|discriminate]. intros _.
  apply spawnPiece_true in E as (row & -> & Hv). cbv zeta in Hv.
  cbn [snd]. apply updateGhostRow_settled. exact Hv.
Qed.

Lemma moveHorizontal_settled dCol b :
  settled b -> settled (snd (moveHorizontal dCol b)).
Proof.
  intros Hs. unfold moveHorizontal.
  destruct (isPositionPossible b (row_ b) (col_ b + dCol) (piece_ b)) eqn:E;
    [|exact Hs].
  cbn [snd]. apply updateGhostRow_settled. unfold valid.
  cbn [row_ col_ piece_ set_col]. now rewrite (isPositionPossible_ext b) by reflexivity.
Qed.

Lemma moveVertical_settled dRow b :
  settled b -> settled (snd (moveVertical dRow b)).
Proof.
  intros Hs. unfold moveVertical.
  destruct (isPositionPossible b (row_ b + dRow) (col_ b) (piece_ b)) eqn:E;
    [|exact Hs].
  cbn [snd]. destruct Hs as [Hn|[_ Hg]].
  - exfalso. apply (valid_not_none b (row_ b + dRow)); assumption.
  - right. rewrite !(valid_ext b (set_row _ b)) by reflexivity.
    cbn [row_ ghostRow_ set_row]. now split.
Qed.

Lemma rotate_settled rotation b :
  settled b -> settled (snd (rotate rotation b)).
Proof.
  intros Hs. unfold rotate. destruct (_ || _); [exact Hs|].
  destruct (try_kicks_spec (Piece.rotate rotation (piece_ b))
              (Piece.kicks rotation (piece_ b)) b) as [(r & c & _ & Hv & ->)| ->];
    [|exact Hs].
  cbn [snd]. apply updateGhostRow_settled. unfold valid.
  cbn [row_ col_ piece_ set_col set_row set_piece].
  now rewrite (isPositionPossible_ext b) by reflexivity.
Qed.

Lemma hardDrop_settled b : settled b -> settled (snd (hardDrop b)).
Proof.
  intros [Hn|[_ Hg]]; [now left|]. right. unfold hardDrop. cbn [snd].
  rewrite !(valid_ext b (set_row _ b)) by reflexivity.
  cbn [row_ ghostRow_ set_row]. now split.
Qed.

Lemma settled_in_grid b : settled b -> piece_in_grid b.
Proof.
  intros [Hn|[Hv _]]; [|now apply possible_in_grid].
  intros pr pc Hpr. rewrite Hn in Hpr. simpl in Hpr. lia.
Qed.

(** The piece stays inside the grid when it is moved. *)
Lemma moveHorizontal_in_grid dCol b :
  piece_in_grid b -> piece_in_grid (snd (moveHorizontal dCol b)).
Proof.
  intros Hin. unfold moveHorizontal.
  destruct (isPositionPossible b (row_ b) (col_ b + dCol) (piece_ b)) eqn:E;
    [|exact Hin].
  cbn [snd]. apply possible_in_grid.
  cbn [row_ col_ piece_ set_col updateGhostRow set_ghostRow].
  now rewrite (isPositionPossible_ext b) by reflexivity.
Qed.

Lemma moveVertical_in_grid dRow b :
  piece_in_grid b -> piece_in_grid (snd (moveVertical dRow b)).
Proof.
  intros Hin. unfold moveVertical.
  destruct (isPositionPossible b (row_ b + dRow) (col_ b) (piece_ b)) eqn:E;
    [|exact Hin].
  cbn [snd]. apply possible_in_grid. cbn [row_ col_ piece_ set_row].
  now rewrite (isPositionPossible_ext b) by reflexivity.
Qed.

Lemma rotate_in_grid rotation b :
  piece_in_grid b -> piece_in_grid (snd (rotate rotation b)).
Proof.
  intros Hin. unfold rotate. destruct (_ || _); [exact Hin|].
  destruct (try_kicks_spec (Piece.rotate rotation (piece_ b))
              (Piece.kicks rotation (piece_ b)) b) as [(r & c & _ & Hv & ->)| ->];
    [|exact Hin].
  cbn [snd]. apply possible_in_grid.
  cbn [row_ col_ piece_ set_col set_row set_piece updateGhostRow set_ghostRow].
  now rewrite (isPositionPossible_ext b) by reflexivity.
Qed.

(** Whether it succeeds or not, [spawnPiece] leaves the piece inside the
    grid of a board of the game's proportions. *)
Lemma spawnPiece_in_grid kind b :
  dims_ok b -> piece_in_grid (snd (spawnPiece kind b)).
Proof.
  intros [Hcols Hrows].
  destruct (spawnPiece kind b) as [[|] b'] eqn:E.
  - apply settled_in_grid. change b' with (snd (true, b')). rewrite <- E.
    apply spawnPiece_settled. now rewrite E.
  - apply spawnPiece_false in E as [-> _]. cbn [snd].
    intros pr pc. cbn [row_ col_ piece_ nRows nCols set_col set_row set_piece].
    destruct (PieceKind_eqb kind kNone) eqn:Ek.
    + apply PieceKind_eqb_eq in Ek. subst kind. simpl. lia.
    + apply PieceKind_eqb_neq in Ek.
      destruct (spawn_shape kind Ek) as (Hside & Hrows01 & _). cbv zeta in *.
      intros Hpr Hpc Ho. destruct (Hrows01 pr pc Hpr Hpc Ho) as [Hle _].
      pose proof (Z.quot_rem' (nCols b - Piece.bBoxSide_ (Piece.Piece kind)) 2) as Hq.
      pose proof (Z.rem_bound_pos (nCols b - Piece.bBoxSide_ (Piece.Piece kind)) 2
                    ltac:(lia) ltac:(lia)).
      unfold kRowsAbove_. lia.
Qed.

Lemma frozePiece_settled b r b' : frozePiece b = Some (r, b') -> settled b'.
Proof. intros H. apply frozePiece_Some in H as (v & -> & _). now left. Qed.

End Settled.

Section Safety.

Import Tetris.

Context {Rng : Type}.
Variable shuffle : Rng -> list PieceKind -> list PieceKind * Rng.
Variable pow : float -> float -> float.

Implicit Types (s : Tetris.t Rng).

Local Abbreviation spawnPiece := (Tetris.spawnPiece shuffle).
Local Abbreviation lock := (Tetris.lock shuffle).
Local Abbreviation checkLock := (Tetris.checkLock shuffle).
Local Abbreviation rotate := (Tetris.rotate shuffle).
Local Abbreviation hardDrop := (Tetris.hardDrop shuffle).
Local Abbreviation update := (Tetris.update shuffle).
Local Abbreviation update_running := (Tetris.update_running shuffle).
Local Abbreviation restart := (Tetris.restart shuffle pow).
Local Abbreviation step := (Tetris.step shuffle pow).

(** The board of the controller has the game's proportions and a grid of
    the right size, and while the game is not over its piece, if any,
    collides with nothing at its anchor row and at its ghost row. *)
Definition safe s : Prop :=
  dims_ok (board_ s) /\ grid_ok (board_ s) /\
  (gameOver_ s = false -> settled (board_ s)).

(** From [s] to [s1] the game-over flag and the grid are kept, and so are a
    collision-free piece and a piece inside the grid. *)
Definition kept s s1 : Prop :=
  gameOver_ s1 = gameOver_ s /\
  same_grid (board_ s) (board_ s1) /\
  (settled (board_ s) -> settled (board_ s1)) /\
  (piece_in_grid (board_ s) -> piece_in_grid (board_ s1)).

Lemma same_grid_refl (b : Board.t) : same_grid b b.
Proof. repeat split. Qed.

Lemma same_grid_trans (b1 b2 b3 : Board.t) :
  same_grid b1 b2 -> same_grid b2 b3 -> same_grid b1 b3.
Proof.
  intros (A1 & A2 & A3 & A4 & A5) (B1 & B2 & B3 & B4 & B5).
  repeat split; congruence.
Qed.

Lemma kept_refl s : kept s s.
Proof. split; [reflexivity|]. split; [apply same_grid_refl|]. tauto. Qed.

Lemma moveHorizontal_kept dCol s s0 : kept s s0 -> kept s (moveHorizontal dCol s0).
Proof.
  intros (H1 & H2 & H3 & H4).
  assert (gameOver_ (moveHorizontal dCol s0) = gameOver_ s0 /\
          board_ (moveHorizontal dCol s0) = snd (Board.moveHorizontal dCol (board_ s0)))
    as [E1 E2].
  { unfold Tetris.moveHorizontal.
    destruct (Board.moveHorizontal dCol (board_ s0)) as [moved b]. cbn zeta.
    destruct (moved && _); split; reflexivity. }
  unfold kept. rewrite E1, E2. split; [exact H1|]. split; [|split].
  - apply (same_grid_trans _ _ _ H2), moveHorizontal_same_grid.
  - intros H. now apply moveHorizontal_settled, H3.
  - intros H. now apply moveHorizontal_in_grid, H4.
Qed.

Lemma moveVertical_kept s s0 :
  kept s s0 ->
  kept s (let '(_, b) := Board.moveVertical 1 (board_ s0) in
          set_moveDownTimer 0 (set_board b s0)).
Proof.
  intros (H1 & H2 & H3 & H4).
  pose proof (moveVertical_same_grid 1 (board_ s0)) as G.
  pose proof (moveVertical_settled 1 (board_ s0)) as S.
  pose proof (moveVertical_in_grid 1 (board_ s0)) as I.
  destruct (Board.moveVertical 1 (board_ s0)) as [moved b]. cbn [snd] in G, S, I.
  split; [exact H1|]. cbn [board_ set_moveDownTimer set_board].
  split; [exact (same_grid_trans _ _ _ H2 G)|]. split; auto.
Qed.

Lemma update_running_kept softDrop moveRight moveLeft s :
  exists s1,
    update_running softDrop moveRight moveLeft s = checkLock s1 /\ kept s s1.
Proof.
  unfold Tetris.update_running. cbn zeta.
  match goal with |- context [let '(a, b) := ?e in _] => destruct e as [mr ml] end.
  eexists. split; [reflexivity|].
  repeat match goal with
         | |- kept _ (if ?c then _ else _) => destruct c
         | |- kept _ (let '(_, _) := Board.moveVertical _ _ in _) =>
             apply moveVertical_kept
         | |- kept _ (moveHorizontal _ _) => apply moveHorizontal_kept
         | |- kept ?s (?f ?v ?s0) => change (kept s (f v s0)) with (kept s s0)
         end;
    apply kept_refl.
Qed.

Lemma kept_safe s s1 : kept s s1 -> safe s -> safe s1.
Proof.
  intros (H1 & H2 & H3 & _) ([Hc Hr] & Hg & Hs).
  pose proof H2 as (E1 & E2 & _).
  split; [unfold dims_ok; rewrite E1, E2; now split|].
  split; [exact (same_grid_ok _ _ H2 Hg)|].
  rewrite H1. intros H. now apply H3, Hs.
Qed.

(** The controller's [spawnPiece] ends with the game over or with a piece
    that collides with nothing; either way the piece is inside the grid. *)
Lemma spawnPiece_safe s :
  dims_ok (board_ s) -> grid_ok (board_ s) ->
  safe (spawnPiece s) /\ piece_in_grid (board_ (spawnPiece s)).
Proof.
  intros Hd Hg.
  pose proof (spawnPiece_fields shuffle s) as (Hb & Hgo & _). cbv zeta in Hb, Hgo.
  pose proof (spawnPiece_same_grid (drawn s) (board_ s)) as G.
  rewrite <- Hb in G. pose proof G as (E1 & E2 & _).
  split; [|rewrite Hb; now apply spawnPiece_in_grid].
  split; [unfold dims_ok; rewrite E1, E2; exact Hd|].
  split; [exact (same_grid_ok _ _ G Hg)|].
  rewrite Hgo, Hb. intros H. apply negb_false_iff in H. now apply spawnPiece_settled.
Qed.

Lemma lock_safe s s' :
  dims_ok (board_ s) -> grid_ok (board_ s) -> lock s = Some s' -> safe s'.
Proof.
  intros [Hc Hr] Hg H. apply lock_cases in H as (below & b & Hf & H).
  destruct (frozePiece_grid_ok (board_ s) below b
              ltac:(unfold Board.kRowsAbove_; lia) ltac:(lia) Hf) as [[E1 E2] Hok].
  specialize (Hok Hg).
  assert (dims_ok b) as Hd by (unfold dims_ok; rewrite E1, E2; now split).
  pose proof (frozePiece_settled _ _ _ Hf) as Hs.
  cbn zeta in H. destruct H as [[_ ->]|[(_ & _ & ->)|(_ & _ & ->)]].
  - split; [exact Hd|]. split; [exact Hok | discriminate].
  - apply spawnPiece_safe; assumption.
  - split; [exact Hd|]. split; [exact Hok|]. intros _. exact Hs.
Qed.

Lemma checkLock_safe s s' : safe s -> checkLock s = Some s' -> safe s'.
Proof.
  intros Hs. unfold Tetris.checkLock. destruct (negb _).
  - intros [= <-]. exact Hs.
  - destruct (_ || _); [|intros [= <-]; exact Hs].
    destruct Hs as (Hd & Hg & _). now apply lock_safe.
Qed.

Lemma checkLock_defined s :
  grid_ok (board_ s) -> piece_in_grid (board_ s) -> exists s', checkLock s = Some s'.
Proof.
  intros [Hlen _] Hin. unfold Tetris.checkLock. destruct (negb _); [eauto|].
  destruct (_ || _); [|eauto].
  apply (lock_defined shuffle); assumption.
Qed.

Lemma restart_safe level s :
  dims_ok (board_ s) -> grid_ok (board_ s) -> safe (restart level s).
Proof.
  intros Hd [Hg1 Hg2]. unfold Tetris.restart.
  match goal with |- context [Tetris.spawnPiece shuffle ?s0] =>
    assert (board_ s0 = Board.clear (board_ s)) as Hb
  end.
  { unfold shuffle_back, shuffle_front. tetris_simpl.
    repeat (destruct (shuffle _ _); tetris_simpl). reflexivity. }
  destruct (clear_empty (board_ s)) as (_ & Er & Ec & El).
  apply spawnPiece_safe; rewrite Hb.
  - unfold dims_ok. rewrite Er, Ec. exact Hd.
  - split; [now rewrite El, Er, Ec|]. unfold Board.clear.
    cbn [Board.linesToClear_ Board.tilesAfterClear_ Board.tiles_ Board.set_tiles].
    rewrite repeat_length. exact Hg2.
Qed.

Lemma rotate_kept rotation s :
  exists s1, rotate rotation s = checkLock s1 /\ kept s s1.
Proof.
  unfold Tetris.rotate.
  pose proof (rotate_same_grid rotation (board_ s)) as G.
  pose proof (rotate_settled rotation (board_ s)) as S.
  pose proof (rotate_in_grid rotation (board_ s)) as I.
  destruct (Board.rotate rotation (board_ s)) as [rotated b]. cbn [snd] in G, S, I.
  cbn zeta. eexists. split; [reflexivity|].
  destruct (rotated && _); (split; [reflexivity|]); (split; [exact G|]); split; assumption.
Qed.

(** X19.  No command writes outside the grid.  A controller constructed on
    a board at least 4 columns wide and 2 rows high is [safe]; every command
    keeps a safe state safe; and in a safe state in which the game is not
    over every command ([restart], [update] with any keys, [rotate] in both
    directions, [hardDrop]) is defined: the writes of [frozePiece] through
    [setTile] all fall inside the vector of tiles. *)
Theorem commands_stay_in_grid :
  (forall (nRows nCols : Z) (timeStep : float) (rng : Rng),
     2 <= nRows -> 4 <= nCols ->
     safe (Tetris shuffle pow (Board.Board nRows nCols) timeStep rng)) /\
  (forall c s s', safe s -> step c s = Some s' -> safe s') /\
  (forall c s, safe s -> isGameOver s = false -> exists s', step c s = Some s').
Proof.
  split; [|split].
  - intros nRows nCols timeStep rng Hr Hc. unfold Tetris.Tetris.
    apply restart_safe; cbn [board_].
    + split; assumption.
    + apply Board_grid_ok; unfold Board.kRowsAbove_; lia.
  - intros c s s' Hs.
    destruct c as [level|softDrop moveRight moveLeft|rotation|]; simpl.
    + intros [= <-]. destruct Hs as (Hd & Hg & _). now apply restart_safe.
    + unfold Tetris.update. destruct (pausedForLinesClear_ s).
      * destruct (flt _ _); [intros [= <-]; exact Hs|].
        destruct Hs as ([Hc Hr] & Hg & _).
        destruct (clearLines_grid_ok (board_ s)) as [[E1 E2] Hok].
        match goal with |- context [Tetris.spawnPiece shuffle ?s2] =>
          assert (safe (Tetris.spawnPiece shuffle s2)) as H3
            by (apply spawnPiece_safe; tetris_simpl;
                [unfold dims_ok; rewrite E1, E2; now split | now apply Hok]);
          generalize dependent (Tetris.spawnPiece shuffle s2)
        end.
        intros s3 H3.
        destruct (update_running_kept softDrop moveRight moveLeft
                    (set_pausedForLinesClear false s3)) as (s1 & -> & Hk).
        apply checkLock_safe. apply (kept_safe _ _ Hk). exact H3.
      * destruct (update_running_kept softDrop moveRight moveLeft s) as (s1 & -> & Hk).
        apply checkLock_safe. exact (kept_safe _ _ Hk Hs).
    + destruct (rotate_kept rotation s) as (s1 & -> & Hk).
      apply checkLock_safe. exact (kept_safe _ _ Hk Hs).
    + unfold Tetris.hardDrop. destruct (PieceKind_eqb _ _); [intros [= <-]; exact Hs|].
      unfold Board.hardDrop. cbn zeta. destruct Hs as (Hd & Hg & _).
      apply lock_safe; cbn [board_ set_board set_score]; [exact Hd | exact Hg].
  - intros c s Hs Hgo. unfold isGameOver in Hgo. pose proof Hs as (Hd & Hg & Hset).
    specialize (Hset Hgo).
    destruct c as [level|softDrop moveRight moveLeft|rotation|]; simpl.
    + eauto.
    + unfold Tetris.update. destruct (pausedForLinesClear_ s).
      * destruct (flt _ _); [eauto|].
        destruct (clearLines_grid_ok (board_ s)) as [[E1 E2] Hok].
        match goal with |- context [Tetris.spawnPiece shuffle ?s2] =>
          assert (safe (Tetris.spawnPiece shuffle s2) /\
                  piece_in_grid (board_ (Tetris.spawnPiece shuffle s2))) as H3
            by (apply spawnPiece_safe; tetris_simpl;
                [unfold dims_ok; rewrite E1, E2; exact Hd | now apply Hok]);
          generalize dependent (Tetris.spawnPiece shuffle s2)
        end.
        intros s3 [(_ & Hg3 & _) Hin3].
        destruct (update_running_kept softDrop moveRight moveLeft
                    (set_pausedForLinesClear false s3)) as (s1 & -> & Hk).
        destruct Hk as (_ & G & _ & Hin).
        apply checkLock_defined; [exact (same_grid_ok _ _ G Hg3) | now apply Hin].
      * destruct (update_running_kept softDrop moveRight moveLeft s) as (s1 & -> & Hk).
        destruct Hk as (_ & G & _ & Hin).
        apply checkLock_defined; [exact (same_grid_ok _ _ G Hg)|].
        now apply Hin, settled_in_grid.
    + destruct (rotate_kept rotation s) as (s1 & -> & Hk).
      destruct Hk as (_ & G & _ & Hin).
      apply checkLock_defined; [exact (same_grid_ok _ _ G Hg)|].
      now apply Hin, settled_in_grid.
    + unfold Tetris.hardDrop. destruct (PieceKind_eqb _ _); [eauto|].
      unfold Board.hardDrop. cbn zeta.
      apply (lock_defined shuffle); cbn [board_ set_board set_score].
      * exact (proj1 Hg).
      * apply settled_in_grid.
        change (Board.set_row (Board.ghostRow_ (board_ s)) (board_ s))
          with (snd (Board.hardDrop (board_ s))).
        now apply hardDrop_settled.
Qed.

End Safety.
(** ** Commands while no piece is active *)

Section NoPiece.

Import Tetris.

Context {Rng : Type}.
Variable shuffle : Rng -> list PieceKind -> list PieceKind * Rng.

Implicit Types (s : Tetris.t Rng).

Local Abbreviation lock := (Tetris.lock shuffle).
Local Abbreviation checkLock := (Tetris.checkLock shuffle).
Local Abbreviation rotate := (Tetris.rotate shuffle).
Local Abbreviation hardDrop := (Tetris.hardDrop shuffle).

(** Without a piece there is nothing to freeze: [frozePiece] writes nothing
    and reports that no tile is below the skyline. *)
Lemma frozePiece_none (b : Board.t) :
  Board.piece_ b = Piece.Piece kNone ->
  Board.frozePiece b =
  Some (false, Board.set_piece (Piece.Piece kNone) (Board.findLinesToClear b)).
Proof.
  intros Hp. unfold Board.frozePiece. rewrite Hp.
  change (Piece.bBoxSide_ (Piece.Piece kNone)) with 0.
  rewrite for_range_empty by lia. reflexivity.
Qed.

Lemma isOnGround_none (b : Board.t) :
  Board.piece_ b = Piece.Piece kNone -> Board.isOnGround b = true.
Proof.
  intros Hp. unfold Board.isOnGround, Board.isPositionPossible. now rewrite Hp.
Qed.

(** X20.  While no piece is active (after a lock that found lines to clear,
    during the pause, or after a lock above the skyline) [hardDrop] does
    nothing.  [rotate] leaves the board alone and flags the missing piece as
    grounded, as long as the lock condition does not hold.  When it holds
    (the timer has reached its limit or the counter of moves while locking
    its cap of 15, which a lock during which no piece is spawned leaves as it
    is), [rotate] goes on to [lock], which has nothing to freeze, takes this
    for a lock above the skyline and sets [gameOver_]: the grid is unchanged,
    no piece is drawn from the bag, and the game is over. *)
Theorem commands_without_piece (rotation : Rotation.t) s :
  Board.piece_ (board_ s) = Piece.Piece kNone ->
  hardDrop s = Some s /\
  (lock_due s = false -> rotate rotation s = Some (set_isOnGround true s)) /\
  (lock_due s = true ->
   exists s',
     rotate rotation s = Some s' /\
     isGameOver s' = true /\
     Board.tiles_ (board_ s') = Board.tiles_ (board_ s) /\
     Board.piece_ (board_ s') = Piece.Piece kNone /\
     nextPiece_ s' = nextPiece_ s /\
     pausedForLinesClear_ s' = pausedForLinesClear_ s).
Proof.
  intros Hp.
  assert (Board.rotate rotation (board_ s) = (false, board_ s)) as Er
    by (unfold Board.rotate; rewrite Hp; reflexivity).
  assert (rotate rotation s = checkLock s) as Ec.
  { unfold Tetris.rotate. rewrite Er. simpl andb. cbv iota zeta.
    now replace (set_board (board_ s) s) with s by now destruct s. }
  split; [unfold Tetris.hardDrop; now rewrite Hp|].
  rewrite Ec. unfold Tetris.checkLock. rewrite (isOnGround_none _ Hp).
  simpl negb. cbv iota zeta.
  change (fge (lockingTimer_ (set_isOnGround true s)) kLockDownTimeLimit_
          || (nMovesWhileLocking_ (set_isOnGround true s) >=? kLockDownMovesLimit_))
    with (lock_due s).
  split; intros Hd; rewrite Hd; [reflexivity|].
  unfold Tetris.lock. cbn [board_ set_isOnGround set_lockingTimer].
  rewrite (frozePiece_none _ Hp). simpl negb. cbv iota zeta.
  eexists. split; [reflexivity|]. cbn [isGameOver gameOver_ set_gameOver].
  split; [reflexivity|].
  pose proof (findLinesToClear_frame (board_ s)) as (_ & _ & Ht & _).
  cbn [board_ set_gameOver set_board Board.tiles_ Board.piece_ Board.set_piece].
  now rewrite Ht.
Qed.

End NoPiece.

(** The cap reached in play.  The I and the J piece are dropped on columns
    0-3 and 4-6; the L piece is brought down with the down key onto the J
    piece, moved left and right fourteen times while it rests there, moved
    off the J piece with the fifteenth counted move, on to columns 7-9, and
    brought down with the down key.  It locks as it lands, the counter being
    at 15, and completes row 19: the controller pauses for the line clear
    with the counter still at 15. *)
Definition capped_pause : Tetris.t unit :=
  after ([left; idle; left; idle; left; drop; right; drop; idle; right]
           ++ repeat down 170
           ++ flat_map (fun _ => [left; right]) (seq 0 7)
           ++ [idle; right; idle; right; idle; right]
           ++ repeat down 30)
        (new_game 0.005).

Lemma commands_without_piece_witness :
  Tetris.reachable keep_order pow_0_1 capped_pause /\
  Tetris.isGameOver capped_pause = false /\
  Tetris.isPausedForLinesClear capped_pause = true /\
  Tetris.nMovesWhileLocking_ capped_pause = 15 /\
  exists s',
    Tetris.rotate keep_order Rotation.kLeft capped_pause = Some s' /\
    Tetris.isGameOver s' = true.
Proof.
  split; [unfold capped_pause; apply after_reachable, new_game_reachable|].
  split; [vm_compute; reflexivity|]. split; [vm_compute; reflexivity|].
  split; [vm_compute; reflexivity|].
  assert (Board.piece_ (Tetris.board_ capped_pause) = Piece.Piece kNone) as Hp
    by (vm_compute; reflexivity).
  assert (lock_due capped_pause = true) as Hd by (vm_compute; reflexivity).
  destruct (proj2 (proj2 (commands_without_piece keep_order Rotation.kLeft capped_pause Hp)) Hd)
    as (s' & H1 & H2 & _).
  exists s'. split; assumption.
Defined.

(** ** The further properties on games played on the board of game.cpp *)

(** The game of [line_commands] after the hard drop that completes row 19
    and the sixty frames of the pause: the line has been cleared and the O
    piece is in play. *)
Definition after_line : Tetris.t unit :=
  after (line_commands ++ [drop] ++ repeat idle 60) (new_game 0.005).

(** The hard drop of the L piece of [before_line], eighteen rows at level 1,
    adds 36 to the score; and after the line has been cleared no line is
    counted. *)
Lemma game_figures_witness :
  (Tetris.linesCleared after_line = 0 /\
   Tetris.secondsPerLine_ after_line =
     Tetris.secondsPerLineForLevel pow_0_1 (Tetris.level after_line)) /\
  Tetris.score_ (before_line 0.005) + 2 * Tetris.level_ (before_line 0.005) *
    (Board.ghostRow_ (Tetris.board_ (before_line 0.005)) -
     Board.row_ (Tetris.board_ (before_line 0.005))) = 74 + 36 /\
  ledger (after [drop] (before_line 0.005)) =
    (Tetris.level_ (before_line 0.005), Tetris.linesCleared_ (before_line 0.005),
     Tetris.score_ (before_line 0.005) + 2 * Tetris.level_ (before_line 0.005) *
       (Board.ghostRow_ (Tetris.board_ (before_line 0.005)) -
        Board.row_ (Tetris.board_ (before_line 0.005))),
     Tetris.secondsPerLine_ (before_line 0.005), Tetris.timeStep_ (before_line 0.005)).
Proof.
  assert (Tetris.reachable keep_order pow_0_1 after_line) as Hr
    by (unfold after_line; apply after_reachable, new_game_reachable).
  assert (Tetris.hardDrop keep_order (before_line 0.005) =
          Some (after [drop] (before_line 0.005))) as Hd by (vm_compute; reflexivity).
  assert (PieceKind_eqb (Piece.kind_ (Board.piece_ (Tetris.board_ (before_line 0.005))))
            kNone = false) as Hk by (vm_compute; reflexivity).
  assert (score_fits (before_line 0.005)) as Hf
    by (unfold score_fits, fits_int; vm_compute; repeat split; discriminate).
  split; [exact (proj2 (proj2 (proj2 (proj2 (game_figures keep_order pow_0_1)))) after_line Hr)|].
  split; [vm_compute; reflexivity|].
  exact (proj2 (proj1 (proj2 (proj2 (proj2 (game_figures keep_order pow_0_1))))
                  (before_line 0.005) (after [drop] (before_line 0.005)) Hd) Hk Hf).
Defined.

Lemma lock_down_counter_bounded_witness :
  Tetris.nMovesWhileLocking_ grounded_O < Tetris.kLockDownMovesLimit_ /\
  Tetris.fge (Tetris.lockingTimer_ grounded_O) Tetris.kLockDownTimeLimit_ = false.
Proof.
  assert (Tetris.reachable keep_order pow_0_1 grounded_O) as Hr
    by (unfold grounded_O; apply after_reachable, new_game_reachable).
  assert (Tetris.isOnGround_ grounded_O = true) as Hg by (vm_compute; reflexivity).
  exact (proj2 (lock_down_counter_bounded keep_order pow_0_1 grounded_O Hr) Hg).
Defined.

Lemma next_piece_is_real_witness :
  exists kind,
    vat (Tetris.bag_ at_bag_boundary) (Tetris.nextPiece_ at_bag_boundary) = Some kind /\
    kind <> kNone.
Proof.
  assert (Tetris.reachable keep_order pow_0_1 at_bag_boundary) as Hr
    by (unfold at_bag_boundary; apply after_reachable, new_game_reachable).
  destruct (next_piece_is_real keep_order pow_0_1 keep_order_permutes at_bag_boundary Hr)
    as (_ & _ & kind & H1 & _ & H2 & _).
  exists kind. split; assumption.
Defined.

(** [restart] on the game that ended on a refused spawn. *)
Lemma restart_starts_game_witness :
  Tetris.isGameOver refused_spawn_game = true /\
  Tetris.isGameOver (Tetris.restart keep_order pow_0_1 1 refused_spawn_game) = false.
Proof.
  split; [vm_compute; reflexivity|].
  assert (Tetris.reachable keep_order pow_0_1 refused_spawn_game) as Hr
    by (unfold refused_spawn_game; apply after_reachable, new_game_reachable).
  pose proof (reachable_bag_ok keep_order pow_0_1 keep_order_permutes _ Hr) as Hok.
  assert (4 <= Board.nCols (Tetris.board_ refused_spawn_game)) as Hc
    by (vm_compute; discriminate).
  assert (2 <= Board.nRows (Tetris.board_ refused_spawn_game)) as Hrows
    by (vm_compute; discriminate).
  exact (proj1 (restart_starts_game keep_order pow_0_1 keep_order_permutes 1
                  refused_spawn_game Hok Hc Hrows)).
Defined.

Lemma commands_stay_in_grid_witness :
  exists s', Tetris.step keep_order pow_0_1 drop (new_game 0.005) = Some s'.
Proof.
  destruct (commands_stay_in_grid keep_order pow_0_1) as (H1 & _ & H3).
  assert (safe (new_game 0.005)) as Hs by (unfold new_game; apply H1; lia).
  assert (Tetris.isGameOver (new_game 0.005) = false) as Hg by (vm_compute; reflexivity).
  exact (H3 drop (new_game 0.005) Hs Hg).
Defined.

(** * The game loop of game.cpp

    The part of [src/game.cpp] that decides what the controller is asked to
    do: the globals [gameState], [softDrop], [moveRight], [moveLeft] and
    [tetris], the two GLFW callbacks that write them, and the update step of
    one iteration of the loop of [main].  Window, timing and drawing do not
    write these globals and are left out. *)

Module Game.

Inductive GameState : Type := kGameStart | kGameRun | kGamePaused | kGameOver.

(** The key codes that [keyCallback] tells apart; the up arrow, which the
    start screen names, is kept apart from the keys the code never
    mentions. *)
Inductive Key : Type :=
| KEY_Z | KEY_X | KEY_SPACE | KEY_LEFT | KEY_RIGHT | KEY_DOWN
| KEY_ESCAPE | KEY_ENTER | KEY_UP | KEY_OTHER.

(** [GLFW_PRESS], [GLFW_RELEASE] and [GLFW_REPEAT]. *)
Inductive Action : Type := PRESS | RELEASE | REPEAT.

Definition GameState_eqb (a b : GameState) : bool :=
  match a, b with
  | kGameStart, kGameStart | kGameRun, kGameRun
  | kGamePaused, kGamePaused | kGameOver, kGameOver => true
  | _, _ => false
  end.

Definition Key_eqb (a b : Key) : bool :=
  match a, b with
  | KEY_Z, KEY_Z | KEY_X, KEY_X | KEY_SPACE, KEY_SPACE | KEY_LEFT, KEY_LEFT
  | KEY_RIGHT, KEY_RIGHT | KEY_DOWN, KEY_DOWN | KEY_ESCAPE, KEY_ESCAPE
  | KEY_ENTER, KEY_ENTER | KEY_UP, KEY_UP | KEY_OTHER, KEY_OTHER => true
  | _, _ => false
  end.

Definition Action_eqb (a b : Action) : bool :=
  match a, b with
  | PRESS, PRESS | RELEASE, RELEASE | REPEAT, REPEAT => true
  | _, _ => false
  end.

Section Loop.

Context {Rng : Type}.
Variable shuffle : Rng -> list PieceKind -> list PieceKind * Rng.
Variable pow : float -> float -> float.

(** The globals. *)
Record t : Type := mk {
  gameState : GameState;
  softDrop : bool;
  moveRight : bool;
  moveLeft : bool;
  tetris : Tetris.t Rng
}.

Definition set_gameState (v : GameState) (g : t) : t :=
  mk v (softDrop g) (moveRight g) (moveLeft g) (tetris g).

Definition set_softDrop (v : bool) (g : t) : t :=
  mk (gameState g) v (moveRight g) (moveLeft g) (tetris g).

Definition set_moveRight (v : bool) (g : t) : t :=
  mk (gameState g) (softDrop g) v (moveLeft g) (tetris g).

Definition set_moveLeft (v : bool) (g : t) : t :=
  mk (gameState g) (softDrop g) (moveRight g) v (tetris g).

Definition set_tetris (v : Tetris.t Rng) (g : t) : t :=
  mk (gameState g) (softDrop g) (moveRight g) (moveLeft g) v.

(** A call of a member function of [*tetris]. *)
Definition call (f : Tetris.t Rng -> option (Tetris.t Rng)) (g : t) : option t :=
  match f (tetris g) with
  | Some s => Some (set_tetris s g)
  | None => None
  end.

(** [void keyCallback(GLFWwindow*, int key, int, int action, int)]. *)
Definition keyCallback (key : Key) (action : Action) (g : t) : option t :=
  match gameState g with
  | kGameRun =>
      match action with
      | PRESS =>
          match key with
          | KEY_Z => call (Tetris.rotate shuffle Rotation.kLeft) g
          | KEY_X => call (Tetris.rotate shuffle Rotation.kRight) g
          | KEY_SPACE => call (Tetris.hardDrop shuffle) g
          | KEY_LEFT => Some (set_moveLeft true g)
          | KEY_RIGHT => Some (set_moveRight true g)
          | KEY_DOWN => Some (set_softDrop true g)
          | KEY_ESCAPE => Some (set_gameState kGamePaused g)
          | _ => Some g
          end
      | RELEASE =>
          match key with
          | KEY_LEFT => Some (set_moveLeft false g)
          | KEY_RIGHT => Some (set_moveRight false g)
          | KEY_DOWN => Some (set_softDrop false g)
          | _ => Some g
          end
      | REPEAT => Some g
      end
  | kGamePaused =>
      if Key_eqb key KEY_ESCAPE && Action_eqb action PRESS then Some (set_gameState kGameRun g)
      else if Key_eqb key KEY_ENTER && Action_eqb action PRESS then Some (set_gameState kGameStart g)
      else Some g
  | kGameOver =>
      if Key_eqb key KEY_ENTER && Action_eqb action PRESS then Some (set_gameState kGameStart g)
      else Some g
  | kGameStart =>
      if Key_eqb key KEY_ENTER && Action_eqb action PRESS then
        Some (set_gameState kGameRun
                (set_softDrop false (set_moveLeft false (set_moveRight false g))))
      else Some g
  end.

(** [void windowFocusCallback(GLFWwindow*, int focused)]. *)
Definition windowFocusCallback (focused : bool) (g : t) : t :=
  if negb focused && GameState_eqb (gameState g) kGameRun
  then set_gameState kGamePaused g
  else g.

(** The update step of one iteration of the loop of [main]. *)
Definition tick (g : t) : option t :=
  if GameState_eqb (gameState g) kGameRun then
    match Tetris.update shuffle (softDrop g) (moveRight g) (moveLeft g) (tetris g) with
    | Some s =>
        let g := set_tetris s g in
        Some (if Tetris.isGameOver s then set_gameState kGameOver g else g)
    | None => None
    end
  else Some g.

(** What happens to the globals: the events that [glfwPollEvents] delivers
    and the update step, in the order of the run. *)
Inductive Event : Type :=
| KeyEvent (key : Key) (action : Action)
| FocusEvent (focused : bool)
| Tick.

Definition step (e : Event) (g : t) : option t :=
  match e with
  | KeyEvent key action => keyCallback key action g
  | FocusEvent focused => Some (windowFocusCallback focused g)
  | Tick => tick g
  end.

(** The globals when the loop of [main] starts: the start screen, no key
    held, and the controller constructed on the board of 20 rows and 10
    columns with the time step [kGameTimeStep]. *)
Definition kBoardNumRows : Z := 20.
Definition kBoardNumCols : Z := 10.
Definition kGameTimeStep : float := 0.005.

Definition start (rng : Rng) : t :=
  mk kGameStart false false false
     (Tetris.Tetris shuffle pow (Board.Board kBoardNumRows kBoardNumCols) kGameTimeStep rng).

Inductive reachable : t -> Prop :=
| reachable_start rng : reachable (start rng)
| reachable_step e g g' : reachable g -> step e g = Some g' -> reachable g'.

End Loop.

Arguments t Rng : clear implicits.

End Game.

(** ** The game loop: when and how the controller is driven *)

Section GameLoop.

Import Game.

Context {Rng : Type}.
Variable shuffle : Rng -> list PieceKind -> list PieceKind * Rng.
Variable pow : float -> float -> float.

Implicit Types (g : Game.t Rng).

Local Abbreviation step := (Game.step shuffle).
Local Abbreviation reachable := (Game.reachable shuffle pow).

(** The three flags that [tick] passes to [update]. *)
Definition held g : bool * bool * bool := (softDrop g, moveRight g, moveLeft g).

(** X21.  The state of the controller changes only while the game runs.  On
    the start screen, while paused and after the game is over, no key event,
    focus event or update step of the loop changes the controller: the
    [Tetris] object stays exactly as it is (drawing still reads it, through
    queries such as [linesCleared()] that change nothing).  The only thing
    that happens to the key flags then is that Enter on the start screen
    clears the three of them as it enters the running state.  And in every
    state the up arrow, which the start screen announces as a rotation key,
    does nothing at all, like every key the code does not mention. *)
Theorem controller_driven_only_while_running :
  (forall e g,
     gameState g <> kGameRun ->
     exists g',
       step e g = Some g' /\ tetris g' = tetris g /\
       (held g' = held g \/
        (gameState g = kGameStart /\ e = KeyEvent KEY_ENTER PRESS /\
         gameState g' = kGameRun /\ held g' = (false, false, false)))) /\
  (forall action g,
     step (KeyEvent KEY_UP action) g = Some g /\
     step (KeyEvent KEY_OTHER action) g = Some g).
Proof.
  split.
  - intros e g Hg. destruct e as [key action|focused|]; simpl.
    + unfold keyCallback. destruct (gameState g) eqn:E; [|congruence| |].
      * destruct (Key_eqb key KEY_ENTER && Action_eqb action PRESS) eqn:Ep.
        -- eexists. split; [reflexivity|]. split; [reflexivity|]. right.
           destruct action, key; try discriminate Ep. auto.
        -- eexists. split; [reflexivity|]. auto.
      * destruct (Key_eqb key KEY_ESCAPE && Action_eqb action PRESS);
          [|destruct (Key_eqb key KEY_ENTER && Action_eqb action PRESS)];
          eexists; (split; [reflexivity|]); auto.
      * destruct (Key_eqb key KEY_ENTER && Action_eqb action PRESS);
          eexists; (split; [reflexivity|]); auto.
    + unfold windowFocusCallback.
      destruct (gameState g) eqn:E; try congruence; simpl; rewrite andb_false_r; eauto.
    + unfold tick. destruct (gameState g) eqn:E; try congruence; simpl; eauto.
  - intros action g. unfold Game.step, keyCallback.
    destruct (gameState g), action; split; reflexivity.
Qed.

(** The commands that the game loop issues: every one but [restart]. *)
Definition issued (c : Tetris.Command) : Prop :=
  match c with
  | Tetris.Restart _ => False
  | _ => True
  end.

Lemma step_issues e g g' :
  step e g = Some g' ->
  tetris g' = tetris g \/
  exists c, issued c /\ Tetris.step shuffle pow c (tetris g) = Some (tetris g').
Proof.
  destruct e as [key action|focused|]; simpl.
  - unfold keyCallback, call.
    destruct (gameState g), action, key; simpl;
      try (intros [= <-]; now left);
      try (destruct (Tetris.rotate shuffle _ (tetris g)) as [s|] eqn:E; [|discriminate];
           intros [= <-]; right; eexists (Tetris.Rotate _); split; [exact I | exact E]);
      try (destruct (Tetris.hardDrop shuffle (tetris g)) as [s|] eqn:E; [|discriminate];
           intros [= <-]; right; exists Tetris.HardDrop; split; [exact I | exact E]).
  - intros [= <-]. left. unfold windowFocusCallback. now destruct (_ && _).
  - unfold tick. destruct (GameState_eqb _ _); [|intros [= <-]; now left].
    destruct (Tetris.update shuffle _ _ _ (tetris g)) as [s|] eqn:E; [|discriminate].
    intros [= <-]. right. exists (Tetris.Update (softDrop g) (moveRight g) (moveLeft g)).
    split; [exact I|]. simpl. rewrite E. now destruct (Tetris.isGameOver s).
Qed.

Lemma issued_ledger (c : Tetris.Command) (s s' : Tetris.t Rng) :
  issued c -> Tetris.step shuffle pow c s = Some s' ->
  Tetris.level_ s' = Tetris.level_ s /\
  Tetris.linesCleared_ s' = Tetris.linesCleared_ s /\
  Tetris.timeStep_ s' = Tetris.timeStep_ s.
Proof.
  destruct c as [level|softDrop moveRight moveLeft|rotation|]; simpl; [tauto| | |];
    intros _ H.
  - apply (update_ledger shuffle), ledger_eq in H. tauto.
  - apply (rotate_ledger shuffle), ledger_eq in H. tauto.
  - apply (hardDrop_ledger shuffle), ledger_eq in H. tauto.
Qed.

(** X22.  A session never restarts the controller.  Whatever the keys
    pressed, the focus events and the number of iterations, the controller
    of the game loop is the one constructed at the start, driven by
    [update], [rotate] and [hardDrop] only: [restart] is called by the
    constructor and never again, not even when a new game is started after
    a game over.  Throughout a session the level is therefore 1, the number
    of cleared lines 0 and the time step [kGameTimeStep]. *)
Theorem session_never_restarts g :
  reachable g ->
  (exists rng cs,
     Forall issued cs /\
     Tetris.run shuffle pow cs
       (Tetris.Tetris shuffle pow (Board.Board kBoardNumRows kBoardNumCols)
          kGameTimeStep rng) = Some (tetris g)) /\
  Tetris.level (tetris g) = 1 /\
  Tetris.linesCleared (tetris g) = 0 /\
  Tetris.timeStep_ (tetris g) = kGameTimeStep.
Proof.
  assert (Hrun : forall cs c (s0 s1 s2 : Tetris.t Rng),
            Tetris.run shuffle pow cs s0 = Some s1 ->
            Tetris.step shuffle pow c s1 = Some s2 ->
            Tetris.run shuffle pow (cs ++ [c]) s0 = Some s2).
  { induction cs as [|c0 cs IH]; intros c s0 s1 s2; simpl.
    - intros [= <-] ->. reflexivity.
    - destruct (Tetris.step shuffle pow c0 s0) as [s|]; [|discriminate]. apply IH. }
  induction 1 as [rng|e g g' _ IH Hstep].
  - unfold start. cbn [tetris].
    split; [exists rng, []; split; [constructor | reflexivity]|].
    unfold Tetris.Tetris, Tetris.level, Tetris.linesCleared.
    match goal with |- context [Tetris.restart shuffle pow ?l ?s0] =>
      destruct (ledger_eq _ _ _ _ _ _ (restart_ledger shuffle pow l s0))
        as (E1 & E2 & _ & _ & E5)
    end.
    rewrite E1, E2, E5. repeat split.
  - destruct IH as ((rng & cs & Hcs & Hr) & H1 & H2 & H3).
    destruct (step_issues e g g' Hstep) as [-> | (c & Hc & Hs)].
    + split; [exists rng, cs; now split|]. now repeat split.
    + split.
      * exists rng, (cs ++ [c]). split; [|exact (Hrun _ _ _ _ _ Hr Hs)].
        apply Forall_app. split; [exact Hcs | now constructor].
      * destruct (issued_ledger c _ _ Hc Hs) as (E1 & E2 & E3).
        unfold Tetris.level, Tetris.linesCleared in *. rewrite E1, E2, E3. now repeat split.
Qed.

End GameLoop.

(** A session on the machine of the games above: Enter on the start screen,
    a hard drop, an iteration of the loop, Escape, and keys while paused. *)
Definition session (es : list Game.Event) (g : Game.t unit) : Game.t unit :=
  fold_left (fun g e => match Game.step keep_order e g with
                        | Some g' => g'
                        | None => g
                        end) es g.

Lemma session_reachable (es : list Game.Event) : forall g,
  Game.reachable keep_order pow_0_1 g -> Game.reachable keep_order pow_0_1 (session es g).
Proof.
  induction es as [|e es IH]; intros g Hg; [exact Hg|].
  unfold session. cbn [fold_left]. apply IH.
  destruct (Game.step keep_order e g) as [g'|] eqn:E; [|exact Hg].
  exact (Game.reachable_step keep_order pow_0_1 e g g' Hg E).
Qed.

Definition paused_session : Game.t unit :=
  session [Game.KeyEvent Game.KEY_ENTER Game.PRESS;
           Game.KeyEvent Game.KEY_SPACE Game.PRESS;
           Game.Tick;
           Game.KeyEvent Game.KEY_ESCAPE Game.PRESS]
          (Game.start keep_order pow_0_1 tt).

Lemma controller_driven_only_while_running_witness :
  Game.gameState paused_session = Game.kGamePaused /\
  exists g',
    Game.step keep_order (Game.KeyEvent Game.KEY_SPACE Game.PRESS) paused_session = Some g' /\
    Game.tetris g' = Game.tetris paused_session.
Proof.
  assert (Game.gameState paused_session = Game.kGamePaused) as Hp
    by (vm_compute; reflexivity).
  split; [exact Hp|].
  destruct (proj1 (controller_driven_only_while_running keep_order)
              (Game.KeyEvent Game.KEY_SPACE Game.PRESS) paused_session
              ltac:(rewrite Hp; discriminate)) as (g' & H1 & H2 & _).
  exists g'. split; assumption.
Defined.

Lemma session_never_restarts_witness :
  Tetris.level (Game.tetris paused_session) = 1 /\
  Tetris.linesCleared (Game.tetris paused_session) = 0.
Proof.
  assert (Game.reachable keep_order pow_0_1 paused_session) as Hr
    by (unfold paused_session; apply session_reachable, Game.reachable_start).
  destruct (session_never_restarts keep_order pow_0_1 paused_session Hr)
    as (_ & H1 & H2 & _).
  split; assumption.
Defined.

